(** * The Open Images VRD challenge evaluation driver

    A shallow embedding of
    [research/object_detection/metrics/oid_vrd_challenge_evaluation.py]:
    the label-map helpers [_load_labelmap] and [_swap_labelmap_dict], the
    driver [main] and the command-line entry point, followed by the
    properties of the driver that the specification states.

    Python values are modelled as the code has them: a [dict] is an
    insertion-ordered association list with unique keys, a [float] is a
    binary64 number, an exception is a value of [exn] that ends the run, and
    the calls [main] makes on its collaborators (pandas, the label-map
    parser, the two evaluators, the process-wide logger) are recorded in a
    trace. *)

From Stdlib Require Import Floats ZArith String Ascii List.
From stdpp Require Import base option list strings sorting gmap.

Set Warnings "-inexact-float".

Local Open Scope string_scope.
Local Open Scope list_scope.

(** ** Python dictionaries *)

(** A [dict] keeps its items in insertion order; assigning to a key that is
    already present replaces the value and keeps the key's position. *)
Definition PyDict (K V : Type) : Type := list (K * V).

Section dict.
Context {K V : Type} `{EqDecision K}.

(** [d.get(k)]: the value under [k], if any. *)
Fixpoint dict_get (d : PyDict K V) (k : K) : option V :=
  match d with
  | [] => None
  | (k', v) :: d' => if decide (k' = k) then Some v else dict_get d' k
  end.

(** [d[k] = v]. *)
Fixpoint dict_set (d : PyDict K V) (k : K) (v : V) : PyDict K V :=
  match d with
  | [] => [(k, v)]
  | (k', v') :: d' =>
      if decide (k' = k) then (k', v) :: d' else (k', v') :: dict_set d' k v
  end.

Definition dict_keys (d : PyDict K V) : list K := map fst d.
Definition dict_values (d : PyDict K V) : list V := map snd d.

(** The data-structure invariant of a Python dictionary. *)
Definition dict_wf (d : PyDict K V) : Prop := NoDup (dict_keys d).
End dict.

(** ** Strings and paths *)

Definition slash : ascii := "/"%char.

(** [(p[:i], p[i:])] for [i = p.rfind('/') + 1], as [posixpath] splits a
    path in [dirname] and [basename]. *)
Fixpoint rpartition_sep (p : string) : string * string :=
  match p with
  | EmptyString => (EmptyString, EmptyString)
  | String c p' =>
      match rpartition_sep p' with
      | (EmptyString, _) =>
          if Ascii.eqb c slash then (String c EmptyString, p')
          else (EmptyString, String c p')
      | (h, t) => (String c h, t)
      end
  end.

(** [s.rstrip('/')]. *)
Fixpoint rstrip_sep (s : string) : string :=
  match s with
  | EmptyString => EmptyString
  | String c s' =>
      match rstrip_sep s' with
      | EmptyString => if Ascii.eqb c slash then EmptyString else String c EmptyString
      | r => String c r
      end
  end.

Fixpoint all_sep (s : string) : bool :=
  match s with
  | EmptyString => true
  | String c s' => Ascii.eqb c slash && all_sep s'
  end.

(** [os.path.basename]. *)
Definition basename (p : string) : string := snd (rpartition_sep p).

(** [os.path.dirname]: the head, without its trailing slashes unless it
    consists of slashes only. *)
Definition dirname (p : string) : string :=
  let head := fst (rpartition_sep p) in
  if all_sep head then head else rstrip_sep head.

(** [s.split(sep)[0]] for a non-empty [sep]: what stands before the first
    occurrence of [sep] in [s], all of [s] when there is none. *)
Fixpoint split_head (sep s : string) : string :=
  if String.prefix sep s then EmptyString
  else match s with
       | EmptyString => EmptyString
       | String c s' => String c (split_head sep s')
       end.

(** ** Label maps *)

(** One [item { name: ... id: ... }] of a [StringIntLabelMap]. *)
Record Item := mkItem { item_name : string; item_id : Z }.

(** The loop of [_load_labelmap] over the parsed items:
    [labelmap_dict[item.name] = item.id]. *)
Definition labelmap_dict_of (items : list Item) : PyDict string Z :=
  fold_left (fun d item => dict_set d (item_name item) (item_id item)) items [].

(** [{v: k for k, v in labelmap_dict.items()}]. *)
Definition _swap_labelmap_dict {K V : Type} `{EqDecision V}
    (labelmap_dict : PyDict K V) : PyDict V K :=
  fold_left (fun d kv => dict_set d (snd kv) (fst kv)) labelmap_dict [].

(** ** Exceptions *)

(** The exceptions that end a run of [main]; [Raised] stands for whatever a
    collaborator raises on its own. *)
Inductive exn : Type :=
| FileNotFoundError (path : string)
| ParseError (path : string)
| KeyError (key : string)
| Raised (msg : string).

Inductive result (A : Type) : Type :=
| Return (a : A)
| Raise (e : exn).
Arguments Return {A} a.
Arguments Raise {A} e.

(** ** Data frames *)

(** A row maps a column name to the text of its cell; a column that is
    missing from the row reads as NaN. *)
Definition Row : Type := PyDict string string.

Record DataFrame := mkDataFrame { df_columns : list string; df_rows : list Row }.

(** The order of Python strings, by code point. *)
Definition str_le (a b : string) : Prop := Is_true (String.leb a b).

#[global] Instance str_le_dec (a b : string) : Decision (str_le a b).
Proof. unfold str_le. apply _. Defined.

(** [pd.concat([a, b], sort=True)]: the rows of [a] followed by those of
    [b], over the sorted union of the columns. *)
Definition concat (a b : DataFrame) : DataFrame :=
  {| df_columns := merge_sort str_le (remove_dups (df_columns a ++ df_columns b));
     df_rows := df_rows a ++ df_rows b |}.

(** The cells of column [col] that are not NaN, in row order. *)
Definition column_values (col : string) (df : DataFrame) : list string :=
  omap (fun r : Row => dict_get r col) (df_rows df).

Definition rows_of_key (col key : string) (df : DataFrame) : DataFrame :=
  {| df_columns := df_columns df;
     df_rows := filter (fun r : Row => dict_get r col = Some key) (df_rows df) |}.

(** The distinct keys of a group-by, in the order pandas enumerates them. *)
Definition group_keys (col : string) (df : DataFrame) : list string :=
  merge_sort str_le (remove_dups (column_values col df)).

(** [df.groupby(col)], as iterated: one [(key, group)] pair per distinct
    value of the column, keys sorted, rows whose key is NaN dropped, each
    group keeping the frame's row order.  A column the frame does not have
    raises [KeyError]. *)
Definition groupby (col : string) (df : DataFrame) : result (list (string * DataFrame)) :=
  if decide (col ∈ df_columns df)
  then Return (map (fun key => (key, rows_of_key col key df)) (group_keys col df))
  else Raise (KeyError col).

(** ** The command line

    The [__main__] block builds an [argparse.ArgumentParser], adds six
    options and calls [parse_args()].  The parser itself is Python's; it is
    modelled here as CPython's [argparse] treats a parser that has these
    options, the automatic help option and no positional argument:
    [_parse_optional] classifies each argument string, options may be
    abbreviated, and the argument strings are then consumed in order. *)

(** The namespace [parser.parse_args()] returns. *)
Record Args := mkArgs {
  input_annotations_boxes : string;
  input_annotations_labels : string;
  input_predictions : string;
  input_class_labelmap : string;
  input_relationship_labelmap : string;
  output_metrics : string
}.

Inductive Dest : Type :=
| dest_input_annotations_boxes
| dest_input_annotations_labels
| dest_input_predictions
| dest_input_class_labelmap
| dest_input_relationship_labelmap
| dest_output_metrics.

#[global] Instance Dest_eq_dec : EqDecision Dest.
Proof. solve_decision. Defined.

(** One [parser.add_argument(option_string, required=..., help=...)]. *)
Record Argument := mkArgument { option_string : string; dest : Dest; required : bool }.

(** The [add_argument] calls of the [__main__] block, in order. *)
Definition add_argument_calls : list Argument :=
  [ mkArgument "--input_annotations_boxes" dest_input_annotations_boxes true;
    mkArgument "--input_annotations_labels" dest_input_annotations_labels true;
    mkArgument "--input_predictions" dest_input_predictions true;
    mkArgument "--input_class_labelmap" dest_input_class_labelmap true;
    mkArgument "--input_relationship_labelmap" dest_input_relationship_labelmap true;
    mkArgument "--output_metrics" dest_output_metrics true ].

Inductive Action : Type :=
| HelpAction
| StoreAction (d : Dest).

(** The parser's option strings: [ArgumentParser(description=...)] is built
    with the default [add_help=True], so [-h] and [--help] are registered
    before the script's own arguments. *)
Definition option_string_actions : list (string * Action) :=
  [("-h", HelpAction); ("--help", HelpAction)]
  ++ map (fun a => (option_string a, StoreAction (dest a))) add_argument_calls.

(** [s.split('=', 1)] when [s] holds an ['=']. *)
Fixpoint split_eq (s : string) : option (string * string) :=
  match s with
  | EmptyString => None
  | String c s' =>
      if Ascii.eqb c "="%char then Some (EmptyString, s')
      else match split_eq s' with
           | Some (a, b) => Some (String c a, b)
           | None => None
           end
  end.

Definition is_digit (c : ascii) : bool :=
  (48 <=? nat_of_ascii c)%nat && (nat_of_ascii c <=? 57)%nat.

Fixpoint all_digits (s : string) : bool :=
  match s with
  | EmptyString => true
  | String c s' => is_digit c && all_digits s'
  end.

(** [s] without its leading digits. *)
Fixpoint drop_digits (s : string) : string :=
  match s with
  | EmptyString => EmptyString
  | String c s' => if is_digit c then drop_digits s' else s
  end.

(** argparse's [_negative_number_matcher], [^-\d+$|^-\d*\.\d+$]. *)
Definition negative_number (s : string) : bool :=
  match s with
  | String "-" r =>
      match r with
      | EmptyString => false
      | _ => all_digits r
             || match drop_digits r with
                | String "." f =>
                    match f with EmptyString => false | _ => all_digits f end
                | _ => false
                end
      end
  | _ => false
  end.

Fixpoint has_space (s : string) : bool :=
  match s with
  | EmptyString => false
  | String c s' => Ascii.eqb c " "%char || has_space s'
  end.

Fixpoint all_h (s : string) : bool :=
  match s with
  | EmptyString => true
  | String c s' => Ascii.eqb c "h"%char && all_h s'
  end.

(** What argparse takes an argument string for. *)
Inductive Classified : Type :=
| Positional
| Known (a : Action) (explicit_arg : option string)
| Ambiguous
| UnknownOption.

(** [_get_option_tuples]: the interpretations of an argument string as an
    abbreviated option.  A string in two dashes matches every option string
    it is a prefix of (up to its ['='], what follows being the explicit
    argument); a string in one dash matches the short option its first two
    characters spell, the rest being the explicit argument. *)
Definition get_option_tuples (arg_string : string) : list (Action * option string) :=
  match arg_string with
  | String "-" (String "-" _) =>
      let '(option_prefix, explicit_arg) :=
        match split_eq arg_string with
        | Some (p, e) => (p, Some e)
        | None => (arg_string, None)
        end in
      omap (fun sa : string * Action =>
              if String.prefix option_prefix (fst sa)
              then Some (snd sa, explicit_arg) else None)
           option_string_actions
  | String "-" (String c r) =>
      if Ascii.eqb c "h"%char then [(HelpAction, Some r)] else []
  | _ => []
  end.

(** [_parse_optional]. *)
Definition parse_optional (arg_string : string) : Classified :=
  match arg_string with
  | EmptyString => Positional
  | String c r =>
      if negb (Ascii.eqb c "-"%char) then Positional
      else match dict_get option_string_actions arg_string with
      | Some a => Known a None
      | None =>
          match r with
          | EmptyString => Positional
          | _ =>
              match match split_eq arg_string with
                    | Some (o, e) =>
                        match dict_get option_string_actions o with
                        | Some a => Some (a, e)
                        | None => None
                        end
                    | None => None
                    end with
              | Some (a, e) => Known a (Some e)
              | None =>
                  match get_option_tuples arg_string with
                  | [(a, e)] => Known a e
                  | _ :: _ :: _ => Ambiguous
                  | [] =>
                      if negative_number arg_string then Positional
                      else if has_space arg_string then Positional
                      else UnknownOption
                  end
              end
          end
      end
  end.

Definition Namespace : Type := Dest -> option string.

Definition ns_empty : Namespace := fun _ => None.

Definition ns_set (ns : Namespace) (d : Dest) (v : string) : Namespace :=
  fun d' => if decide (d' = d) then Some v else ns d'.

(** How [parser.parse_args()] ends: with the namespace, or by leaving the
    process ([parser.exit(status)]: 0 after printing the help, 2 after an
    error). *)
Inductive Parsed : Type :=
| Namespace_of (a : Args)
| Exit (status : Z).

(** The end of parsing: a required argument that was not given is an error,
    and so is an argument string nothing consumed. *)
Definition finish (ns : Namespace) (extras : bool) : Parsed :=
  if existsb (fun a => required a && negb (bool_decide (is_Some (ns (dest a)))))
             add_argument_calls
  then Exit 2
  else if extras then Exit 2
  else match ns dest_input_annotations_boxes, ns dest_input_annotations_labels,
             ns dest_input_predictions, ns dest_input_class_labelmap,
             ns dest_input_relationship_labelmap, ns dest_output_metrics with
       | Some b, Some l, Some p, Some c, Some r, Some o =>
           Namespace_of (mkArgs b l p c r o)
       | _, _, _, _, _, _ => Exit 2
       end.

(** An argument string an option can take as its value. *)
Definition is_value (arg_string : string) : bool :=
  match parse_optional arg_string with
  | Positional => negb (String.eqb arg_string "--")
  | _ => false
  end.

(** The argument strings are consumed from left to right.  The help action
    leaves at once with status 0 (given as [-h], also when more [h]s are
    joined to it; an explicit argument is an error); an option that stores
    takes its explicit argument or the next argument string; what is no
    option is kept for the "unrecognized arguments" error at the end.  From
    [--] on nothing is an option, and with no positional argument declared
    all of it is unrecognized. *)
Fixpoint consume (ns : Namespace) (extras : bool) (arg_strings : list string) : Parsed :=
  match arg_strings with
  | [] => finish ns extras
  | arg_string :: rest =>
      if String.eqb arg_string "--"
      then finish ns true
      else match parse_optional arg_string with
      | Positional | UnknownOption => consume ns true rest
      | Ambiguous => Exit 2
      | Known HelpAction None => Exit 0
      | Known HelpAction (Some e) =>
          match arg_string, e with
          | String "-" (String "h" _), String _ _ => if all_h e then Exit 0 else Exit 2
          | _, _ => Exit 2
          end
      | Known (StoreAction d) (Some v) => consume (ns_set ns d v) extras rest
      | Known (StoreAction d) None =>
          match rest with
          | v :: rest' =>
              if is_value v then consume (ns_set ns d v) extras rest' else Exit 2
          | [] => Exit 2
          end
      end
  end.

(** The argument strings before a [--]. *)
Fixpoint before_dashes (arg_strings : list string) : list string :=
  match arg_strings with
  | [] => []
  | a :: rest => if String.eqb a "--" then [] else a :: before_dashes rest
  end.

Definition is_ambiguous (arg_string : string) : bool :=
  match parse_optional arg_string with Ambiguous => true | _ => false end.

(** [parser.parse_args(argv)]: every argument string is classified before
    any is consumed, so an ambiguous abbreviation is an error wherever it
    stands. *)
Definition parse_args (argv : list string) : Parsed :=
  if existsb is_ambiguous (before_dashes argv) then Exit 2
  else consume ns_empty false argv.

(** ** The collaborators of [main] *)

(** What an evaluator's [evaluate()] returns: metric name to score. *)
Definition Metrics : Type := PyDict string float.

(** A value handed to [Logger().log_value]. *)
Inductive LVal : Type :=
| VFloat (x : float)
| VInt (n : Z).

(** The [values] table of the logger: a list of logged values per name. *)
Definition LogValues : Type := PyDict string (list LVal).

(** The file system [main] reads from: the text of the file at a path. *)
Definition FileSystem : Type := string -> option string.

(** A [vrd_evaluation] evaluator, as [main] uses it.  The dictionaries it is
    handed are objects of the store ([gmap nat D], by reference); a method
    may raise, may keep a reference and may write to the store. *)
Record Evaluator (D : Type) := mkEvaluator {
  ev_state : Type;
  ev_new : ev_state;
  ev_add_single_ground_truth_image_info :
    ev_state -> gmap nat D -> string -> nat -> result (ev_state * gmap nat D);
  ev_add_single_detected_image_info :
    ev_state -> gmap nat D -> string -> nat -> result (ev_state * gmap nat D);
  ev_evaluate :
    ev_state -> gmap nat D -> PyDict Z string -> result (ev_state * gmap nat D * Metrics)
}.
Arguments ev_state {D} _.
Arguments ev_new {D} _.
Arguments ev_add_single_ground_truth_image_info {D} _ _ _ _ _.
Arguments ev_add_single_detected_image_info {D} _ _ _ _ _.
Arguments ev_evaluate {D} _ _ _ _.

(** The code [main] calls and this file does not hold: pandas' CSV parser,
    protobuf's text parser, the dictionary builders of
    [oid_vrd_challenge_evaluation_utils], the two evaluators of
    [vrd_evaluation], and of the logger ([bootstrap.lib.logger]) what it
    finds on disk when it is created and the files it keeps there. *)
Record Env := mkEnv {
  VRDDict : Type;
  csv_parser : string -> option DataFrame;
  text_format_Merge : string -> option (list Item);
  build_groundtruth_vrd_dictionary :
    DataFrame -> PyDict string Z -> PyDict string Z -> result VRDDict;
  build_predictions_vrd_dictionary :
    DataFrame -> PyDict string Z -> PyDict string Z -> result VRDDict;
  VRDRelationDetectionEvaluator : Evaluator VRDDict;
  VRDPhraseDetectionEvaluator : Evaluator VRDDict;
  logger_reload : string -> string -> LogValues;
  logger_files : string -> string -> list string
}.

(** ** Traces *)

Inductive Who : Type := Relation | Phrase.

#[global] Instance Who_eq_dec : EqDecision Who.
Proof. solve_decision. Defined.

(** The calls [main] makes, in the order it makes them.  A call is recorded
    when it is made, whether it returns or raises. *)
Inductive Event : Type :=
| Logger_new (dir_logs name : string)
| Logger_message (msg : string)
| Logger_log_value (name : string) (value : LVal)
| Logger_flush
| Open (path mode : string)
| Read_csv (path : string)
| New_evaluator (who : Who)
| Add_single_ground_truth_image_info (who : Who) (image_id : string) (groundtruth_dict : nat)
| Add_single_detected_image_info (who : Who) (image_id : string) (detections_dict : nat)
| Evaluate (who : Who) (relationships : PyDict Z string)
| Evaluate_returned (who : Who) (metrics : Metrics).

(** ** The state of a run *)

Record World (E : Env) := mkWorld {
  heap : gmap nat (VRDDict E);
  next_ref : nat;
  relation_evaluator : ev_state (VRDRelationDetectionEvaluator E);
  phrase_evaluator : ev_state (VRDPhraseDetectionEvaluator E);
  logger : option LogValues;
  trace : list Event
}.
Arguments mkWorld {E} _ _ _ _ _ _.
Arguments heap {E} _.
Arguments next_ref {E} _.
Arguments relation_evaluator {E} _.
Arguments phrase_evaluator {E} _.
Arguments logger {E} _.
Arguments trace {E} _.

(** The state [main] starts in: nothing allocated, nothing called; [lg] is
    the logger singleton of the process, [None] when there is none yet. *)
Definition init_world (E : Env) (lg : option LogValues) : World E :=
  mkWorld ∅ 0 (ev_new (VRDRelationDetectionEvaluator E))
          (ev_new (VRDPhraseDetectionEvaluator E)) lg [].

(** A computation: from a state to a value or an exception, and a state. *)
Definition M (E : Env) (A : Type) : Type := World E -> result A * World E.

Definition ret {E : Env} {A : Type} (a : A) : M E A := fun w => (Return a, w).

Definition raise {E : Env} {A : Type} (e : exn) : M E A := fun w => (Raise e, w).

Definition bind {E : Env} {A B : Type} (m : M E A) (k : A -> M E B) : M E B :=
  fun w => match m w with
           | (Return a, w') => k a w'
           | (Raise e, w') => (Raise e, w')
           end.

Notation "x <- m ;; k" := (bind m (fun x => k))
  (at level 100, m at next level, right associativity).
Notation "m ;; k" := (bind m (fun _ => k))
  (at level 100, right associativity).

Definition lift {E : Env} {A : Type} (r : result A) : M E A := fun w => (r, w).

Definition emit {E : Env} (e : Event) : M E unit :=
  fun w => (Return tt,
            mkWorld (heap w) (next_ref w) (relation_evaluator w) (phrase_evaluator w)
                    (logger w) (trace w ++ [e])).

(** [for x in l: body(x)]. *)
Fixpoint for_each {E : Env} {A : Type} (l : list A) (body : A -> M E unit) : M E unit :=
  match l with
  | [] => ret tt
  | x :: l' => body x ;; for_each l' body
  end.

(** [d[k]]. *)
Definition getitem {E : Env} {V : Type} (d : PyDict string V) (k : string) : M E V :=
  match dict_get d k with
  | Some v => ret v
  | None => raise (KeyError k)
  end.

(** ** The driver *)

Section driver.
Context {E : Env}.
Variable fs : FileSystem.

(** *** The process-wide logger ([bootstrap.lib.logger.Logger])

    The logger is a singleton: [Logger(dir_logs, name=...)] creates it
    once, loading the values logged under that directory and name by
    earlier runs, and returns the instance there is otherwise; [Logger()]
    returns it.  [log_value] appends to the list kept under the name.  The
    logger belongs to another library; its calls are recorded in the trace
    and taken to return, and of its state only the [values] table, which
    [main] reads back, is kept.  What it does on disk is read off its
    calls ([files_written]): the files it keeps for its directory and
    name ([logger_files]) are touched when it is created and when it is
    flushed. *)

Definition set_logger (v : LogValues) : M E unit :=
  fun w => (Return tt,
            mkWorld (heap w) (next_ref w) (relation_evaluator w) (phrase_evaluator w)
                    (Some v) (trace w)).

Definition get_logger : M E LogValues :=
  fun w => (Return (default [] (logger w)), w).

Definition Logger (dir_logs name : string) : M E unit :=
  emit (Logger_new dir_logs name) ;;
  fun w => match logger w with
           | Some _ => (Return tt, w)
           | None => set_logger (logger_reload E dir_logs name) w
           end.

Definition Logger_call (msg : string) : M E unit :=
  emit (Logger_message msg).

Definition log_value (name : string) (value : LVal) : M E unit :=
  emit (Logger_log_value name value) ;;
  values <- get_logger ;;
  set_logger (dict_set values name (default [] (dict_get values name) ++ [value])).

(** [Logger().values[name]]. *)
Definition Logger_values (name : string) : M E (list LVal) :=
  values <- get_logger ;;
  getitem values name.

Definition flush : M E unit := emit Logger_flush.

(** *** Files *)

(** [pd.read_csv(path)]. *)
Definition read_csv (path : string) : M E DataFrame :=
  emit (Read_csv path) ;;
  match fs path with
  | None => raise (FileNotFoundError path)
  | Some text =>
      match csv_parser E text with
      | None => raise (ParseError path)
      | Some df => ret df
      end
  end.

Definition _load_labelmap (labelmap_path : string) : M E (PyDict string Z) :=
  emit (Open labelmap_path "r") ;;
  match fs labelmap_path with
  | None => raise (FileNotFoundError labelmap_path)
  | Some label_map_string =>
      match text_format_Merge E label_map_string with
      | None => raise (ParseError labelmap_path)
      | Some label_map => ret (labelmap_dict_of label_map)
      end
  end.

(** *** Objects and evaluators *)

(** A new dictionary object: its reference is fresh. *)
Definition alloc (d : VRDDict E) : M E nat :=
  fun w => (Return (next_ref w),
            mkWorld (<[next_ref w := d]> (heap w)) (S (next_ref w))
                    (relation_evaluator w) (phrase_evaluator w) (logger w) (trace w)).

(** [vrd_evaluation.VRD...DetectionEvaluator()]. *)
Definition new_evaluator (who : Who) : M E unit :=
  emit (New_evaluator who) ;;
  fun w => (Return tt,
            match who with
            | Relation =>
                mkWorld (heap w) (next_ref w) (ev_new (VRDRelationDetectionEvaluator E))
                        (phrase_evaluator w) (logger w) (trace w)
            | Phrase =>
                mkWorld (heap w) (next_ref w) (relation_evaluator w)
                        (ev_new (VRDPhraseDetectionEvaluator E)) (logger w) (trace w)
            end).

(** A method call on the relation evaluator, its state and the store
    threaded through. *)
Definition call_relation {A : Type}
    (f : ev_state (VRDRelationDetectionEvaluator E) -> gmap nat (VRDDict E) ->
         result (ev_state (VRDRelationDetectionEvaluator E) * gmap nat (VRDDict E) * A))
    : M E A :=
  fun w => match f (relation_evaluator w) (heap w) with
           | Return (s, h, a) =>
               (Return a, mkWorld h (next_ref w) s (phrase_evaluator w) (logger w) (trace w))
           | Raise e => (Raise e, w)
           end.

Definition call_phrase {A : Type}
    (f : ev_state (VRDPhraseDetectionEvaluator E) -> gmap nat (VRDDict E) ->
         result (ev_state (VRDPhraseDetectionEvaluator E) * gmap nat (VRDDict E) * A))
    : M E A :=
  fun w => match f (phrase_evaluator w) (heap w) with
           | Return (s, h, a) =>
               (Return a, mkWorld h (next_ref w) (relation_evaluator w) s (logger w) (trace w))
           | Raise e => (Raise e, w)
           end.

Definition with_unit {S H : Type} (r : result (S * H)) : result (S * H * unit) :=
  match r with
  | Return (s, h) => Return (s, h, tt)
  | Raise e => Raise e
  end.

Definition add_single_ground_truth_image_info
    (who : Who) (image_id : string) (groundtruth_dict : nat) : M E unit :=
  emit (Add_single_ground_truth_image_info who image_id groundtruth_dict) ;;
  match who with
  | Relation =>
      call_relation (fun s h =>
        with_unit (ev_add_single_ground_truth_image_info
                     (VRDRelationDetectionEvaluator E) s h image_id groundtruth_dict))
  | Phrase =>
      call_phrase (fun s h =>
        with_unit (ev_add_single_ground_truth_image_info
                     (VRDPhraseDetectionEvaluator E) s h image_id groundtruth_dict))
  end.

Definition add_single_detected_image_info
    (who : Who) (image_id : string) (detections_dict : nat) : M E unit :=
  emit (Add_single_detected_image_info who image_id detections_dict) ;;
  match who with
  | Relation =>
      call_relation (fun s h =>
        with_unit (ev_add_single_detected_image_info
                     (VRDRelationDetectionEvaluator E) s h image_id detections_dict))
  | Phrase =>
      call_phrase (fun s h =>
        with_unit (ev_add_single_detected_image_info
                     (VRDPhraseDetectionEvaluator E) s h image_id detections_dict))
  end.

Definition evaluate (who : Who) (relationships : PyDict Z string) : M E Metrics :=
  emit (Evaluate who relationships) ;;
  metrics <- match who with
             | Relation =>
                 call_relation (fun s h =>
                   ev_evaluate (VRDRelationDetectionEvaluator E) s h relationships)
             | Phrase =>
                 call_phrase (fun s h =>
                   ev_evaluate (VRDPhraseDetectionEvaluator E) s h relationships)
             end ;;
  emit (Evaluate_returned who metrics) ;;
  ret metrics.

(** *** [main] *)

Definition main (parsed_args : Args) : M E unit :=
  let dir_exp := dirname (output_metrics parsed_args) in
  let name := split_head ".json" (basename (output_metrics parsed_args)) in
  Logger dir_exp name ;;
  Logger_call "Begin evaluation" ;;
  all_box_annotations <- read_csv (input_annotations_boxes parsed_args) ;;
  all_label_annotations <- read_csv (input_annotations_labels parsed_args) ;;
  let all_annotations := concat all_box_annotations all_label_annotations in
  class_label_map <- _load_labelmap (input_class_labelmap parsed_args) ;;
  relationship_label_map <- _load_labelmap (input_relationship_labelmap parsed_args) ;;
  new_evaluator Relation ;;
  new_evaluator Phrase ;;
  groups <- lift (groupby "ImageID" all_annotations) ;;
  for_each groups (fun groundtruth =>
    let '(image_id, image_groundtruth) := groundtruth in
    groundtruth_dictionary <-
      (d <- lift (build_groundtruth_vrd_dictionary E
                    image_groundtruth class_label_map relationship_label_map) ;;
       alloc d) ;;
    add_single_ground_truth_image_info Relation image_id groundtruth_dictionary ;;
    add_single_ground_truth_image_info Phrase image_id groundtruth_dictionary) ;;
  all_predictions <- read_csv (input_predictions parsed_args) ;;
  groups <- lift (groupby "ImageID" all_predictions) ;;
  for_each groups (fun prediction_data =>
    let '(image_id, image_predictions) := prediction_data in
    prediction_dictionary <-
      (d <- lift (build_predictions_vrd_dictionary E
                    image_predictions class_label_map relationship_label_map) ;;
       alloc d) ;;
    add_single_detected_image_info Relation image_id prediction_dictionary ;;
    add_single_detected_image_info Phrase image_id prediction_dictionary) ;;
  relation_metrics <- evaluate Relation (_swap_labelmap_dict relationship_label_map) ;;
  phrase_metrics <- evaluate Phrase (_swap_labelmap_dict relationship_label_map) ;;
  for_each relation_metrics (fun kv =>
    log_value ("eval_epoch." ++ fst kv)%string (VFloat (snd kv))) ;;
  for_each phrase_metrics (fun kv =>
    log_value ("eval_epoch." ++ fst kv)%string (VFloat (snd kv))) ;;
  relation_mAP <- getitem relation_metrics "VRDMetric_Relationships_mAP@0.5IOU" ;;
  let score := (relation_mAP * 0.4)%float in
  relation_recall <- getitem relation_metrics "VRDMetric_Relationships_Recall@50@0.5IOU" ;;
  let score := (score + relation_recall * 0.2)%float in
  phrase_mAP <- getitem phrase_metrics "VRDMetric_Phrases_mAP@0.5IOU" ;;
  let score := (score + phrase_mAP * 0.4)%float in
  log_value "eval_epoch.score" (VFloat score) ;;
  scores <- Logger_values "eval_epoch.score" ;;
  let epoch_id := (Z.of_nat (length scores) - 1)%Z in
  log_value "eval_epoch.epoch" (VInt epoch_id) ;;
  flush ;;
  Logger_call "End evaluation".

(** A run of [main] from the state it starts in. *)
Definition run_main (parsed_args : Args) (lg : option LogValues) : result unit * World E :=
  main parsed_args (init_world E lg).

(** The [__main__] block, run as a fresh process: the exit status.  A
    parser that leaves gives its own status; [main] returning ends the
    process with 0, an exception nothing catches with 1. *)
Definition script (argv : list string) : Z :=
  match parse_args argv with
  | Exit status => status
  | Namespace_of args =>
      match fst (run_main args None) with
      | Return _ => 0%Z
      | Raise _ => 1%Z
      end
  end.
End driver.

(** ** A concrete run

    The scenario of the specification: one image with one groundtruth
    relation (classes A and B, predicate P) and one prediction with the same
    boxes, scored 0.9.  The collaborators are small stand-ins with the
    interface of the real ones; the statements below are proved for every
    environment, and this one shows their hypotheses can be met. *)

Module Scenario.

(** A relationship: subject class, object class, predicate, boxes. *)
Definition Triple : Type := (Z * Z * Z * string)%type.

Definition triple_of (class_label_map relationship_label_map : PyDict string Z)
    (r : Row) : option (result Triple) :=
  match dict_get r "LabelName1", dict_get r "LabelName2", dict_get r "RelationshipLabel" with
  | Some l1, Some l2, Some rel =>
      Some match dict_get class_label_map l1, dict_get class_label_map l2,
                 dict_get relationship_label_map rel with
           | Some c1, Some c2, Some p => Return (c1, c2, p, default "" (dict_get r "Boxes"))
           | None, _, _ => Raise (KeyError l1)
           | _, None, _ => Raise (KeyError l2)
           | _, _, None => Raise (KeyError rel)
           end
  | _, _, _ => None
  end.

Fixpoint collect (rs : list (result Triple)) : result (list Triple) :=
  match rs with
  | [] => Return []
  | Raise e :: _ => Raise e
  | Return t :: rs' =>
      match collect rs' with
      | Return ts => Return (t :: ts)
      | Raise e => Raise e
      end
  end.

Definition build (df : DataFrame) (class_label_map relationship_label_map : PyDict string Z)
    : result (list Triple) :=
  collect (omap (triple_of class_label_map relationship_label_map) (df_rows df)).

(** The images an evaluator has seen, with the dictionaries it was given. *)
Record State := mkState { groundtruths : PyDict string nat; detections : PyDict string nat }.

Definition add_groundtruth (s : State) (h : gmap nat (list Triple))
    (image_id : string) (d : nat) : result (State * gmap nat (list Triple)) :=
  match dict_get (groundtruths s) image_id with
  | Some _ => Raise (Raised "Image already added.")
  | None => Return (mkState (dict_set (groundtruths s) image_id d) (detections s), h)
  end.

Definition add_detections (s : State) (h : gmap nat (list Triple))
    (image_id : string) (d : nat) : result (State * gmap nat (list Triple)) :=
  Return (mkState (groundtruths s) (dict_set (detections s) image_id d), h).

(** 1.0 when every image's detections are its groundtruth, 0.0 otherwise. *)
Definition exact (s : State) (h : gmap nat (list Triple)) : float :=
  if forallb (fun g : string * nat =>
                match dict_get (detections s) (fst g) with
                | Some d => bool_decide (h !! d = h !! snd g)
                | None => false
                end) (groundtruths s)
  then 1%float else 0%float.

Definition evaluate_as (prefix : string) (s : State) (h : gmap nat (list Triple))
    (relationships : PyDict Z string) : result (State * gmap nat (list Triple) * Metrics) :=
  Return (s, h, [((prefix ++ "mAP@0.5IOU")%string, exact s h);
                 ((prefix ++ "Recall@50@0.5IOU")%string, exact s h)]).

Definition evaluator (prefix : string) : Evaluator (list Triple) :=
  mkEvaluator (list Triple) State (mkState [] []) add_groundtruth add_detections
              (evaluate_as prefix).

Definition relation_row : Row :=
  [("ImageID", "img1"); ("LabelName1", "A"); ("LabelName2", "B");
   ("RelationshipLabel", "P"); ("Boxes", "0,0,10,10;0,0,10,10")].

Definition boxes : DataFrame :=
  mkDataFrame ["ImageID"; "LabelName1"; "LabelName2"; "RelationshipLabel"; "Boxes"]
              [relation_row].

Definition labels : DataFrame :=
  mkDataFrame ["ImageID"; "LabelName"; "Confidence"]
              [[("ImageID", "img1"); ("LabelName", "A"); ("Confidence", "1")]].

Definition predictions : DataFrame :=
  mkDataFrame ["ImageID"; "LabelName1"; "LabelName2"; "RelationshipLabel"; "Boxes"; "Score"]
              [relation_row ++ [("Score", "0.9")]].

Definition parse_csv (text : string) : option DataFrame :=
  if String.eqb text "boxes" then Some boxes
  else if String.eqb text "labels" then Some labels
  else if String.eqb text "predictions" then Some predictions
  else None.

Definition parse_labelmap (text : string) : option (list Item) :=
  if String.eqb text "classes" then Some [mkItem "A" 1; mkItem "B" 2]
  else if String.eqb text "relationships" then Some [mkItem "P" 1]
  else if String.eqb text "twice" then Some [mkItem "A" 1; mkItem "A" 2]
  else None.

(** The logger keeps its values in [<dir_logs>/<name>.json]. *)
Definition path_json (dir_logs name : string) : string :=
  (dir_logs ++ "/" ++ name ++ ".json")%string.

Definition env : Env :=
  mkEnv (list Triple) parse_csv parse_labelmap build build
        (evaluator "VRDMetric_Relationships_") (evaluator "VRDMetric_Phrases_")
        (fun _ _ => []) (fun dir_logs name => [path_json dir_logs name]).

Definition files : FileSystem := fun path =>
  if String.eqb path "gt/boxes.csv" then Some "boxes"
  else if String.eqb path "gt/labels.csv" then Some "labels"
  else if String.eqb path "pred.csv" then Some "predictions"
  else if String.eqb path "class.pbtxt" then Some "classes"
  else if String.eqb path "rel.pbtxt" then Some "relationships"
  else if String.eqb path "twice.pbtxt" then Some "twice"
  else None.

Definition args : Args :=
  mkArgs "gt/boxes.csv" "gt/labels.csv" "pred.csv" "class.pbtxt" "rel.pbtxt"
         "out/metrics.json".

Definition argv : list string :=
  ["--input_annotations_boxes=gt/boxes.csv"; "--input_annotations_labels"; "gt/labels.csv";
   "--input_predictions=pred.csv"; "--input_class_labelmap=class.pbtxt";
   "--input_relationship_labelmap=rel.pbtxt"; "--output_metrics"; "out/metrics.json"].

(** The run of the scenario in a fresh process. *)
Definition outcome : result unit * World env := run_main files args None.

(** A second run: another output path, a logger that holds a score
    already, and one more file on disk. *)
Definition args' : Args :=
  mkArgs "gt/boxes.csv" "gt/labels.csv" "pred.csv" "class.pbtxt" "rel.pbtxt"
         "elsewhere/second.json".

Definition files' : FileSystem := fun path =>
  if String.eqb path "notes.txt" then Some "unrelated" else files path.

Definition logger' : option LogValues := Some [("eval_epoch.score", [VFloat 0.5])].

End Scenario.

(** ** Vocabulary of the statements *)

(** Successive assignments [d[k] = v], in list order. *)
Definition assign_all {K V : Type} `{EqDecision K}
    (d : PyDict K V) (kvs : list (K * V)) : PyDict K V :=
  fold_left (fun d kv => dict_set d (fst kv) (snd kv)) kvs d.

(** The last element of a list that satisfies [P]. *)
Fixpoint find_last {A : Type} (P : A -> bool) (l : list A) : option A :=
  match l with
  | [] => None
  | x :: l' =>
      match find_last P l' with
      | Some y => Some y
      | None => if P x then Some x else None
      end
  end.

(** The composite score, as the specification words it: 0.4 times the
    relation mAP plus 0.2 times the relation Recall@50 plus 0.4 times the
    phrase mAP, in binary64 arithmetic, summed from left to right. *)
Definition composite_score (relation_mAP relation_recall phrase_mAP : float) : float :=
  (relation_mAP * 0.4 + relation_recall * 0.2 + phrase_mAP * 0.4)%float.

Definition relation_mAP_key : string := "VRDMetric_Relationships_mAP@0.5IOU".
Definition relation_recall_key : string := "VRDMetric_Relationships_Recall@50@0.5IOU".
Definition phrase_mAP_key : string := "VRDMetric_Phrases_mAP@0.5IOU".

(** The events of a run up to the construction of the evaluators. *)
Definition setup_events (a : Args) : list Event :=
  [ Logger_new (dirname (output_metrics a))
               (split_head ".json" (basename (output_metrics a)));
    Logger_message "Begin evaluation";
    Read_csv (input_annotations_boxes a);
    Read_csv (input_annotations_labels a);
    Open (input_class_labelmap a) "r";
    Open (input_relationship_labelmap a) "r";
    New_evaluator Relation;
    New_evaluator Phrase ].

(** The events of an ingestion loop that runs to its end: per image, the
    call on the relation evaluator and then the call on the phrase
    evaluator, with the image's dictionary, the [base]-th object onwards. *)
Fixpoint ingest_events (call : Who -> string -> nat -> Event) (base : nat)
    (image_ids : list string) : list Event :=
  match image_ids with
  | [] => []
  | image_id :: rest =>
      call Relation image_id base :: call Phrase image_id base
      :: ingest_events call (S base) rest
  end.

Definition evaluation_events (relationships : PyDict Z string)
    (relation_metrics phrase_metrics : Metrics) : list Event :=
  [ Evaluate Relation relationships; Evaluate_returned Relation relation_metrics;
    Evaluate Phrase relationships; Evaluate_returned Phrase phrase_metrics ].

Definition log_events (metrics : Metrics) : list Event :=
  map (fun kv => Logger_log_value ("eval_epoch." ++ fst kv)%string (VFloat (snd kv))) metrics.

Definition closing_events (score : float) (epoch_id : Z) : list Event :=
  [ Logger_log_value "eval_epoch.score" (VFloat score);
    Logger_log_value "eval_epoch.epoch" (VInt epoch_id);
    Logger_flush;
    Logger_message "End evaluation" ].

(** The events of a run from the first ingestion call onwards. *)
Definition work_events (a : Args) (gt_ids det_ids : list string)
    (relationships : PyDict Z string) (relation_metrics phrase_metrics : Metrics)
    (score : float) (epoch_id : Z) : list Event :=
  ingest_events Add_single_ground_truth_image_info 0 gt_ids
  ++ [Read_csv (input_predictions a)]
  ++ ingest_events Add_single_detected_image_info (length gt_ids) det_ids
  ++ evaluation_events relationships relation_metrics phrase_metrics
  ++ log_events relation_metrics ++ log_events phrase_metrics
  ++ closing_events score epoch_id.

(** The events of a run that reaches its end. *)
Definition full_trace (a : Args) (gt_ids det_ids : list string)
    (relationships : PyDict Z string) (relation_metrics phrase_metrics : Metrics)
    (score : float) (epoch_id : Z) : list Event :=
  setup_events a
  ++ work_events a gt_ids det_ids relationships relation_metrics phrase_metrics
                 score epoch_id.

Definition is_groundtruth_call (e : Event) : bool :=
  match e with Add_single_ground_truth_image_info _ _ _ => true | _ => false end.

Definition is_detection_call (e : Event) : bool :=
  match e with Add_single_detected_image_info _ _ _ => true | _ => false end.

Definition is_evaluate (e : Event) : bool :=
  match e with Evaluate _ _ => true | _ => false end.

Definition is_evaluate_of (who : Who) (e : Event) : bool :=
  match e with Evaluate who' _ => bool_decide (who' = who) | _ => false end.

(** Which ingestion method a call is of. *)
Inductive Ingestion : Type := Groundtruth | Detections.

(** An ingestion call on evaluator [who]: the method, the image id and the
    dictionary object passed. *)
Definition ingestion_of (who : Who) (e : Event) : option (Ingestion * string * nat) :=
  match e with
  | Add_single_ground_truth_image_info who' image_id d =>
      if decide (who' = who) then Some (Groundtruth, image_id, d) else None
  | Add_single_detected_image_info who' image_id d =>
      if decide (who' = who) then Some (Detections, image_id, d) else None
  | _ => None
  end.

(** The ingestion calls evaluator [who] receives, in order. *)
Definition ingestion_sequence (who : Who) (tr : list Event) : list (Ingestion * string * nat) :=
  omap (ingestion_of who) tr.

(** The image ids of the groundtruth ingestion calls on [who], in order. *)
Definition groundtruth_image_ids (who : Who) (tr : list Event) : list string :=
  omap (fun e => match e with
                 | Add_single_ground_truth_image_info who' image_id _ =>
                     if decide (who' = who) then Some image_id else None
                 | _ => None
                 end) tr.

(** Modelled from the spec: the duplicate check of groundtruth ingestion,
    which lives in the evaluator ([vrd_evaluation], not part of this file's
    source).  "Calling twice for the same image id is a caller error
    ([DuplicateImageError])": replaying the calls on evaluator [who] with the
    image ids it has [seen], the check fires at a groundtruth call whose id
    was seen.  Ids of detection calls count as seen too, which only makes
    the check fire more often. *)
Fixpoint raises_DuplicateImageError (who : Who) (seen : list string) (tr : list Event) : bool :=
  match tr with
  | [] => false
  | Add_single_ground_truth_image_info who' image_id _ :: tr' =>
      if decide (who' = who)
      then bool_decide (image_id ∈ seen) || raises_DuplicateImageError who (image_id :: seen) tr'
      else raises_DuplicateImageError who seen tr'
  | Add_single_detected_image_info who' image_id _ :: tr' =>
      if decide (who' = who)
      then raises_DuplicateImageError who (image_id :: seen) tr'
      else raises_DuplicateImageError who seen tr'
  | _ :: tr' => raises_DuplicateImageError who seen tr'
  end.

(** The values logged under [name], in order. *)
Definition logged (name : string) (tr : list Event) : list LVal :=
  omap (fun e => match e with
                 | Logger_log_value n v => if decide (n = name) then Some v else None
                 | _ => None
                 end) tr.

(** The metrics a run produces: what the evaluators return and what is
    logged, the epoch counter apart. *)
Definition metric_event (e : Event) : bool :=
  match e with
  | Evaluate_returned _ _ => true
  | Logger_log_value n _ => negb (String.eqb n "eval_epoch.epoch")
  | _ => false
  end.

Definition metrics_produced (tr : list Event) : list Event :=
  List.filter metric_event tr.

(** A file that is there and parses. *)
Definition reads_csv (E : Env) (fs : FileSystem) (path : string) (df : DataFrame) : Prop :=
  exists text, fs path = Some text /\ csv_parser E text = Some df.

Definition reads_labelmap (E : Env) (fs : FileSystem) (path : string) (items : list Item) : Prop :=
  exists text, fs path = Some text /\ text_format_Merge E text = Some items.

(** The logger's table once [main] has called [Logger(dir_exp, name)]. *)
Definition initial_values (E : Env) (a : Args) (lg : option LogValues) : LogValues :=
  match lg with
  | Some v => v
  | None => logger_reload E (dirname (output_metrics a))
                          (split_head ".json" (basename (output_metrics a)))
  end.

(** Two readings of "[s] stripped of [sep]": without the suffix [sep], and
    without any occurrence of [sep]. *)
Fixpoint remove_suffix (sep s : string) : string :=
  if String.eqb s sep then EmptyString
  else match s with
       | EmptyString => EmptyString
       | String c s' => String c (remove_suffix sep s')
       end.

Fixpoint drop_chars (n : nat) (s : string) : string :=
  match n, s with
  | S n', String _ s' => drop_chars n' s'
  | _, _ => s
  end.

Fixpoint remove_all_fuel (fuel : nat) (sep s : string) : string :=
  match fuel with
  | O => s
  | S fuel' =>
      if String.prefix sep s
      then remove_all_fuel fuel' sep (drop_chars (String.length sep) s)
      else match s with
           | EmptyString => EmptyString
           | String c s' => String c (remove_all_fuel fuel' sep s')
           end
  end.

(** [s.replace(sep, '')] for a non-empty [sep]. *)
Definition remove_all (sep s : string) : string :=
  remove_all_fuel (S (String.length s)) sep s.

Definition swap_pair {K V : Type} (kv : K * V) : V * K := (snd kv, fst kv).

Definition item_pair (item : Item) : string * Z := (item_name item, item_id item).

(** The logger's state after the calls of a trace, from the state [l]
    before them: the constructor creates the singleton when there is none,
    [log_value] appends to the list under its name. *)
Definition logger_step (E : Env) (l : option LogValues) (e : Event) : option LogValues :=
  match e with
  | Logger_new dir_logs name =>
      Some match l with Some v => v | None => logger_reload E dir_logs name end
  | Logger_log_value name value =>
      Some (dict_set (default [] l) name
                     (default [] (dict_get (default [] l) name) ++ [value]))
  | _ => l
  end.

Definition logger_after (E : Env) (l : option LogValues) (tr : list Event) : option LogValues :=
  fold_left (logger_step E) tr l.

(** What a step of a run does to the trace and to the logger. *)
Definition run_facts {E : Env} (w w' : World E) (t : list Event) : Prop :=
  trace w' = trace w ++ t /\ logger w' = logger_after E (logger w) t.

(** The body of an ingestion loop of [main]: build the image's dictionary,
    hand it to the relation evaluator, then to the phrase evaluator. *)
Definition ingest_body {E : Env} (build : DataFrame -> result (VRDDict E))
    (add : Who -> string -> nat -> M E unit) (group : string * DataFrame) : M E unit :=
  let '(image_id, image_rows) := group in
  dictionary <- (d <- lift (build image_rows) ;; alloc d) ;;
  add Relation image_id dictionary ;;
  add Phrase image_id dictionary.

(** What a run that reaches its end has done: the predictions were read,
    the trace is the full one, the three metrics were there, and the score
    is the composite of them. *)
Definition completed (E : Env) (fs : FileSystem) (a : Args) (tr : list Event)
    (gt_ids det_ids : list string) (relationships : PyDict Z string)
    (relation_metrics phrase_metrics : Metrics) (score : float) (epoch_id : Z) : Prop :=
  exists predictions relation_mAP relation_recall phrase_mAP,
    reads_csv E fs (input_predictions a) predictions
    /\ det_ids = group_keys "ImageID" predictions
    /\ tr = full_trace a gt_ids det_ids relationships relation_metrics phrase_metrics
                       score epoch_id
    /\ dict_get relation_metrics relation_mAP_key = Some relation_mAP
    /\ dict_get relation_metrics relation_recall_key = Some relation_recall
    /\ dict_get phrase_metrics phrase_mAP_key = Some phrase_mAP
    /\ score = composite_score relation_mAP relation_recall phrase_mAP.

(** What a run that got past the loading of the label maps has done. *)
Definition working (E : Env) (fs : FileSystem) (a : Args) (r : result unit)
    (tr : list Event) : Prop :=
  exists boxes labels class_items relationship_items det_ids
         relation_metrics phrase_metrics score epoch_id,
    reads_csv E fs (input_annotations_boxes a) boxes
    /\ reads_csv E fs (input_annotations_labels a) labels
    /\ reads_labelmap E fs (input_class_labelmap a) class_items
    /\ reads_labelmap E fs (input_relationship_labelmap a) relationship_items
    /\ NoDup det_ids
    /\ tr `prefix_of`
         full_trace a (group_keys "ImageID" (concat boxes labels)) det_ids
                    (_swap_labelmap_dict (labelmap_dict_of relationship_items))
                    relation_metrics phrase_metrics score epoch_id
    /\ (r = Return tt ->
        completed E fs a tr (group_keys "ImageID" (concat boxes labels)) det_ids
                  (_swap_labelmap_dict (labelmap_dict_of relationship_items))
                  relation_metrics phrase_metrics score epoch_id).

(** How many events of a trace satisfy [p]. *)
Fixpoint count_events (p : Event -> bool) (tr : list Event) : nat :=
  match tr with
  | [] => 0
  | e :: tr' => (if p e then 1 else 0) + count_events p tr'
  end.

(** The ingestion calls of a loop that runs to its end, as one evaluator
    receives them. *)
Fixpoint ingest_calls (method : Ingestion) (base : nat) (image_ids : list string)
    : list (Ingestion * string * nat) :=
  match image_ids with
  | [] => []
  | image_id :: rest => (method, image_id, base) :: ingest_calls method (S base) rest
  end.

(** The metric mapping of a run, as the specification describes the
    output: the union of what the two evaluators return, and the composite
    under [score]. *)
Definition metric_mapping (relation_metrics phrase_metrics : Metrics) (score : float)
    : Metrics :=
  dict_set (assign_all relation_metrics phrase_metrics) "score" score.

(** The calls of a trace are balanced when the phrase evaluator has received
    what the relation evaluator has, or all of it but a last call, on the
    relation evaluator, with which the trace ends. *)
Definition balanced (t : list Event) : Prop :=
  ingestion_sequence Relation t = ingestion_sequence Phrase t
  \/ exists e c,
       last t = Some e /\ ingestion_of Relation e = Some c
       /\ ingestion_sequence Relation t = ingestion_sequence Phrase t ++ [c].

(** What [main] may do with the outside world: read the three CSV inputs,
    open the two label maps for reading, hand the output path's directory
    and stem to the logger's constructor, and call the evaluators and the
    logger. *)
Definition allowed_event (a : Args) (e : Event) : Prop :=
  match e with
  | Open path mode =>
      mode = "r" /\ (path = input_class_labelmap a \/ path = input_relationship_labelmap a)
  | Read_csv path =>
      path = input_annotations_boxes a \/ path = input_annotations_labels a
      \/ path = input_predictions a
  | Logger_new dir_logs name =>
      dir_logs = dirname (output_metrics a)
      /\ name = split_head ".json" (basename (output_metrics a))
  | _ => True
  end.

(** The arguments [main] reads but for the output path. *)
Definition inputs_of (a : Args) : list string :=
  [ input_annotations_boxes a; input_annotations_labels a; input_predictions a;
    input_class_labelmap a; input_relationship_labelmap a ].

(** An argument string of [argv] names the option of [d]. *)
Definition supplied (d : Dest) (argv : list string) : Prop :=
  exists arg_string e, arg_string ∈ argv /\ parse_optional arg_string = Known (StoreAction d) e.

(** An argument string of [argv] names the help option. *)
Definition help_requested (argv : list string) : Prop :=
  exists arg_string e, arg_string ∈ argv /\ parse_optional arg_string = Known HelpAction e.

(** Every input file is there and parses. *)
Definition inputs_load (E : Env) (fs : FileSystem) (a : Args) : Prop :=
  (exists df, reads_csv E fs (input_annotations_boxes a) df)
  /\ (exists df, reads_csv E fs (input_annotations_labels a) df)
  /\ (exists df, reads_csv E fs (input_predictions a) df)
  /\ (exists items, reads_labelmap E fs (input_class_labelmap a) items)
  /\ (exists items, reads_labelmap E fs (input_relationship_labelmap a) items).

(** The log calls under [name]. *)
Definition logs_under (name : string) (e : Event) : bool :=
  match e with
  | Logger_log_value n _ => bool_decide (n = name)
  | _ => false
  end.

(** Two states of a run agree but for the logger: the same objects, the
    same evaluator states, and the same events among those [view] selects. *)
Definition agree {E : Env} (view : Event -> bool) (w1 w2 : World E) : Prop :=
  heap w1 = heap w2 /\ next_ref w1 = next_ref w2
  /\ relation_evaluator w1 = relation_evaluator w2
  /\ phrase_evaluator w1 = phrase_evaluator w2
  /\ List.filter view (trace w1) = List.filter view (trace w2).

(** Two computations do the same from states that agree: the same result,
    and states that agree again. *)
Definition sim {E : Env} {A : Type} (view : Event -> bool) (m1 m2 : M E A) : Prop :=
  forall w1 w2, agree view w1 w2 ->
                fst (m1 w1) = fst (m2 w2) /\ agree view (snd (m1 w1)) (snd (m2 w2)).

(** The files a run creates or writes, read off its calls: a file opened in
    another mode than ['r'], and the files of the logger singleton, which it
    touches when it is created and writes when it is flushed.  [files] are
    the files of the singleton there is before the calls, [None] when there
    is none yet. *)
Fixpoint files_written (E : Env) (files : option (list string)) (tr : list Event)
    : list string :=
  match tr with
  | [] => []
  | Logger_new dir_logs name :: tr' =>
      match files with
      | Some _ => files_written E files tr'
      | None =>
          logger_files E dir_logs name
          ++ files_written E (Some (logger_files E dir_logs name)) tr'
      end
  | Logger_flush :: tr' => default [] files ++ files_written E files tr'
  | Open path mode :: tr' =>
      (if String.eqb mode "r" then [] else [path]) ++ files_written E files tr'
  | _ :: tr' => files_written E files tr'
  end.

(** An evaluator that leaves the store as it is: it may keep and read the
    dictionaries it is handed, and writes to none. *)
Definition keeps_store {D : Type} (ev : Evaluator D) : Prop :=
  (forall s h image_id d s' h',
      ev_add_single_ground_truth_image_info ev s h image_id d = Return (s', h') -> h' = h)
  /\ (forall s h image_id d s' h',
         ev_add_single_detected_image_info ev s h image_id d = Return (s', h') -> h' = h)
  /\ (forall s h relationships s' h' metrics,
         ev_evaluate ev s h relationships = Return (s', h', metrics) -> h' = h).

(** The store once the objects [ds] are allocated in it, from the
    reference [base] on. *)
Fixpoint store_all {D : Type} (base : nat) (ds : list D) (h : gmap nat D) : gmap nat D :=
  match ds with
  | [] => h
  | d :: ds' => store_all (S base) ds' (<[base := d]> h)
  end.

(** A step that leaves the store and the next reference as they are. *)
Definition frame (E : Env) {A : Type} (m : M E A) : Prop :=
  forall (w : World E) r w', m w = (r, w') -> heap w' = heap w /\ next_ref w' = next_ref w.

(** ** Vocabulary of the further statements *)

(** How [pd.read_csv(path)] fails: the file is not there, or it does not
    parse. *)
Definition csv_error (E : Env) (fs : FileSystem) (path : string) (e : exn) : Prop :=
  (fs path = None /\ e = FileNotFoundError path)
  \/ (exists text, fs path = Some text /\ csv_parser E text = None /\ e = ParseError path).

(** How [_load_labelmap(path)] fails. *)
Definition labelmap_error (E : Env) (fs : FileSystem) (path : string) (e : exn) : Prop :=
  (fs path = None /\ e = FileNotFoundError path)
  \/ (exists text,
         fs path = Some text /\ text_format_Merge E text = None /\ e = ParseError path).

(** The four inputs [main] loads before it constructs the evaluators. *)
Definition groundtruth_inputs (E : Env) (fs : FileSystem) (a : Args)
    (boxes labels : DataFrame) (class_items relationship_items : list Item) : Prop :=
  reads_csv E fs (input_annotations_boxes a) boxes
  /\ reads_csv E fs (input_annotations_labels a) labels
  /\ reads_labelmap E fs (input_class_labelmap a) class_items
  /\ reads_labelmap E fs (input_relationship_labelmap a) relationship_items.

(** The first of the three metrics of the score, in the order [main] reads
    them, that the evaluators' results do not hold. *)
Definition missing_key (relation_metrics phrase_metrics : Metrics) : option string :=
  match dict_get relation_metrics relation_mAP_key with
  | None => Some relation_mAP_key
  | Some _ =>
      match dict_get relation_metrics relation_recall_key with
      | None => Some relation_recall_key
      | Some _ =>
          match dict_get phrase_metrics phrase_mAP_key with
          | None => Some phrase_mAP_key
          | Some _ => None
          end
      end
  end.

(** The values the logger holds under [eval_epoch.score] when [main] logs
    the composite: those it held when it was created, and those the two
    metric loops added under that name. *)
Definition earlier_scores (E : Env) (a : Args) (lg : option LogValues)
    (relation_metrics phrase_metrics : Metrics) : list LVal :=
  default [] (dict_get (initial_values E a lg) "eval_epoch.score")
  ++ logged "eval_epoch.score" (log_events relation_metrics ++ log_events phrase_metrics).

(** The events from the first groundtruth call to the reading of the
    predictions, and from there to the last detection call. *)
Definition groundtruth_events (a : Args) (gt_ids : list string) : list Event :=
  ingest_events Add_single_ground_truth_image_info 0 gt_ids
  ++ [Read_csv (input_predictions a)].

Definition ingestion_events (a : Args) (gt_ids det_ids : list string) : list Event :=
  groundtruth_events a gt_ids
  ++ ingest_events Add_single_detected_image_info (length gt_ids) det_ids.

(** The ways a run of [main] ends once the evaluators are constructed, with
    the events from there on: at the group-by of the annotations, in the
    groundtruth loop, at the predictions, in the detection loop, in one of
    the two evaluations, at a metric the score needs, or at the end of
    [main]. *)
Inductive work_ends (E : Env) (fs : FileSystem) (a : Args) (lg : option LogValues)
    (annotations : DataFrame) (relationships : PyDict Z string)
    : result unit -> list Event -> Prop :=
| ends_at_groupby :
    "ImageID" ∉ df_columns annotations ->
    work_ends E fs a lg annotations relationships (Raise (KeyError "ImageID")) []
| ends_in_groundtruth_loop e t :
    "ImageID" ∈ df_columns annotations ->
    t `prefix_of` ingest_events Add_single_ground_truth_image_info 0
                    (group_keys "ImageID" annotations) ->
    work_ends E fs a lg annotations relationships (Raise e) t
| ends_at_predictions e :
    "ImageID" ∈ df_columns annotations ->
    csv_error E fs (input_predictions a) e ->
    work_ends E fs a lg annotations relationships (Raise e)
      (groundtruth_events a (group_keys "ImageID" annotations))
| ends_at_predictions_groupby predictions :
    "ImageID" ∈ df_columns annotations ->
    reads_csv E fs (input_predictions a) predictions ->
    "ImageID" ∉ df_columns predictions ->
    work_ends E fs a lg annotations relationships (Raise (KeyError "ImageID"))
      (groundtruth_events a (group_keys "ImageID" annotations))
| ends_in_detection_loop predictions e t :
    "ImageID" ∈ df_columns annotations ->
    reads_csv E fs (input_predictions a) predictions ->
    "ImageID" ∈ df_columns predictions ->
    t `prefix_of` ingest_events Add_single_detected_image_info
                    (length (group_keys "ImageID" annotations))
                    (group_keys "ImageID" predictions) ->
    work_ends E fs a lg annotations relationships (Raise e)
      (groundtruth_events a (group_keys "ImageID" annotations) ++ t)
| ends_in_relation_evaluate predictions e :
    "ImageID" ∈ df_columns annotations ->
    reads_csv E fs (input_predictions a) predictions ->
    "ImageID" ∈ df_columns predictions ->
    work_ends E fs a lg annotations relationships (Raise e)
      (ingestion_events a (group_keys "ImageID" annotations)
                        (group_keys "ImageID" predictions)
       ++ [Evaluate Relation relationships])
| ends_in_phrase_evaluate predictions relation_metrics e :
    "ImageID" ∈ df_columns annotations ->
    reads_csv E fs (input_predictions a) predictions ->
    "ImageID" ∈ df_columns predictions ->
    work_ends E fs a lg annotations relationships (Raise e)
      (ingestion_events a (group_keys "ImageID" annotations)
                        (group_keys "ImageID" predictions)
       ++ [Evaluate Relation relationships; Evaluate_returned Relation relation_metrics;
           Evaluate Phrase relationships])
| ends_at_missing_key predictions relation_metrics phrase_metrics k :
    "ImageID" ∈ df_columns annotations ->
    reads_csv E fs (input_predictions a) predictions ->
    "ImageID" ∈ df_columns predictions ->
    missing_key relation_metrics phrase_metrics = Some k ->
    work_ends E fs a lg annotations relationships (Raise (KeyError k))
      (ingestion_events a (group_keys "ImageID" annotations)
                        (group_keys "ImageID" predictions)
       ++ evaluation_events relationships relation_metrics phrase_metrics
       ++ log_events relation_metrics ++ log_events phrase_metrics)
| ends_at_the_end predictions relation_metrics phrase_metrics
                  relation_mAP relation_recall phrase_mAP :
    "ImageID" ∈ df_columns annotations ->
    reads_csv E fs (input_predictions a) predictions ->
    "ImageID" ∈ df_columns predictions ->
    dict_get relation_metrics relation_mAP_key = Some relation_mAP ->
    dict_get relation_metrics relation_recall_key = Some relation_recall ->
    dict_get phrase_metrics phrase_mAP_key = Some phrase_mAP ->
    work_ends E fs a lg annotations relationships (Return tt)
      (work_events a (group_keys "ImageID" annotations) (group_keys "ImageID" predictions)
         relationships relation_metrics phrase_metrics
         (composite_score relation_mAP relation_recall phrase_mAP)
         (Z.of_nat (length (earlier_scores E a lg relation_metrics phrase_metrics)))).

(** The ways a run of [main] ends, with its events: at one of the four
    inputs it loads first, or later. *)
Inductive ends (E : Env) (fs : FileSystem) (a : Args) (lg : option LogValues)
    : result unit -> list Event -> Prop :=
| ends_at_boxes e :
    csv_error E fs (input_annotations_boxes a) e ->
    ends E fs a lg (Raise e) (take 3 (setup_events a))
| ends_at_labels boxes e :
    reads_csv E fs (input_annotations_boxes a) boxes ->
    csv_error E fs (input_annotations_labels a) e ->
    ends E fs a lg (Raise e) (take 4 (setup_events a))
| ends_at_class_labelmap boxes labels e :
    reads_csv E fs (input_annotations_boxes a) boxes ->
    reads_csv E fs (input_annotations_labels a) labels ->
    labelmap_error E fs (input_class_labelmap a) e ->
    ends E fs a lg (Raise e) (take 5 (setup_events a))
| ends_at_relationship_labelmap boxes labels class_items e :
    reads_csv E fs (input_annotations_boxes a) boxes ->
    reads_csv E fs (input_annotations_labels a) labels ->
    reads_labelmap E fs (input_class_labelmap a) class_items ->
    labelmap_error E fs (input_relationship_labelmap a) e ->
    ends E fs a lg (Raise e) (take 6 (setup_events a))
| ends_at_work boxes labels class_items relationship_items r t :
    groundtruth_inputs E fs a boxes labels class_items relationship_items ->
    work_ends E fs a lg (concat boxes labels)
              (_swap_labelmap_dict (labelmap_dict_of relationship_items)) r t ->
    ends E fs a lg r (setup_events a ++ t).

Definition is_flush (e : Event) : bool :=
  match e with Logger_flush => true | _ => false end.

Definition is_log_value (e : Event) : bool :=
  match e with Logger_log_value _ _ => true | _ => false end.

(** The events [main] may produce before it logs the composite score. *)
Definition before_the_score (e : Event) : Prop :=
  match e with
  | Logger_flush => False
  | Logger_message msg => msg = "Begin evaluation"
  | Logger_log_value name value =>
      exists k x, name = ("eval_epoch." ++ k)%string /\ value = VFloat x
  | _ => True
  end.

(** ['/' in s]. *)
Fixpoint has_slash (s : string) : bool :=
  match s with
  | EmptyString => false
  | String c s' => Ascii.eqb c slash || has_slash s'
  end.

(** The option string [add_argument] registers for a destination. *)
Definition option_of (d : Dest) : string :=
  from_option option_string ""
    (List.find (fun a => bool_decide (dest a = d)) add_argument_calls).

(** How an option is written on the command line: [--option=value] in one
    argument string, or [--option value] in two. *)
Inductive Form : Type := Joined | Separate.

Definition spell (g : Dest * string * Form) : list string :=
  match g with
  | (d, v, Joined) => [(option_of d ++ "=" ++ v)%string]
  | (d, v, Separate) => [option_of d; v]
  end.

(** The values this file's model of argparse treats as argparse does: any
    value but [--] after the ['='], and a value that does not begin with a
    dash as an argument string of its own. *)
Definition spelt (g : Dest * string * Form) : Prop :=
  match g with
  | (_, v, Joined) => v <> "--"
  | (_, v, Separate) => String.prefix "-" v = false
  end.

(** The value given last for a destination. *)
Definition last_value (l : list (Dest * string * Form)) (d : Dest) : option string :=
  (fun g => snd (fst g)) <$> find_last (fun g => bool_decide (fst (fst g) = d)) l.

(** The option strings of the parser that begin with [p]. *)
Definition completions (p : string) : list string :=
  List.filter (String.prefix p) (map fst option_string_actions).

(** [p] abbreviates the option of [d]: it begins with two dashes and the
    option string of [d] is the one option string that begins with it. *)
Definition abbreviates (p : string) (d : Dest) : bool :=
  String.prefix "--" p && bool_decide (completions p = [option_of d]).

(** [p] fits more than one option string. *)
Definition ambiguous (p : string) : bool :=
  String.prefix "--" p && negb (String.eqb p "--") && (1 <? length (completions p))%nat.

(** ** Runs that end early

    Stand-ins for the runs the further statements are about: an annotation
    file without the [ImageID] column, an input that is not there, and
    evaluators that return the metrics they are made with. *)

Module Edge.

Definition headless : DataFrame :=
mkDataFrame ["LabelName"; "Confidence"] [[("LabelName", "A"); ("Confidence", "1")]].

Definition parse_csv (text : string) : option DataFrame :=
if String.eqb text "headless" then Some headless else Scenario.parse_csv text.

Definition evaluate_to (metrics : Metrics) (s : Scenario.State)
  (h : gmap nat (list Scenario.Triple)) (relationships : PyDict Z string)
  : result (Scenario.State * gmap nat (list Scenario.Triple) * Metrics) :=
Return (s, h, metrics).

Definition evaluator (metrics : Metrics) : Evaluator (list Scenario.Triple) :=
mkEvaluator (list Scenario.Triple) Scenario.State (Scenario.mkState [] [])
            Scenario.add_groundtruth Scenario.add_detections (evaluate_to metrics).

Definition env (relation_metrics phrase_metrics : Metrics) : Env :=
mkEnv (list Scenario.Triple) parse_csv Scenario.parse_labelmap
      Scenario.build Scenario.build
      (evaluator relation_metrics) (evaluator phrase_metrics) (fun _ _ => [])
      (fun dir_logs name => [Scenario.path_json dir_logs name]).

Definition files : FileSystem := fun path =>
if String.eqb path "gt/headless.csv" then Some "headless" else Scenario.files path.

(** Both annotation files lack the [ImageID] column. *)
Definition headless_args : Args :=
mkArgs "gt/headless.csv" "gt/headless.csv" "pred.csv" "class.pbtxt" "rel.pbtxt"
       "out/metrics.json".

(** The boxes file is not there. *)
Definition absent_args : Args :=
mkArgs "gt/absent.csv" "gt/labels.csv" "pred.csv" "class.pbtxt" "rel.pbtxt"
       "metrics.json".

(** The relation evaluator returns no Recall@50. *)
Definition without_recall : Metrics := [("VRDMetric_Relationships_mAP@0.5IOU", 0.5%float)].

Definition phrases : Metrics := [("VRDMetric_Phrases_mAP@0.5IOU", 0.5%float)].

(** The relation mAP is not a number. *)
Definition with_nan : Metrics :=
[("VRDMetric_Relationships_mAP@0.5IOU", nan);
 ("VRDMetric_Relationships_Recall@50@0.5IOU", 1%float)].

End Edge.


(** * Properties *)

(** ** Dictionaries *)

Section dict_facts.
Context {K V : Type} `{EqDecision K}.
Implicit Types (d : PyDict K V) (k : K) (v : V).

Lemma dict_get_set d k v k' :
  dict_get (dict_set d k v) k' = if decide (k = k') then Some v else dict_get d k'.
Proof.
  induction d as [|[k0 v0] d IH]; simpl.
  - destruct (decide (k = k')); reflexivity.
  - destruct (decide (k0 = k)) as [->|Hne]; simpl.
    + destruct (decide (k = k')); reflexivity.
    + rewrite IH. destruct (decide (k0 = k')) as [->|]; [|reflexivity].
      destruct (decide (k = k')); congruence.
Qed.

Lemma dict_get_None d k : dict_get d k = None <-> k ∉ dict_keys d.
Proof.
  induction d as [|[k0 v0] d IH]; simpl.
  - split; [intros _; apply not_elem_of_nil | reflexivity].
  - rewrite not_elem_of_cons. destruct (decide (k0 = k)) as [->|Hne].
    + split; [discriminate | intros [[] _]; reflexivity].
    + rewrite IH. split; [intros; split; congruence | intros [_ ?]; assumption].
Qed.

Lemma dict_get_Some_elem d k v : dict_get d k = Some v -> (k, v) ∈ d.
Proof.
  induction d as [|[k0 v0] d IH]; simpl; [discriminate|].
  destruct (decide (k0 = k)) as [->|Hne].
  - intros [= ->]. apply list_elem_of_here.
  - intros Hg. apply list_elem_of_further, IH, Hg.
Qed.

Lemma dict_elem_get d k v : dict_wf d -> (k, v) ∈ d -> dict_get d k = Some v.
Proof.
  unfold dict_wf, dict_keys.
  induction d as [|[k0 v0] d IH]; simpl; intros Hwf Hin.
  - apply elem_of_nil in Hin as [].
  - apply NoDup_cons in Hwf as [Hk0 Hwf].
    apply elem_of_cons in Hin as [[= -> ->]|Hin].
    + rewrite decide_True; reflexivity.
    + rewrite decide_False; [apply IH; assumption|].
      intros ->. apply Hk0. apply (list_elem_of_fmap_2 fst) in Hin. exact Hin.
Qed.

Lemma dict_set_fresh d k v : k ∉ dict_keys d -> dict_set d k v = d ++ [(k, v)].
Proof.
  induction d as [|[k0 v0] d IH]; simpl; [reflexivity|].
  rewrite not_elem_of_cons. intros [Hne Hk].
  rewrite decide_False by congruence. rewrite IH by assumption. reflexivity.
Qed.

Lemma dict_keys_set_in d k v : k ∈ dict_keys d -> dict_keys (dict_set d k v) = dict_keys d.
Proof.
  induction d as [|[k0 v0] d IH]; simpl.
  - intros Hin. apply elem_of_nil in Hin as [].
  - intros Hin. destruct (decide (k0 = k)) as [->|Hne]; simpl; [reflexivity|].
    rewrite IH; [reflexivity|]. apply elem_of_cons in Hin as [->|Hin]; congruence.
Qed.

Lemma dict_set_wf d k v : dict_wf d -> dict_wf (dict_set d k v).
Proof.
  unfold dict_wf. intros Hwf. destruct (decide (k ∈ dict_keys d)) as [Hin|Hout].
  - rewrite dict_keys_set_in by assumption. assumption.
  - rewrite dict_set_fresh by assumption. unfold dict_keys. rewrite map_app. simpl.
    apply NoDup_app. split; [assumption|]. split.
    + intros x Hx Hx'. apply list_elem_of_singleton in Hx' as ->. contradiction.
    + apply NoDup_singleton.
Qed.

Lemma assign_all_wf d (kvs : list (K * V)) : dict_wf d -> dict_wf (assign_all d kvs).
Proof.
  unfold assign_all. revert d.
  induction kvs as [|[k v] kvs IH]; simpl; intros d Hwf; [assumption|].
  apply IH, dict_set_wf, Hwf.
Qed.

(** The last assignment to a key wins. *)
Lemma assign_all_get d (kvs : list (K * V)) k :
  dict_get (assign_all d kvs) k =
  match find_last (fun kv => bool_decide (fst kv = k)) kvs with
  | Some kv => Some (snd kv)
  | None => dict_get d k
  end.
Proof.
  unfold assign_all. revert d.
  induction kvs as [|[k0 v0] kvs IH]; simpl; intros d; [reflexivity|].
  rewrite IH. destruct (find_last _ kvs); [reflexivity|].
  rewrite dict_get_set. simpl.
  destruct (decide (k0 = k)) as [->|Hne].
  - rewrite bool_decide_eq_true_2 by reflexivity. reflexivity.
  - rewrite bool_decide_eq_false_2 by assumption. reflexivity.
Qed.

(** Assignments to pairwise distinct new keys append, in order. *)
Lemma assign_all_fresh d (kvs : list (K * V)) :
  NoDup (map fst kvs) -> (forall k, k ∈ map fst kvs -> k ∉ dict_keys d) ->
  assign_all d kvs = d ++ kvs.
Proof.
  unfold assign_all. revert d.
  induction kvs as [|[k v] kvs IH]; simpl; intros d Hnd Hfresh.
  - rewrite app_nil_r. reflexivity.
  - apply NoDup_cons in Hnd as [Hk Hnd].
    rewrite dict_set_fresh by (apply Hfresh, list_elem_of_here).
    rewrite IH; [rewrite <- app_assoc; reflexivity | assumption |].
    intros k' Hk'. unfold dict_keys. rewrite map_app. simpl.
    rewrite elem_of_app. intros [Hin|Hin].
    + apply (Hfresh k'); [apply list_elem_of_further, Hk' | exact Hin].
    + apply list_elem_of_singleton in Hin as ->. contradiction.
Qed.
End dict_facts.

(** ** Label maps *)

Lemma find_last_map {A B : Type} (f : A -> B) (P : B -> bool) (l : list A) :
  find_last P (map f l) = f <$> find_last (fun x => P (f x)) l.
Proof.
  induction l as [|x l IH]; simpl; [reflexivity|].
  rewrite IH. destruct (find_last _ l); simpl; [reflexivity|].
  destruct (P (f x)); reflexivity.
Qed.

Lemma find_last_Some {A : Type} (P : A -> bool) (l : list A) (x : A) :
  find_last P l = Some x -> x ∈ l /\ P x = true.
Proof.
  induction l as [|y l IH]; simpl; [discriminate|].
  destruct (find_last P l) as [z|].
  - intros [= ->]. destruct IH as [Hin HP]; [reflexivity|].
    split; [apply list_elem_of_further, Hin | exact HP].
  - destruct (P y) eqn:HP; [|discriminate].
    intros [= ->]. split; [apply list_elem_of_here | exact HP].
Qed.

Lemma swap_labelmap_dict_assign {K V : Type} `{EqDecision V} (d : PyDict K V) :
  _swap_labelmap_dict d = assign_all [] (map swap_pair d).
Proof.
  unfold _swap_labelmap_dict, assign_all. generalize (@nil (V * K)).
  induction d as [|kv d IH]; simpl; intros acc; [reflexivity|]. apply IH.
Qed.

Lemma labelmap_dict_of_assign (items : list Item) :
  labelmap_dict_of items = assign_all [] (map item_pair items).
Proof.
  unfold labelmap_dict_of, assign_all. generalize (@nil (string * Z)).
  induction items as [|item items IH]; simpl; intros acc; [reflexivity|]. apply IH.
Qed.

Lemma labelmap_dict_of_wf (items : list Item) : dict_wf (labelmap_dict_of items).
Proof.
  rewrite labelmap_dict_of_assign. apply assign_all_wf. apply NoDup_nil_2.
Qed.

(** The entry of a name holds the id of the last item with that name. *)
Lemma labelmap_dict_of_get (items : list Item) (n : string) :
  dict_get (labelmap_dict_of items) n =
  item_id <$> find_last (fun item => bool_decide (item_name item = n)) items.
Proof.
  rewrite labelmap_dict_of_assign, assign_all_get, find_last_map.
  destruct (find_last _ items); reflexivity.
Qed.

Lemma labelmap_dict_of_distinct (items : list Item) :
  NoDup (map item_name items) -> labelmap_dict_of items = map item_pair items.
Proof.
  intros Hnd. rewrite labelmap_dict_of_assign.
  rewrite assign_all_fresh; [reflexivity | |].
  - rewrite map_map. exact Hnd.
  - intros k _. apply not_elem_of_nil.
Qed.

Lemma swap_labelmap_dict_wf {K V : Type} `{EqDecision V} (d : PyDict K V) :
  dict_wf (_swap_labelmap_dict d).
Proof.
  rewrite swap_labelmap_dict_assign. apply assign_all_wf. apply NoDup_nil_2.
Qed.

(** The later-enumerated key of a value wins. *)
Lemma swap_labelmap_dict_get {K V : Type} `{EqDecision V} (d : PyDict K V) (v : V) :
  dict_get (_swap_labelmap_dict d) v =
  fst <$> find_last (fun kv => bool_decide (snd kv = v)) d.
Proof.
  rewrite swap_labelmap_dict_assign, assign_all_get, find_last_map.
  destruct (find_last _ d); reflexivity.
Qed.

Lemma swap_labelmap_dict_distinct {K V : Type} `{EqDecision V} (d : PyDict K V) :
  NoDup (dict_values d) -> _swap_labelmap_dict d = map swap_pair d.
Proof.
  intros Hnd. rewrite swap_labelmap_dict_assign.
  rewrite assign_all_fresh; [reflexivity | |].
  - rewrite map_map. exact Hnd.
  - intros k _. apply not_elem_of_nil.
Qed.

(** What the swapped map holds, the original map holds the other way
    round. *)
Lemma swap_labelmap_dict_sound {K V : Type} `{EqDecision K} `{EqDecision V}
    (d : PyDict K V) (k : K) (v : V) :
  dict_wf d -> dict_get (_swap_labelmap_dict d) v = Some k -> dict_get d k = Some v.
Proof.
  intros Hwf. rewrite swap_labelmap_dict_get.
  destruct (find_last _ d) as [[k' v']|] eqn:Hf; simpl; [|discriminate].
  intros [= ->]. apply find_last_Some in Hf as [Hin Hv]. simpl in Hv.
  apply bool_decide_eq_true_1 in Hv as ->. apply dict_elem_get; assumption.
Qed.

(** On a map with pairwise distinct values the swapped map is the inverse. *)
Lemma swap_labelmap_dict_complete {K V : Type} `{EqDecision K} `{EqDecision V}
    (d : PyDict K V) (k : K) (v : V) :
  NoDup (dict_values d) -> dict_get d k = Some v ->
  dict_get (_swap_labelmap_dict d) v = Some k.
Proof.
  intros Hnd Hg. apply dict_elem_get; [apply swap_labelmap_dict_wf|].
  rewrite swap_labelmap_dict_distinct by assumption.
  apply dict_get_Some_elem in Hg.
  apply (list_elem_of_fmap_2 swap_pair) in Hg. exact Hg.
Qed.

(** C9: on a dictionary whose values are pairwise distinct, swapping twice
    gives the dictionary back; in general the swapped dictionary keeps, for
    each value, the key enumerated last, so a dictionary with a repeated
    value loses keys in the round trip, and a label map that gives one id to
    two names is merged without an error. *)
Theorem swap_labelmap_dict_round_trip :
  (forall (K V : Type) (HK : EqDecision K) (HV : EqDecision V) (d : PyDict K V),
      NoDup (dict_keys d) -> NoDup (dict_values d) ->
      _swap_labelmap_dict (_swap_labelmap_dict d) = d)
  /\ (forall (K V : Type) (HV : EqDecision V) (d : PyDict K V) (v : V),
         dict_get (_swap_labelmap_dict d) v
         = fst <$> find_last (fun kv => bool_decide (snd kv = v)) d)
  /\ (let d := labelmap_dict_of [mkItem "a" 1; mkItem "b" 1] in
      d = [("a", 1%Z); ("b", 1%Z)]
      /\ _swap_labelmap_dict d = [(1%Z, "b")]
      /\ _swap_labelmap_dict (_swap_labelmap_dict d) = [("b", 1%Z)]
      /\ dict_get (_swap_labelmap_dict (_swap_labelmap_dict d)) "a" = None).
Proof.
  split; [|split].
  - intros K V HK HV d Hk Hv.
    rewrite (swap_labelmap_dict_distinct d) by assumption.
    rewrite (swap_labelmap_dict_distinct (map swap_pair d)).
    + rewrite map_map. unfold swap_pair. simpl.
      induction d as [|[k v] d IH]; simpl; [reflexivity|]. f_equal.
      apply IH; [apply NoDup_cons in Hk as [_ ?] | apply NoDup_cons in Hv as [_ ?]];
        assumption.
    + unfold dict_values. rewrite map_map. simpl. exact Hk.
  - intros K V HV d v. apply swap_labelmap_dict_get.
  - vm_compute. repeat split; reflexivity.
Qed.

Lemma swap_labelmap_dict_round_trip_witness :
  _swap_labelmap_dict (_swap_labelmap_dict [("person", 1%Z); ("chair", 2%Z)])
  = [("person", 1%Z); ("chair", 2%Z)].
Proof.
  apply (proj1 swap_labelmap_dict_round_trip).
  - apply (bool_decide_unpack _). vm_compute. exact I.
  - apply (bool_decide_unpack _). vm_compute. exact I.
Defined.

(** ** Running the driver *)

Section run.
Context {E : Env}.
Variable fs : FileSystem.
Implicit Types (w : World E) (t : list Event).

Lemma bind_inv {A B : Type} (m : M E A) (k : A -> M E B) w (r : result B) w' :
  bind m k w = (r, w') ->
  (exists e, m w = (Raise e, w') /\ r = Raise e)
  \/ (exists a w1, m w = (Return a, w1) /\ k a w1 = (r, w')).
Proof.
  unfold bind. destruct (m w) as [[a|e] w1]; intros H.
  - right. exists a, w1. split; [reflexivity | exact H].
  - left. exists e. injection H as <- <-. split; reflexivity.
Qed.

Lemma logger_after_app (l : option LogValues) t1 t2 :
  logger_after E l (t1 ++ t2) = logger_after E (logger_after E l t1) t2.
Proof. unfold logger_after. apply fold_left_app. Qed.

Lemma run_facts_refl w : run_facts w w [].
Proof. split; [rewrite app_nil_r; reflexivity | reflexivity]. Qed.

Lemma run_facts_trans w w1 w2 t1 t2 :
  run_facts w w1 t1 -> run_facts w1 w2 t2 -> run_facts w w2 (t1 ++ t2).
Proof.
  intros [Ht1 Hl1] [Ht2 Hl2]. split.
  - rewrite Ht2, Ht1, app_assoc. reflexivity.
  - rewrite Hl2, Hl1, logger_after_app. reflexivity.
Qed.

(** *** The primitives *)

Lemma emit_run (e : Event) w r w' :
  emit e w = (r, w') ->
  r = Return tt /\ next_ref w' = next_ref w /\
  match e with
  | Logger_new _ _ | Logger_log_value _ _ => trace w' = trace w ++ [e]
  | _ => run_facts w w' [e]
  end.
Proof.
  unfold emit. intros [= <- <-]. split; [reflexivity|]. split; [reflexivity|].
  destruct e; simpl; try reflexivity; split; reflexivity.
Qed.

Lemma Logger_run (dir_logs name : string) w r w' :
  Logger dir_logs name w = (r, w') ->
  r = Return tt /\ next_ref w' = next_ref w /\ run_facts w w' [Logger_new dir_logs name].
Proof.
  unfold Logger, bind, emit, set_logger. simpl.
  destruct (logger w) eqn:Hl; intros [= <- <-]; simpl;
    (split; [reflexivity|]); (split; [reflexivity|]); split; simpl;
    rewrite ?Hl; reflexivity.
Qed.

Lemma Logger_call_run (msg : string) w r w' :
  Logger_call msg w = (r, w') ->
  r = Return tt /\ next_ref w' = next_ref w /\ run_facts w w' [Logger_message msg].
Proof. unfold Logger_call. intros H. apply emit_run in H. exact H. Qed.

Lemma flush_run w r w' :
  flush w = (r, w') ->
  r = Return tt /\ next_ref w' = next_ref w /\ run_facts w w' [Logger_flush].
Proof. unfold flush. intros H. apply emit_run in H. exact H. Qed.

Lemma log_value_run (name : string) (value : LVal) w r w' :
  log_value name value w = (r, w') ->
  r = Return tt /\ next_ref w' = next_ref w /\
  run_facts w w' [Logger_log_value name value].
Proof.
  unfold log_value, bind, emit, get_logger, set_logger. simpl.
  intros [= <- <-]. simpl. split; [reflexivity|]. split; [reflexivity|].
  split; reflexivity.
Qed.

Lemma Logger_values_run (name : string) w (r : result (list LVal)) w' :
  Logger_values name w = (r, w') ->
  w' = w /\ (forall l, r = Return l -> dict_get (default [] (logger w)) name = Some l).
Proof.
  unfold Logger_values, bind, get_logger, getitem.
  destruct (dict_get _ name) as [l|]; unfold ret, raise; intros [= <- <-].
  - split; [reflexivity|]. intros l' [= <-]. reflexivity.
  - split; [reflexivity|]. discriminate.
Qed.

Lemma getitem_run {V : Type} (d : PyDict string V) (k : string) w (r : result V) w' :
  getitem d k w = (r, w') ->
  w' = w /\ (forall v, r = Return v -> dict_get d k = Some v).
Proof.
  unfold getitem. destruct (dict_get d k) as [v|]; unfold ret, raise; intros [= <- <-].
  - split; [reflexivity|]. intros v' [= <-]. reflexivity.
  - split; [reflexivity|]. discriminate.
Qed.

Lemma lift_run {A : Type} (x : result A) w (r : result A) w' :
  lift x w = (r, w') -> w' = w /\ r = x.
Proof. unfold lift. intros [= <- <-]. split; reflexivity. Qed.

Lemma read_csv_run (path : string) w (r : result DataFrame) w' :
  read_csv fs path w = (r, w') ->
  next_ref w' = next_ref w /\ run_facts w w' [Read_csv path] /\
  (forall df, r = Return df -> reads_csv E fs path df).
Proof.
  unfold read_csv, bind, emit. simpl.
  destruct (fs path) as [text|] eqn:Hf; [destruct (csv_parser E text) as [df|] eqn:Hp|];
    unfold ret, raise; intros [= <- <-]; simpl;
    (split; [reflexivity|]); (split; [split; reflexivity|]); try discriminate.
  intros df' [= <-]. exists text. split; assumption.
Qed.

Lemma load_labelmap_run (path : string) w (r : result (PyDict string Z)) w' :
  _load_labelmap fs path w = (r, w') ->
  next_ref w' = next_ref w /\ run_facts w w' [Open path "r"] /\
  (forall d, r = Return d ->
             exists items, reads_labelmap E fs path items /\ d = labelmap_dict_of items).
Proof.
  unfold _load_labelmap, bind, emit. simpl.
  destruct (fs path) as [text|] eqn:Hf;
    [destruct (text_format_Merge E text) as [items|] eqn:Hp|];
    unfold ret, raise; intros [= <- <-]; simpl;
    (split; [reflexivity|]); (split; [split; reflexivity|]); try discriminate.
  intros d [= <-]. exists items. split; [|reflexivity]. exists text. split; assumption.
Qed.

Lemma new_evaluator_run (who : Who) w r w' :
  new_evaluator who w = (r, w') ->
  r = Return tt /\ next_ref w' = next_ref w /\ run_facts w w' [New_evaluator who].
Proof.
  unfold new_evaluator, bind, emit. simpl. intros [= <- <-].
  split; [reflexivity|]. destruct who; simpl; (split; [reflexivity|]); split; reflexivity.
Qed.

Lemma alloc_run (d : VRDDict E) w (r : result nat) w' :
  alloc d w = (r, w') ->
  r = Return (next_ref w) /\ next_ref w' = S (next_ref w) /\ run_facts w w' [].
Proof.
  unfold alloc. intros [= <- <-]. simpl. split; [reflexivity|]. split; [reflexivity|].
  split; simpl; [rewrite app_nil_r|]; reflexivity.
Qed.

Lemma call_relation_run {A : Type} f w (r : result A) w' :
  call_relation f w = (r, w') ->
  next_ref w' = next_ref w /\ run_facts w w' [].
Proof.
  unfold call_relation. destruct (f _ _) as [[[s h] a]|e]; intros [= <- <-]; simpl;
    (split; [reflexivity|]); split; simpl; rewrite ?app_nil_r; reflexivity.
Qed.

Lemma call_phrase_run {A : Type} f w (r : result A) w' :
  call_phrase f w = (r, w') ->
  next_ref w' = next_ref w /\ run_facts w w' [].
Proof.
  unfold call_phrase. destruct (f _ _) as [[[s h] a]|e]; intros [= <- <-]; simpl;
    (split; [reflexivity|]); split; simpl; rewrite ?app_nil_r; reflexivity.
Qed.

Lemma add_groundtruth_run (who : Who) (image_id : string) (d : nat) w r w' :
  add_single_ground_truth_image_info who image_id d w = (r, w') ->
  next_ref w' = next_ref w /\
  run_facts w w' [Add_single_ground_truth_image_info who image_id d].
Proof.
  unfold add_single_ground_truth_image_info. intros H.
  apply bind_inv in H as [(e & He & ->)|(x & w1 & He & H)];
    apply emit_run in He as (Hr & Hn & Hf); [discriminate|].
  assert (next_ref w' = next_ref w1 /\ run_facts w1 w' []) as [Hn' Hf'].
  { destruct who; [apply call_relation_run in H | apply call_phrase_run in H]; exact H. }
  split; [congruence|]. apply (run_facts_trans _ _ _ _ _ Hf Hf').
Qed.

Lemma add_detected_run (who : Who) (image_id : string) (d : nat) w r w' :
  add_single_detected_image_info who image_id d w = (r, w') ->
  next_ref w' = next_ref w /\
  run_facts w w' [Add_single_detected_image_info who image_id d].
Proof.
  unfold add_single_detected_image_info. intros H.
  apply bind_inv in H as [(e & He & ->)|(x & w1 & He & H)];
    apply emit_run in He as (Hr & Hn & Hf); [discriminate|].
  assert (next_ref w' = next_ref w1 /\ run_facts w1 w' []) as [Hn' Hf'].
  { destruct who; [apply call_relation_run in H | apply call_phrase_run in H]; exact H. }
  split; [congruence|]. apply (run_facts_trans _ _ _ _ _ Hf Hf').
Qed.

Lemma evaluate_run (who : Who) (relationships : PyDict Z string) w (r : result Metrics) w' :
  evaluate who relationships w = (r, w') ->
  next_ref w' = next_ref w /\
  match r with
  | Return metrics =>
      run_facts w w' [Evaluate who relationships; Evaluate_returned who metrics]
  | Raise _ => run_facts w w' [Evaluate who relationships]
  end.
Proof.
  unfold evaluate. intros H.
  apply bind_inv in H as [(e & He & ->)|(x & w1 & He & H)];
    apply emit_run in He as (Hr & Hn & Hf); [discriminate|].
  apply bind_inv in H as [(e & Hc & ->)|(metrics & w2 & Hc & H)].
  - assert (next_ref w' = next_ref w1 /\ run_facts w1 w' []) as [Hn' Hf'].
    { destruct who; [apply call_relation_run in Hc | apply call_phrase_run in Hc];
        exact Hc. }
    split; [congruence|]. apply (run_facts_trans _ _ _ _ _ Hf Hf').
  - assert (next_ref w2 = next_ref w1 /\ run_facts w1 w2 []) as [Hn' Hf'].
    { destruct who; [apply call_relation_run in Hc | apply call_phrase_run in Hc];
        exact Hc. }
    apply bind_inv in H as [(e & He' & ->)|(y & w3 & He' & H)];
      apply emit_run in He' as (Hr' & Hn'' & Hf''); [discriminate|].
    unfold ret in H. injection H as <- <-.
    split; [congruence|].
    apply (run_facts_trans _ _ _ _ _ Hf (run_facts_trans _ _ _ _ _ Hf' Hf'')).
Qed.
End run.

(** ** The loops of [main] *)

Section loops.
Context {E : Env}.
Implicit Types (w : World E) (t : list Event).

Lemma ingest_loop_run (build : DataFrame -> result (VRDDict E))
    (add : Who -> string -> nat -> M E unit) (call : Who -> string -> nat -> Event)
    (Hadd : forall who image_id d w r w',
        add who image_id d w = (r, w') ->
        next_ref w' = next_ref w /\ run_facts w w' [call who image_id d])
    (groups : list (string * DataFrame)) w r w' :
  for_each groups (ingest_body build add) w = (r, w') ->
  exists t,
    run_facts w w' t
    /\ t `prefix_of` ingest_events call (next_ref w) (map fst groups)
    /\ (r = Return tt ->
        t = ingest_events call (next_ref w) (map fst groups)
        /\ next_ref w' = next_ref w + length groups).
Proof.
  revert w. induction groups as [|[image_id rows] groups IH]; intros w H.
  - simpl in H. unfold ret in H. injection H as <- <-.
    exists []. split; [apply run_facts_refl|]. split; [reflexivity|].
    intros _. split; [reflexivity | simpl; lia].
  - simpl in H.
    apply bind_inv in H as [(e & Hb & ->)|([] & w3 & Hb & H)].
    + (* the body raises *)
      unfold ingest_body in Hb.
      apply bind_inv in Hb as [(e1 & Hd & [= <-])|(d & w1 & Hd & Hb)].
      * apply bind_inv in Hd as [(e2 & Hl & _)|(x & w0 & Hl & Ha)].
        -- apply lift_run in Hl as [-> _]. exists [].
           split; [apply run_facts_refl|]. split; [apply prefix_nil | discriminate].
        -- apply alloc_run in Ha as (? & _). discriminate.
      * apply bind_inv in Hd as [(e2 & Hl & ?)|(x & w0 & Hl & Ha)]; [discriminate|].
        apply lift_run in Hl as [-> _]. apply alloc_run in Ha as ([= ->] & Hn1 & Hf1).
        apply bind_inv in Hb as [(e1 & Hr & [= <-])|([] & w2 & Hr & Hp)].
        -- apply Hadd in Hr as [_ Hf2].
           exists [call Relation image_id (next_ref w)].
           split; [apply (run_facts_trans _ _ _ _ _ Hf1 Hf2)|].
           split; [|discriminate]. simpl. apply prefix_cons, prefix_nil.
        -- apply Hadd in Hr as [_ Hf2]. apply Hadd in Hp as [_ Hf3].
           exists [call Relation image_id (next_ref w); call Phrase image_id (next_ref w)].
           split; [apply (run_facts_trans _ _ _ _ _ Hf1
                            (run_facts_trans _ _ _ _ _ Hf2 Hf3))|].
           split; [|discriminate]. simpl. apply prefix_cons, prefix_cons, prefix_nil.
    + (* the body returns *)
      unfold ingest_body in Hb.
      apply bind_inv in Hb as [(e1 & Hd & ?)|(d & w1 & Hd & Hb)]; [discriminate|].
      apply bind_inv in Hd as [(e2 & Hl & ?)|(x & w0 & Hl & Ha)]; [discriminate|].
      apply lift_run in Hl as [-> _]. apply alloc_run in Ha as ([= ->] & Hn1 & Hf1).
      apply bind_inv in Hb as [(e1 & Hr & ?)|([] & w2 & Hr & Hp)]; [discriminate|].
      apply Hadd in Hr as [Hn2 Hf2]. apply Hadd in Hp as [Hn3 Hf3].
      apply IH in H as (t & Hf & Hpre & Hret).
      assert (Hn : next_ref w3 = S (next_ref w)) by congruence.
      rewrite Hn in Hpre, Hret.
      exists ([call Relation image_id (next_ref w); call Phrase image_id (next_ref w)] ++ t).
      split.
      { apply (run_facts_trans _ _ _ _ _
                 (run_facts_trans _ _ _ _ _ Hf1 (run_facts_trans _ _ _ _ _ Hf2 Hf3)) Hf). }
      split; [simpl; apply prefix_cons, prefix_cons, Hpre|].
      intros Hr. destruct (Hret Hr) as [-> ->]. split; [reflexivity | simpl; lia].
Qed.

Lemma log_loop_run (metrics : Metrics) w r w' :
  for_each metrics
    (fun kv => log_value ("eval_epoch." ++ fst kv)%string (VFloat (snd kv))) w = (r, w') ->
  r = Return tt /\ next_ref w' = next_ref w /\ run_facts w w' (log_events metrics).
Proof.
  revert w. induction metrics as [|kv metrics IH]; intros w H; simpl in H.
  - unfold ret in H. injection H as <- <-.
    split; [reflexivity|]. split; [reflexivity | apply run_facts_refl].
  - apply bind_inv in H as [(e & Hl & ->)|([] & w1 & Hl & H)];
      apply log_value_run in Hl as (Hr & Hn & Hf); [discriminate|].
    apply IH in H as (-> & Hn' & Hf'). split; [reflexivity|]. split; [congruence|].
    apply (run_facts_trans _ _ _ _ _ Hf Hf').
Qed.
End loops.

(** ** The shape of a run *)

Lemma group_keys_NoDup (col : string) (df : DataFrame) : NoDup (group_keys col df).
Proof.
  unfold group_keys. rewrite merge_sort_Permutation. apply NoDup_remove_dups.
Qed.

Lemma group_keys_elem (col : string) (df : DataFrame) (key : string) :
  key ∈ group_keys col df <-> key ∈ column_values col df.
Proof.
  unfold group_keys. rewrite merge_sort_Permutation. apply elem_of_remove_dups.
Qed.

Lemma groupby_Return (col : string) (df : DataFrame) (groups : list (string * DataFrame)) :
  groupby col df = Return groups ->
  map fst groups = group_keys col df /\ length groups = length (group_keys col df).
Proof.
  unfold groupby. destruct (decide _); [|discriminate]. intros [= <-].
  rewrite map_map, length_map. simpl. split; [apply map_id | reflexivity].
Qed.

Section shape.
Context {E : Env}.
Variable fs : FileSystem.
Implicit Types (w : World E) (t : list Event).

Lemma run_facts_init (lg : option LogValues) w t :
  run_facts (init_world E lg) w t -> trace w = t /\ logger w = logger_after E lg t.
Proof. intros [Ht Hl]. simpl in Ht, Hl. split; assumption. Qed.

Ltac acc Hacc Hf :=
  apply (run_facts_trans _ _ _ _ _ Hacc) in Hf; clear Hacc; rename Hf into Hacc.

Ltac unfold_traces :=
  unfold full_trace, work_events, setup_events, evaluation_events, closing_events;
  rewrite <- ?app_assoc; cbn [app].

Ltac solve_prefix :=
  repeat first
    [ reflexivity
    | assumption
    | apply prefix_nil
    | apply prefix_cons
    | apply prefix_app
    | (apply prefix_app_r; solve [reflexivity | assumption]) ].

Ltac rew_trace :=
  match goal with Ht : trace _ = _ |- _ => rewrite Ht end.

Ltac leaf Hacc :=
  let Ht := fresh "Ht" in
  let Hl := fresh "Hl" in
  apply run_facts_init in Hacc as [Ht Hl];
  split; [rewrite Hl, Ht; reflexivity|].

Ltac early Hacc :=
  leaf Hacc; left; split; [eexists; reflexivity|];
  rew_trace; unfold_traces; solve_prefix.

Lemma main_run (a : Args) (lg : option LogValues) (r : result unit) w :
  run_main fs a lg = (r, w) ->
  logger w = logger_after E lg (trace w)
  /\ (((exists e, r = Raise e) /\ trace w `prefix_of` setup_events a)
      \/ working E fs a r (trace w)).
Proof.
  unfold run_main, main. intros H.
  apply bind_inv in H as [(e & Hm & ->)|([] & w1 & Hacc & H)];
    [apply Logger_run in Hm as (? & _); discriminate|].
  apply Logger_run in Hacc as (_ & Hn & Hacc). simpl in Hn.
  apply bind_inv in H as [(e & Hm & ->)|([] & w2 & Hf & H)];
    [apply Logger_call_run in Hm as (? & _); discriminate|].
  apply Logger_call_run in Hf as (_ & Hn2 & Hf). rewrite Hn in Hn2. clear Hn.
  acc Hacc Hf.
  (* the annotations *)
  apply bind_inv in H as [(e & Hf & ->)|(boxes & w3 & Hf & H)];
    apply read_csv_run in Hf as (Hn3 & Hf & Hboxes); acc Hacc Hf; [early Hacc|].
  rewrite Hn2 in Hn3. clear Hn2. specialize (Hboxes _ eq_refl).
  apply bind_inv in H as [(e & Hf & ->)|(labels & w4 & Hf & H)];
    apply read_csv_run in Hf as (Hn4 & Hf & Hlabels); acc Hacc Hf; [early Hacc|].
  rewrite Hn3 in Hn4. clear Hn3. specialize (Hlabels _ eq_refl).
  (* the label maps *)
  apply bind_inv in H as [(e & Hf & ->)|(class_label_map & w5 & Hf & H)];
    apply load_labelmap_run in Hf as (Hn5 & Hf & Hclass); acc Hacc Hf; [early Hacc|].
  rewrite Hn4 in Hn5. clear Hn4.
  destruct (Hclass _ eq_refl) as (citems & Hcitems & ->). clear Hclass.
  apply bind_inv in H as [(e & Hf & ->)|(relationship_label_map & w6 & Hf & H)];
    apply load_labelmap_run in Hf as (Hn6 & Hf & Hrel); acc Hacc Hf; [early Hacc|].
  rewrite Hn5 in Hn6. clear Hn5.
  destruct (Hrel _ eq_refl) as (ritems & Hritems & ->). clear Hrel.
  (* the evaluators *)
  apply bind_inv in H as [(e & Hm & ->)|([] & w7 & Hf & H)];
    [apply new_evaluator_run in Hm as (? & _); discriminate|].
  apply new_evaluator_run in Hf as (_ & Hn7 & Hf). rewrite Hn6 in Hn7. clear Hn6.
  acc Hacc Hf.
  apply bind_inv in H as [(e & Hm & ->)|([] & w8 & Hf & H)];
    [apply new_evaluator_run in Hm as (? & _); discriminate|].
  apply new_evaluator_run in Hf as (_ & Hn8 & Hf). rewrite Hn7 in Hn8. clear Hn7.
  acc Hacc Hf.
  (* from here on the run is past the label maps *)
  assert (Hwork : forall det_ids rm pm s ep,
             NoDup det_ids ->
             trace w `prefix_of`
               full_trace a (group_keys "ImageID" (concat boxes labels)) det_ids
                 (_swap_labelmap_dict (labelmap_dict_of ritems)) rm pm s ep ->
             (r = Return tt ->
              completed E fs a (trace w) (group_keys "ImageID" (concat boxes labels))
                det_ids (_swap_labelmap_dict (labelmap_dict_of ritems)) rm pm s ep) ->
             working E fs a r (trace w)).
  { intros det_ids rm pm s ep Hnd Hpre Hdone.
    exists boxes, labels, citems, ritems, det_ids, rm, pm, s, ep.
    repeat (split; [assumption|]). assumption. }
  (* the groundtruth loop *)
  apply bind_inv in H as [(e & Hf & ->)|(groups & w9 & Hf & H)];
    apply lift_run in Hf as [-> Hg].
  { leaf Hacc. right. apply (Hwork [] [] [] 0%float 0%Z);
      [apply NoDup_nil_2 | | discriminate].
    rew_trace. unfold_traces. solve_prefix. }
  symmetry in Hg. apply groupby_Return in Hg as [Hkeys Hlen].
  apply bind_inv in H as [(e & Hf & ->)|([] & w10 & Hf & H)];
    apply (ingest_loop_run _ _ Add_single_ground_truth_image_info
             add_groundtruth_run) in Hf as (t1 & Hf & Hpre1 & Hret1);
    rewrite Hn8, Hkeys in Hpre1, Hret1; acc Hacc Hf.
  { leaf Hacc. right. apply (Hwork [] [] [] 0%float 0%Z);
      [apply NoDup_nil_2 | | discriminate].
    rew_trace. unfold_traces. solve_prefix. }
  destruct (Hret1 eq_refl) as [-> Hn10]. clear Hret1 Hpre1.
  rewrite Hlen in Hn10. simpl in Hn10.
  (* the predictions *)
  apply bind_inv in H as [(e & Hf & ->)|(predictions & w11 & Hf & H)];
    apply read_csv_run in Hf as (Hn11 & Hf & Hpreds); acc Hacc Hf.
  { leaf Hacc. right. apply (Hwork [] [] [] 0%float 0%Z);
      [apply NoDup_nil_2 | | discriminate].
    rew_trace. unfold_traces. solve_prefix. }
  rewrite Hn10 in Hn11. clear Hn10. specialize (Hpreds _ eq_refl).
  apply bind_inv in H as [(e & Hf & ->)|(groups' & w12 & Hf & H)];
    apply lift_run in Hf as [-> Hg].
  { leaf Hacc. right. apply (Hwork [] [] [] 0%float 0%Z);
      [apply NoDup_nil_2 | | discriminate].
    rew_trace. unfold_traces. solve_prefix. }
  symmetry in Hg. apply groupby_Return in Hg as [Hkeys' Hlen'].
  pose proof (group_keys_NoDup "ImageID" predictions) as Hnd.
  apply bind_inv in H as [(e & Hf & ->)|([] & w13 & Hf & H)];
    apply (ingest_loop_run _ _ Add_single_detected_image_info
             add_detected_run) in Hf as (t2 & Hf & Hpre2 & Hret2);
    rewrite Hn11, Hkeys' in Hpre2, Hret2; acc Hacc Hf.
  { leaf Hacc. right.
    apply (Hwork (group_keys "ImageID" predictions) [] [] 0%float 0%Z);
      [assumption | | discriminate].
    rew_trace. unfold_traces. solve_prefix. }
  destruct (Hret2 eq_refl) as [-> _]. clear Hret2 Hpre2.
  (* the evaluation *)
  apply bind_inv in H as [(e & Hf & ->)|(relation_metrics & w14 & Hf & H)];
    apply evaluate_run in Hf as (_ & Hf); acc Hacc Hf.
  { leaf Hacc. right.
    apply (Hwork (group_keys "ImageID" predictions) [] [] 0%float 0%Z);
      [assumption | | discriminate].
    rew_trace. unfold_traces. solve_prefix. }
  apply bind_inv in H as [(e & Hf & ->)|(phrase_metrics & w15 & Hf & H)];
    apply evaluate_run in Hf as (_ & Hf); acc Hacc Hf.
  { leaf Hacc. right.
    apply (Hwork (group_keys "ImageID" predictions) relation_metrics [] 0%float 0%Z);
      [assumption | | discriminate].
    rew_trace. unfold_traces. solve_prefix. }
  (* the logging of the metrics *)
  apply bind_inv in H as [(e & Hm & ->)|([] & w16 & Hf & H)];
    [apply log_loop_run in Hm as (? & _); discriminate|].
  apply log_loop_run in Hf as (_ & _ & Hf). acc Hacc Hf.
  apply bind_inv in H as [(e & Hm & ->)|([] & w17 & Hf & H)];
    [apply log_loop_run in Hm as (? & _); discriminate|].
  apply log_loop_run in Hf as (_ & _ & Hf). acc Hacc Hf.
  (* the score *)
  apply bind_inv in H as [(e & Hf & ->)|(x & w18 & Hf & H)];
    apply getitem_run in Hf as (-> & Hx).
  { leaf Hacc. right.
    apply (Hwork (group_keys "ImageID" predictions) relation_metrics phrase_metrics
             0%float 0%Z); [assumption | | discriminate].
    rew_trace. unfold_traces. solve_prefix. }
  specialize (Hx _ eq_refl).
  apply bind_inv in H as [(e & Hf & ->)|(y & w19 & Hf & H)];
    apply getitem_run in Hf as (-> & Hy).
  { leaf Hacc. right.
    apply (Hwork (group_keys "ImageID" predictions) relation_metrics phrase_metrics
             0%float 0%Z); [assumption | | discriminate].
    rew_trace. unfold_traces. solve_prefix. }
  specialize (Hy _ eq_refl).
  apply bind_inv in H as [(e & Hf & ->)|(z & w20 & Hf & H)];
    apply getitem_run in Hf as (-> & Hz).
  { leaf Hacc. right.
    apply (Hwork (group_keys "ImageID" predictions) relation_metrics phrase_metrics
             0%float 0%Z); [assumption | | discriminate].
    rew_trace. unfold_traces. solve_prefix. }
  specialize (Hz _ eq_refl).
  apply bind_inv in H as [(e & Hm & ->)|([] & w21 & Hf & H)];
    [apply log_value_run in Hm as (? & _); discriminate|].
  apply log_value_run in Hf as (_ & _ & Hf). acc Hacc Hf.
  apply bind_inv in H as [(e & Hf & ->)|(scores & w22 & Hf & H)];
    apply Logger_values_run in Hf as (-> & Hscores).
  { leaf Hacc. right.
    apply (Hwork (group_keys "ImageID" predictions) relation_metrics phrase_metrics
             (composite_score x y z) 0%Z); [assumption | | discriminate].
    rew_trace. unfold_traces. solve_prefix. }
  apply bind_inv in H as [(e & Hm & ->)|([] & w23 & Hf & H)];
    [apply log_value_run in Hm as (? & _); discriminate|].
  apply log_value_run in Hf as (_ & _ & Hf). acc Hacc Hf.
  apply bind_inv in H as [(e & Hm & ->)|([] & w24 & Hf & H)];
    [apply flush_run in Hm as (? & _); discriminate|].
  apply flush_run in Hf as (_ & _ & Hf). acc Hacc Hf.
  apply Logger_call_run in H as (-> & _ & Hf). acc Hacc Hf.
  leaf Hacc. right.
  apply (Hwork (group_keys "ImageID" predictions) relation_metrics phrase_metrics
           (composite_score x y z) (Z.of_nat (length scores) - 1)%Z); [assumption | |].
  - rew_trace. unfold_traces. solve_prefix.
  - intros _. exists predictions, x, y, z.
    split; [assumption|]. split; [reflexivity|].
    split; [rew_trace; unfold_traces; reflexivity|].
    repeat (split; [assumption|]). reflexivity.
Qed.
End shape.

(** ** Facts about traces *)

Section trace_facts.
Implicit Types (tr t : list Event) (p : Event -> bool).

Lemma count_events_app p t1 t2 :
  count_events p (t1 ++ t2) = count_events p t1 + count_events p t2.
Proof. induction t1 as [|e t1 IH]; simpl; [reflexivity | rewrite IH; lia]. Qed.

Lemma count_events_none p tr :
  Forall (fun e => p e = false) tr -> count_events p tr = 0.
Proof.
  induction 1 as [|e tr He _ IH]; simpl; [reflexivity|]. rewrite He, IH. reflexivity.
Qed.

Lemma count_events_prefix p t tr :
  t `prefix_of` tr -> count_events p t <= count_events p tr.
Proof. intros [k ->]. rewrite count_events_app. lia. Qed.

(** In [l1 ++ l2], what occurs only in [l1] comes before what occurs
    only in [l2]. *)
Lemma order_split p q (l1 l2 : list Event) i j e1 e2 :
  Forall (fun e => p e = false) l2 -> Forall (fun e => q e = false) l1 ->
  (l1 ++ l2) !! i = Some e1 -> p e1 = true ->
  (l1 ++ l2) !! j = Some e2 -> q e2 = true ->
  i < j.
Proof.
  intros Hp Hq Hi Hpe Hj Hqe.
  apply lookup_app_Some in Hi as [Hi|[Hle Hi]].
  - apply lookup_app_Some in Hj as [Hj|[Hle Hj]].
    + rewrite Forall_forall in Hq.
      apply list_elem_of_lookup_2 in Hj. apply Hq in Hj. congruence.
    + apply lookup_lt_Some in Hi. lia.
  - rewrite Forall_forall in Hp.
    apply list_elem_of_lookup_2 in Hi. apply Hp in Hi. congruence.
Qed.

Lemma Forall_ingest_events (P : Event -> Prop) (call : Who -> string -> nat -> Event)
    (base : nat) (ids : list string) :
  (forall who image_id d, P (call who image_id d)) ->
  Forall P (ingest_events call base ids).
Proof.
  intros Hc. revert base. induction ids as [|image_id ids IH]; intros base; simpl.
  - apply Forall_nil_2.
  - apply Forall_cons; split; [apply Hc|]. apply Forall_cons; split; [apply Hc | apply IH].
Qed.

Lemma Forall_log_events (P : Event -> Prop) (metrics : Metrics) :
  (forall n v, P (Logger_log_value n v)) -> Forall P (log_events metrics).
Proof.
  intros Hc. unfold log_events. induction metrics as [|kv m IH]; simpl.
  - apply Forall_nil_2.
  - apply Forall_cons; split; [apply Hc | apply IH].
Qed.

Lemma omap_none {A : Type} (f : Event -> option A) tr :
  Forall (fun e => f e = None) tr -> omap f tr = [].
Proof.
  induction 1 as [|e tr He _ IH]; simpl; [reflexivity|]. rewrite He. exact IH.
Qed.

Lemma omap_prefix {A : Type} (f : Event -> option A) t tr :
  t `prefix_of` tr -> omap f t `prefix_of` omap f tr.
Proof. intros [k ->]. rewrite omap_app. apply prefix_app_r. reflexivity. Qed.

Lemma prefix_app_cases {A : Type} (s l1 l2 : list A) :
  s `prefix_of` l1 ++ l2 ->
  s `prefix_of` l1 \/ exists s', s = l1 ++ s' /\ s' `prefix_of` l2.
Proof.
  revert s. induction l1 as [|x l1 IH]; intros s Hpre.
  - right. exists s. split; [reflexivity | exact Hpre].
  - destruct s as [|y s]; [left; apply prefix_nil|].
    simpl in Hpre. apply prefix_cons_inv_1 in Hpre as Hxy. subst y.
    apply prefix_cons_inv_2 in Hpre. apply IH in Hpre as [Hpre|(s' & -> & Hpre)].
    + left. apply prefix_cons, Hpre.
    + right. exists s'. split; [reflexivity | exact Hpre].
Qed.

Lemma NoDup_prefix {A : Type} (s l : list A) : s `prefix_of` l -> NoDup l -> NoDup s.
Proof. intros [k ->] Hnd. apply NoDup_app in Hnd as [Hnd _]. exact Hnd. Qed.

(** *** What the segments of a full trace hold *)

Lemma groundtruth_image_ids_ingest (who : Who) (base : nat) (ids : list string) :
  groundtruth_image_ids who (ingest_events Add_single_ground_truth_image_info base ids)
  = ids.
Proof.
  unfold groundtruth_image_ids. revert base.
  induction ids as [|image_id ids IH]; intros base; simpl; [reflexivity|].
  destruct who; simpl; rewrite IH; reflexivity.
Qed.

Lemma ingestion_sequence_groundtruth (who : Who) (base : nat) (ids : list string) :
  ingestion_sequence who (ingest_events Add_single_ground_truth_image_info base ids)
  = ingest_calls Groundtruth base ids.
Proof.
  unfold ingestion_sequence. revert base.
  induction ids as [|image_id ids IH]; intros base; simpl; [reflexivity|].
  destruct who; simpl; rewrite IH; reflexivity.
Qed.

Lemma ingestion_sequence_detections (who : Who) (base : nat) (ids : list string) :
  ingestion_sequence who (ingest_events Add_single_detected_image_info base ids)
  = ingest_calls Detections base ids.
Proof.
  unfold ingestion_sequence. revert base.
  induction ids as [|image_id ids IH]; intros base; simpl; [reflexivity|].
  destruct who; simpl; rewrite IH; reflexivity.
Qed.

Lemma logged_app (name : string) t1 t2 :
  logged name (t1 ++ t2) = logged name t1 ++ logged name t2.
Proof. unfold logged. apply omap_app. Qed.

Lemma elem_of_ingest_events (call : Who -> string -> nat -> Event) (base : nat)
    (ids : list string) (e : Event) :
  e ∈ ingest_events call base ids -> exists who image_id d, e = call who image_id d.
Proof.
  revert base. induction ids as [|image_id ids IH]; intros base; simpl; intros Hin.
  - apply elem_of_nil in Hin as [].
  - apply elem_of_cons in Hin as [->|Hin]; [eauto|].
    apply elem_of_cons in Hin as [->|Hin]; [eauto|]. apply IH in Hin. exact Hin.
Qed.

Lemma elem_of_log_events (metrics : Metrics) (e : Event) :
  e ∈ log_events metrics <->
  exists k v, (k, v) ∈ metrics /\ e = Logger_log_value ("eval_epoch." ++ k)%string (VFloat v).
Proof.
  unfold log_events. rewrite list_elem_of_fmap. split.
  - intros ([k v] & -> & Hin). exists k, v. split; [exact Hin | reflexivity].
  - intros (k & v & Hin & ->). exists (k, v). split; [reflexivity | exact Hin].
Qed.
End trace_facts.

(** A conjunction of [Forall]s over the segments of a trace, each closed by
    computing the predicate on the segment's events. *)
Ltac solve_Forall :=
  repeat first
    [ apply Forall_nil_2
    | apply Forall_app; split
    | apply Forall_cons; split
    | apply Forall_ingest_events; intros
    | apply Forall_log_events; intros
    | reflexivity ].
(** ** The dictionaries in the store *)

Section store.
Context {E : Env}.
Variable fs : FileSystem.
Implicit Types (w : World E).

Lemma frame_emit (e : Event) : frame E (emit e).
Proof. intros w r w' [= <- <-]. split; reflexivity. Qed.

Lemma frame_ret {A : Type} (a : A) : frame E (ret (E := E) a).
Proof. intros w r w' [= <- <-]. split; reflexivity. Qed.

Lemma frame_raise {A : Type} (e : exn) : frame E (raise (E := E) (A := A) e).
Proof. intros w r w' [= <- <-]. split; reflexivity. Qed.

Lemma frame_lift {A : Type} (x : result A) : frame E (lift (E := E) x).
Proof. intros w r w' [= <- <-]. split; reflexivity. Qed.

Lemma frame_bind {A B : Type} (m : M E A) (k : A -> M E B) :
  frame E m -> (forall a, frame E (k a)) -> frame E (bind m k).
Proof.
  intros Hm Hk w r w' H.
  apply bind_inv in H as [(e & H & _)|(a & w1 & H & H')].
  - eapply Hm, H.
  - apply Hm in H as [Hh Hn]. apply Hk in H' as [Hh' Hn']. split; congruence.
Qed.

Lemma frame_for_each {A : Type} (l : list A) (body : A -> M E unit) :
  (forall x, frame E (body x)) -> frame E (for_each l body).
Proof.
  intros Hb. induction l as [|x l IH]; simpl; [apply frame_ret|].
  apply frame_bind; [apply Hb | intros _; exact IH].
Qed.

Lemma frame_getitem {V : Type} (d : PyDict string V) (k : string) :
  frame E (getitem (E := E) d k).
Proof. unfold getitem. destruct (dict_get d k); [apply frame_ret | apply frame_raise]. Qed.

Lemma frame_Logger (dir_logs name : string) : frame E (Logger dir_logs name).
Proof.
  unfold Logger. apply frame_bind; [apply frame_emit|]. intros _ w r w'.
  unfold set_logger. destruct (logger w); intros [= <- <-]; split; reflexivity.
Qed.

Lemma frame_log_value (name : string) (value : LVal) : frame E (log_value name value).
Proof.
  unfold log_value. apply frame_bind; [apply frame_emit|]. intros _.
  apply frame_bind; [intros w r w' [= <- <-]; split; reflexivity|].
  intros v w r w' [= <- <-]. split; reflexivity.
Qed.

Lemma frame_Logger_values (name : string) : frame E (Logger_values name).
Proof.
  unfold Logger_values. apply frame_bind; [intros w r w' [= <- <-]; split; reflexivity|].
  intros v. apply frame_getitem.
Qed.

Lemma frame_read_csv (path : string) : frame E (read_csv fs path).
Proof.
  unfold read_csv. apply frame_bind; [apply frame_emit|]. intros _.
  destruct (fs path) as [text|]; [|apply frame_raise].
  destruct (csv_parser E text); [apply frame_ret | apply frame_raise].
Qed.

Lemma frame_load_labelmap (path : string) : frame E (_load_labelmap fs path).
Proof.
  unfold _load_labelmap. apply frame_bind; [apply frame_emit|]. intros _.
  destruct (fs path) as [text|]; [|apply frame_raise].
  destruct (text_format_Merge E text); [apply frame_ret | apply frame_raise].
Qed.

Lemma frame_new_evaluator (who : Who) : frame E (new_evaluator who).
Proof.
  unfold new_evaluator. apply frame_bind; [apply frame_emit|]. intros _ w r w' [= <- <-].
  destruct who; split; reflexivity.
Qed.

Lemma groupby_groups (col : string) (df : DataFrame)
    (groups : list (string * DataFrame)) :
  groupby col df = Return groups ->
  groups = map (fun key => (key, rows_of_key col key df)) (group_keys col df).
Proof. unfold groupby. destruct (decide _); [|discriminate]. intros [= <-]. reflexivity. Qed.

Lemma next_ref_add_groundtruth (who : Who) (image_id : string) (d : nat) w r w' :
  add_single_ground_truth_image_info who image_id d w = (r, w') ->
  next_ref w' = next_ref w.
Proof. intros H. apply add_groundtruth_run in H as [H _]. exact H. Qed.

Lemma next_ref_add_detected (who : Who) (image_id : string) (d : nat) w r w' :
  add_single_detected_image_info who image_id d w = (r, w') ->
  next_ref w' = next_ref w.
Proof. intros H. apply add_detected_run in H as [H _]. exact H. Qed.

(** A loop that runs to its end has built a dictionary from the rows of
    each group and allocated it; when the calls leave the store as it is,
    the store holds these dictionaries, in order, from the first free
    reference on. *)
Lemma ingest_loop_store (keeps : Prop) (build : DataFrame -> result (VRDDict E))
    (add : Who -> string -> nat -> M E unit)
    (Hnext : forall who image_id d w r w',
        add who image_id d w = (r, w') -> next_ref w' = next_ref w)
    (Hadd : keeps -> forall who image_id d, frame E (add who image_id d))
    (groups : list (string * DataFrame)) w w' :
  for_each groups (ingest_body build add) w = (Return tt, w') ->
  exists ds,
    Forall2 (fun g d => build (snd g) = Return d) groups ds
    /\ next_ref w' = next_ref w + length groups
    /\ (keeps -> heap w' = store_all (next_ref w) ds (heap w)).
Proof.
  revert w. induction groups as [|[image_id rows] groups IH]; intros w H.
  - simpl in H. unfold ret in H. injection H as <-.
    exists []. split; [constructor|]. split; [simpl; lia | reflexivity].
  - simpl in H.
    apply bind_inv in H as [(e & _ & [=])|([] & w3 & Hb & H)].
    unfold ingest_body in Hb.
    apply bind_inv in Hb as [(e & _ & [=])|(n & w1 & Hd & Hb)].
    apply bind_inv in Hd as [(e & _ & [=])|(d & w0 & Hl & Ha)].
    apply lift_run in Hl as [-> Hbuild].
    unfold alloc in Ha. injection Ha as <- <-.
    apply bind_inv in Hb as [(e & _ & [=])|([] & w2 & Hr & Hp)].
    pose proof (Hnext _ _ _ _ _ _ Hr) as Hn2. pose proof (Hnext _ _ _ _ _ _ Hp) as Hn3.
    simpl in Hn2.
    apply IH in H as (ds & Hds & Hn & Hh).
    exists (d :: ds). split; [constructor; [symmetry; exact Hbuild | exact Hds]|].
    split; [rewrite Hn, Hn3, Hn2; simpl; lia|].
    intros Hk. rewrite (Hh Hk), Hn3, Hn2.
    destruct (Hadd Hk _ _ _ _ _ _ Hr) as [Hh2 _].
    destruct (Hadd Hk _ _ _ _ _ _ Hp) as [Hh3 _].
    rewrite Hh3, Hh2. reflexivity.
Qed.

Lemma store_all_before {D : Type} (ds : list D) (base j : nat) (h : gmap nat D) :
  j < base -> store_all base ds h !! j = h !! j.
Proof.
  revert base h. induction ds as [|d ds IH]; intros base h Hj; [reflexivity|].
  simpl. rewrite IH by lia. apply lookup_insert_ne. lia.
Qed.

Lemma store_all_lookup {D : Type} (ds : list D) (base i : nat) (h : gmap nat D) (d : D) :
  ds !! i = Some d -> store_all base ds h !! (base + i) = Some d.
Proof.
  revert base i h. induction ds as [|d0 ds IH]; intros base i h Hi; [discriminate|].
  simpl. destruct i as [|i].
  - injection Hi as ->. rewrite Nat.add_0_r, store_all_before by lia.
    apply lookup_insert_eq.
  - replace (base + S i) with (S base + i) by lia. apply IH. exact Hi.
Qed.

(** The evaluators' methods, for evaluators that leave the store as it
    is. *)
Hypothesis Hrelation : keeps_store (VRDRelationDetectionEvaluator E).
Hypothesis Hphrase : keeps_store (VRDPhraseDetectionEvaluator E).

Lemma frame_add_groundtruth (who : Who) (image_id : string) (d : nat) :
  frame E (add_single_ground_truth_image_info who image_id d).
Proof.
  unfold add_single_ground_truth_image_info. apply frame_bind; [apply frame_emit|].
  intros _ w r w'. destruct Hrelation as (Hr & _), Hphrase as (Hp & _).
  destruct who; unfold call_relation, call_phrase, with_unit.
  - destruct (ev_add_single_ground_truth_image_info _ _ _ _ _) as [[s h]|e] eqn:Hc;
      intros [= <- <-]; simpl; [|split; reflexivity].
    apply Hr in Hc. split; [exact Hc | reflexivity].
  - destruct (ev_add_single_ground_truth_image_info _ _ _ _ _) as [[s h]|e] eqn:Hc;
      intros [= <- <-]; simpl; [|split; reflexivity].
    apply Hp in Hc. split; [exact Hc | reflexivity].
Qed.

Lemma frame_add_detected (who : Who) (image_id : string) (d : nat) :
  frame E (add_single_detected_image_info who image_id d).
Proof.
  unfold add_single_detected_image_info. apply frame_bind; [apply frame_emit|].
  intros _ w r w'. destruct Hrelation as (_ & Hr & _), Hphrase as (_ & Hp & _).
  destruct who; unfold call_relation, call_phrase, with_unit.
  - destruct (ev_add_single_detected_image_info _ _ _ _ _) as [[s h]|e] eqn:Hc;
      intros [= <- <-]; simpl; [|split; reflexivity].
    apply Hr in Hc. split; [exact Hc | reflexivity].
  - destruct (ev_add_single_detected_image_info _ _ _ _ _) as [[s h]|e] eqn:Hc;
      intros [= <- <-]; simpl; [|split; reflexivity].
    apply Hp in Hc. split; [exact Hc | reflexivity].
Qed.

Lemma frame_evaluate (who : Who) (relationships : PyDict Z string) :
  frame E (evaluate who relationships).
Proof.
  unfold evaluate. apply frame_bind; [apply frame_emit|]. intros _.
  apply frame_bind.
  - intros w r w'. destruct Hrelation as (_ & _ & Hr), Hphrase as (_ & _ & Hp).
    destruct who; unfold call_relation, call_phrase.
    + destruct (ev_evaluate _ _ _ _) as [[[s h] m]|e] eqn:Hc;
        intros [= <- <-]; simpl; [|split; reflexivity].
      apply Hr in Hc. split; [exact Hc | reflexivity].
    + destruct (ev_evaluate _ _ _ _) as [[[s h] m]|e] eqn:Hc;
        intros [= <- <-]; simpl; [|split; reflexivity].
      apply Hp in Hc. split; [exact Hc | reflexivity].
  - intros m. apply frame_bind; [apply frame_emit | intros _; apply frame_ret].
Qed.
End store.

Section main_store.
Context {E : Env}.
Variable fs : FileSystem.
Implicit Types (w : World E).

Ltac returns H x w' Hf :=
  apply bind_inv in H as [(?e & _ & [=])|(x & w' & Hf & H)].

Ltac framed Hf lem Hh Hn :=
  apply lem in Hf as [?Hh' ?Hn']; rewrite Hh in *; rewrite Hn in *;
  clear Hh Hn; rename Hh' into Hh; rename Hn' into Hn.

(** What a run that reaches its end has built, and where it is. *)
Lemma main_store (a : Args) (lg : option LogValues) w :
  run_main fs a lg = (Return tt, w) ->
  exists boxes labels class_items relationship_items predictions gt_ds det_ds,
    reads_csv E fs (input_annotations_boxes a) boxes
    /\ reads_csv E fs (input_annotations_labels a) labels
    /\ reads_labelmap E fs (input_class_labelmap a) class_items
    /\ reads_labelmap E fs (input_relationship_labelmap a) relationship_items
    /\ reads_csv E fs (input_predictions a) predictions
    /\ Forall2 (fun image_id d =>
                  build_groundtruth_vrd_dictionary E
                    (rows_of_key "ImageID" image_id (concat boxes labels))
                    (labelmap_dict_of class_items)
                    (labelmap_dict_of relationship_items) = Return d)
               (group_keys "ImageID" (concat boxes labels)) gt_ds
    /\ Forall2 (fun image_id d =>
                  build_predictions_vrd_dictionary E
                    (rows_of_key "ImageID" image_id predictions)
                    (labelmap_dict_of class_items)
                    (labelmap_dict_of relationship_items) = Return d)
               (group_keys "ImageID" predictions) det_ds
    /\ (keeps_store (VRDRelationDetectionEvaluator E) ->
        keeps_store (VRDPhraseDetectionEvaluator E) ->
        heap w = store_all (length gt_ds) det_ds (store_all 0 gt_ds ∅)).
Proof.
  unfold run_main, main. intros H.
  returns H u1 w1 Hf. apply frame_Logger in Hf as [Hh Hn]. simpl in Hh, Hn.
  returns H u2 w2 Hf. apply frame_emit in Hf as [Hh2 Hn2]. rewrite Hh in Hh2.
  rewrite Hn in Hn2. clear Hh Hn.
  returns H boxes w3 Hf. pose proof (frame_read_csv _ _ _ _ _ Hf) as [Hh3 Hn3].
  apply read_csv_run in Hf as (_ & _ & Hboxes). specialize (Hboxes _ eq_refl).
  rewrite Hh2 in Hh3. rewrite Hn2 in Hn3. clear Hh2 Hn2.
  returns H labels w4 Hf. pose proof (frame_read_csv _ _ _ _ _ Hf) as [Hh4 Hn4].
  apply read_csv_run in Hf as (_ & _ & Hlabels). specialize (Hlabels _ eq_refl).
  rewrite Hh3 in Hh4. rewrite Hn3 in Hn4. clear Hh3 Hn3.
  returns H clm w5 Hf. pose proof (frame_load_labelmap _ _ _ _ _ Hf) as [Hh5 Hn5].
  apply load_labelmap_run in Hf as (_ & _ & Hc).
  destruct (Hc _ eq_refl) as (citems & Hcitems & ->). clear Hc.
  rewrite Hh4 in Hh5. rewrite Hn4 in Hn5. clear Hh4 Hn4.
  returns H rlm w6 Hf. pose proof (frame_load_labelmap _ _ _ _ _ Hf) as [Hh6 Hn6].
  apply load_labelmap_run in Hf as (_ & _ & Hr).
  destruct (Hr _ eq_refl) as (ritems & Hritems & ->). clear Hr.
  rewrite Hh5 in Hh6. rewrite Hn5 in Hn6. clear Hh5 Hn5.
  returns H u7 w7 Hf. apply frame_new_evaluator in Hf as [Hh7 Hn7].
  rewrite Hh6 in Hh7. rewrite Hn6 in Hn7. clear Hh6 Hn6.
  returns H u8 w8 Hf. apply frame_new_evaluator in Hf as [Hh8 Hn8].
  rewrite Hh7 in Hh8. rewrite Hn7 in Hn8. clear Hh7 Hn7.
  (* the groundtruth loop *)
  returns H groups w9 Hf. apply lift_run in Hf as [-> Hg].
  symmetry in Hg. apply groupby_groups in Hg as ->.
  returns H u10 w10 Hf. destruct u10.
  apply (ingest_loop_store
           (keeps_store (VRDRelationDetectionEvaluator E)
            /\ keeps_store (VRDPhraseDetectionEvaluator E))
           (fun rows => build_groundtruth_vrd_dictionary E rows
                          (labelmap_dict_of citems) (labelmap_dict_of ritems))
           _ next_ref_add_groundtruth
           (fun Hk => frame_add_groundtruth (proj1 Hk) (proj2 Hk)))
    in Hf as (gt_ds & Hgt & Hn10 & Hh10).
  rewrite Hn8, length_map in Hn10. rewrite Hn8, Hh8 in Hh10. simpl in Hn10.
  apply Forall2_fmap_l in Hgt. cbn [snd compose] in Hgt.
  (* the predictions *)
  returns H preds w11 Hf. pose proof (frame_read_csv _ _ _ _ _ Hf) as [Hh11 Hn11].
  apply read_csv_run in Hf as (_ & _ & Hpreds). specialize (Hpreds _ eq_refl).
  rewrite Hn10 in Hn11.
  returns H groups' w12 Hf. apply lift_run in Hf as [-> Hg].
  symmetry in Hg. apply groupby_groups in Hg as ->.
  returns H u13 w13 Hf. destruct u13.
  apply (ingest_loop_store
           (keeps_store (VRDRelationDetectionEvaluator E)
            /\ keeps_store (VRDPhraseDetectionEvaluator E))
           (fun rows => build_predictions_vrd_dictionary E rows
                          (labelmap_dict_of citems) (labelmap_dict_of ritems))
           _ next_ref_add_detected
           (fun Hk => frame_add_detected (proj1 Hk) (proj2 Hk)))
    in Hf as (det_ds & Hdet & _ & Hh13).
  rewrite Hn11, Hh11 in Hh13.
  apply Forall2_fmap_l in Hdet. cbn [snd compose] in Hdet.
  exists boxes, labels, citems, ritems, preds, gt_ds, det_ds.
  repeat (split; [assumption|]).
  intros Hkr Hkp. specialize (Hh10 (conj Hkr Hkp)). specialize (Hh13 (conj Hkr Hkp)).
  rewrite Hh10 in Hh13.
  rewrite <- (Forall2_length _ _ _ Hgt), <- Hh13.
  (* the rest of the run leaves the store as it is *)
  returns H rm w14 Hf. apply (frame_evaluate Hkr Hkp) in Hf as [Hh14 _].
  returns H pm w15 Hf. apply (frame_evaluate Hkr Hkp) in Hf as [Hh15 _].
  returns H u16 w16 Hf.
  apply (frame_for_each _ _ (fun kv => frame_log_value _ _)) in Hf as [Hh16 _].
  returns H u17 w17 Hf.
  apply (frame_for_each _ _ (fun kv => frame_log_value _ _)) in Hf as [Hh17 _].
  returns H x w18 Hf. apply frame_getitem in Hf as [Hh18 _].
  returns H y w19 Hf. apply frame_getitem in Hf as [Hh19 _].
  returns H z w20 Hf. apply frame_getitem in Hf as [Hh20 _].
  returns H u21 w21 Hf. apply frame_log_value in Hf as [Hh21 _].
  returns H scores w22 Hf. apply frame_Logger_values in Hf as [Hh22 _].
  returns H u23 w23 Hf. apply frame_log_value in Hf as [Hh23 _].
  returns H u24 w24 Hf. apply frame_emit in Hf as [Hh24 _].
  apply frame_emit in H as [Hh25 _].
  congruence.
Qed.
End main_store.

Section one_parse.
Context {E : Env}.
Variable fs : FileSystem.

Lemma reads_csv_inj (path : string) (df df' : DataFrame) :
  reads_csv E fs path df -> reads_csv E fs path df' -> df = df'.
Proof. intros (text & Hf & Hp) (text' & Hf' & Hp'). congruence. Qed.
End one_parse.


(** ** The order of the calls *)

Section order.
Context {E : Env}.
Variable fs : FileSystem.

(** Every run's trace is the beginning of a full trace, and the whole of
    it when the run reaches its end. *)
Lemma main_trace_prefix (a : Args) (lg : option LogValues) (r : result unit) (w : World E) :
  run_main fs a lg = (r, w) ->
  exists gt_ids det_ids rels rm pm s ep,
    NoDup gt_ids /\ NoDup det_ids
    /\ trace w `prefix_of` full_trace a gt_ids det_ids rels rm pm s ep
    /\ (r = Return tt -> trace w = full_trace a gt_ids det_ids rels rm pm s ep).
Proof.
  intros H. apply main_run in H as [_ [[[e ->] Hpre]|Hwork]].
  - exists [], [], [], [], [], 0%float, 0%Z.
    split; [apply NoDup_nil_2|]. split; [apply NoDup_nil_2|].
    split; [|discriminate]. unfold full_trace. apply prefix_app_r, Hpre.
  - destruct Hwork as (boxes & labels & citems & ritems & det_ids & rm & pm & s & ep
                       & _ & _ & _ & _ & Hnd & Hpre & Hdone).
    exists (group_keys "ImageID" (concat boxes labels)), det_ids,
      (_swap_labelmap_dict (labelmap_dict_of ritems)), rm, pm, s, ep.
    split; [apply group_keys_NoDup|]. split; [exact Hnd|]. split; [exact Hpre|].
    intros Hr. destruct (Hdone Hr) as (? & ? & ? & ? & _ & _ & Ht & _). exact Ht.
Qed.

Lemma full_trace_groundtruth_first a gt_ids det_ids rels rm pm s ep i j e1 e2 :
  full_trace a gt_ids det_ids rels rm pm s ep !! i = Some e1 ->
  full_trace a gt_ids det_ids rels rm pm s ep !! j = Some e2 ->
  is_groundtruth_call e1 = true -> is_detection_call e2 = true -> i < j.
Proof.
  intros Hi Hj H1 H2. unfold full_trace, work_events in Hi, Hj.
  rewrite app_assoc in Hi, Hj.
  refine (order_split is_groundtruth_call is_detection_call _ _ i j e1 e2 _ _ Hi H1 Hj H2);
    unfold setup_events, evaluation_events, closing_events; solve_Forall.
Qed.

Lemma full_trace_evaluate_last a gt_ids det_ids rels rm pm s ep i j e1 e2 :
  full_trace a gt_ids det_ids rels rm pm s ep !! i = Some e1 ->
  full_trace a gt_ids det_ids rels rm pm s ep !! j = Some e2 ->
  (is_groundtruth_call e1 || is_detection_call e1) = true -> is_evaluate e2 = true ->
  i < j.
Proof.
  intros Hi Hj H1 H2. unfold full_trace, work_events in Hi, Hj.
  rewrite !app_assoc in Hi, Hj. rewrite <- !(app_assoc _ (log_events pm)) in Hi, Hj.
  rewrite <- !(app_assoc _ (log_events rm)) in Hi, Hj.
  rewrite <- !(app_assoc _ (evaluation_events rels rm pm)) in Hi, Hj.
  refine (order_split (fun e => is_groundtruth_call e || is_detection_call e) is_evaluate
            _ _ i j e1 e2 _ _ Hi H1 Hj H2);
    unfold setup_events, evaluation_events, closing_events; solve_Forall.
Qed.

Lemma full_trace_evaluate_once a gt_ids det_ids rels rm pm s ep (who : Who) :
  count_events (is_evaluate_of who) (full_trace a gt_ids det_ids rels rm pm s ep) = 1.
Proof.
  unfold full_trace, work_events. rewrite !count_events_app.
  rewrite !(count_events_none _ (ingest_events _ _ _)) by solve_Forall.
  rewrite !(count_events_none _ (log_events _)) by solve_Forall.
  destruct who; reflexivity.
Qed.

(** C2: in every run, each groundtruth ingestion call comes before each
    detection ingestion call, each ingestion call comes before each call
    of [evaluate], and [evaluate] is called at most once on each
    evaluator; in a run that reaches its end, exactly once. *)
Theorem main_ingests_groundtruth_then_detections_then_evaluates
    (a : Args) (lg : option LogValues) (r : result unit) (w : World E) :
  run_main fs a lg = (r, w) ->
  (forall i j e1 e2,
      trace w !! i = Some e1 -> trace w !! j = Some e2 ->
      is_groundtruth_call e1 = true -> is_detection_call e2 = true -> i < j)
  /\ (forall i j e1 e2,
         trace w !! i = Some e1 -> trace w !! j = Some e2 ->
         (is_groundtruth_call e1 || is_detection_call e1) = true ->
         is_evaluate e2 = true -> i < j)
  /\ (forall who, count_events (is_evaluate_of who) (trace w) <= 1)
  /\ (r = Return tt -> forall who, count_events (is_evaluate_of who) (trace w) = 1).
Proof.
  intros H.
  apply main_trace_prefix in H
    as (gt_ids & det_ids & rels & rm & pm & s & ep & _ & _ & Hpre & Hdone).
  split; [|split; [|split]].
  - intros i j e1 e2 Hi Hj. apply full_trace_groundtruth_first with a gt_ids det_ids rels rm pm s ep;
      eapply prefix_lookup_Some; eassumption.
  - intros i j e1 e2 Hi Hj. apply full_trace_evaluate_last with a gt_ids det_ids rels rm pm s ep;
      eapply prefix_lookup_Some; eassumption.
  - intros who. rewrite <- (full_trace_evaluate_once a gt_ids det_ids rels rm pm s ep who).
    apply count_events_prefix, Hpre.
  - intros Hr who. rewrite (Hdone Hr). apply full_trace_evaluate_once.
Qed.
End order.

(** ** One groundtruth call per image *)

Section once_per_image.
Context {E : Env}.
Variable fs : FileSystem.

Lemma groundtruth_image_ids_full a gt_ids det_ids rels rm pm s ep (who : Who) :
  groundtruth_image_ids who (full_trace a gt_ids det_ids rels rm pm s ep) = gt_ids.
Proof.
  unfold full_trace, work_events.
  unfold groundtruth_image_ids at 1. rewrite !omap_app.
  fold (groundtruth_image_ids who
          (ingest_events Add_single_ground_truth_image_info 0 gt_ids)).
  rewrite groundtruth_image_ids_ingest.
  rewrite (omap_none _ (ingest_events Add_single_detected_image_info _ _))
    by solve_Forall.
  rewrite !(omap_none _ (log_events _)) by solve_Forall.
  simpl. apply app_nil_r.
Qed.

Lemma raises_DuplicateImageError_no_groundtruth (who : Who) (seen : list string)
    (tr : list Event) :
  Forall (fun e => is_groundtruth_call e = false) tr ->
  raises_DuplicateImageError who seen tr = false.
Proof.
  intros Hf. revert seen. induction Hf as [|e tr He _ IH]; intros seen; simpl;
    [reflexivity|].
  destruct e; try discriminate; try apply IH. destruct (decide (who0 = who)); apply IH.
Qed.

Lemma raises_DuplicateImageError_skip (who : Who) (seen : list string)
    (t tr : list Event) :
  Forall (fun e => is_groundtruth_call e = false /\ is_detection_call e = false) t ->
  raises_DuplicateImageError who seen (t ++ tr) = raises_DuplicateImageError who seen tr.
Proof.
  induction 1 as [|e t [He1 He2] _ IH]; simpl; [reflexivity|].
  destruct e; try discriminate; exact IH.
Qed.

Lemma raises_DuplicateImageError_ingest (who : Who) (seen : list string) (base : nat)
    (ids : list string) (tr : list Event) :
  NoDup ids -> (forall image_id, image_id ∈ ids -> image_id ∉ seen) ->
  Forall (fun e => is_groundtruth_call e = false) tr ->
  raises_DuplicateImageError who seen
    (ingest_events Add_single_ground_truth_image_info base ids ++ tr) = false.
Proof.
  intros Hnd Hseen Htr. revert seen base Hseen.
  induction Hnd as [|image_id ids Hnotin Hnd IH]; intros seen base Hseen; simpl.
  - apply raises_DuplicateImageError_no_groundtruth, Htr.
  - assert (Hrest : forall i, i ∈ ids -> i ∉ image_id :: seen).
    { intros i Hi. rewrite not_elem_of_cons. split.
      - intros ->. contradiction.
      - apply Hseen, list_elem_of_further, Hi. }
    assert (Hhere : bool_decide (image_id ∈ seen) = false).
    { apply bool_decide_eq_false_2, Hseen, list_elem_of_here. }
    destruct who; simpl; rewrite Hhere; simpl; apply IH; assumption.
Qed.

Lemma raises_DuplicateImageError_prefix (who : Who) (seen : list string)
    (t tr : list Event) :
  t `prefix_of` tr -> raises_DuplicateImageError who seen tr = false ->
  raises_DuplicateImageError who seen t = false.
Proof.
  intros [k ->]. revert seen. induction t as [|e t IH]; intros seen; simpl;
    [reflexivity|].
  destruct e; try apply IH.
  - destruct (decide (who0 = who)); [|apply IH].
    intros Hor. apply orb_false_iff in Hor as [-> Hr]. simpl. apply IH, Hr.
  - destruct (decide (who0 = who)); apply IH.
Qed.

Lemma raises_DuplicateImageError_full a gt_ids det_ids rels rm pm s ep (who : Who) :
  NoDup gt_ids ->
  raises_DuplicateImageError who [] (full_trace a gt_ids det_ids rels rm pm s ep) = false.
Proof.
  intros Hnd. unfold full_trace, work_events.
  rewrite raises_DuplicateImageError_skip
    by (unfold setup_events; repeat constructor).
  apply raises_DuplicateImageError_ingest; [exact Hnd | |].
  - intros i _. apply not_elem_of_nil.
  - unfold evaluation_events, closing_events. solve_Forall.
Qed.

(** C7: in every run, the groundtruth ingestion calls on an evaluator carry
    pairwise distinct image ids, so the evaluator's duplicate check never
    fires; in a run that reaches its end, the ids of these calls are the
    distinct values of the [ImageID] column of the annotations, each once. *)
Theorem main_adds_groundtruth_once_per_image
    (a : Args) (lg : option LogValues) (r : result unit) (w : World E) :
  run_main fs a lg = (r, w) ->
  forall who,
    NoDup (groundtruth_image_ids who (trace w))
    /\ raises_DuplicateImageError who [] (trace w) = false
    /\ (r = Return tt ->
        exists boxes labels,
          reads_csv E fs (input_annotations_boxes a) boxes
          /\ reads_csv E fs (input_annotations_labels a) labels
          /\ groundtruth_image_ids who (trace w)
             = group_keys "ImageID" (concat boxes labels)
          /\ forall image_id,
               image_id ∈ groundtruth_image_ids who (trace w)
               <-> image_id ∈ column_values "ImageID" (concat boxes labels)).
Proof.
  intros H who. split; [|split].
  - apply main_trace_prefix in H
      as (gt_ids & det_ids & rels & rm & pm & s & ep & Hnd & _ & Hpre & _).
    apply (NoDup_prefix _ gt_ids); [|exact Hnd].
    rewrite <- (groundtruth_image_ids_full a gt_ids det_ids rels rm pm s ep who).
    apply omap_prefix, Hpre.
  - apply main_trace_prefix in H
      as (gt_ids & det_ids & rels & rm & pm & s & ep & Hnd & _ & Hpre & _).
    eapply raises_DuplicateImageError_prefix; [exact Hpre|].
    apply raises_DuplicateImageError_full, Hnd.
  - intros ->. apply main_run in H as [_ [[[e [=]] _]|Hwork]].
    destruct Hwork as (boxes & labels & citems & ritems & det_ids & rm & pm & s & ep
                       & Hb & Hl & _ & _ & _ & _ & Hdone).
    destruct (Hdone eq_refl) as (? & ? & ? & ? & _ & _ & Ht & _).
    exists boxes, labels. split; [exact Hb|]. split; [exact Hl|].
    rewrite Ht, groundtruth_image_ids_full. split; [reflexivity|].
    intros image_id. apply group_keys_elem.
Qed.
End once_per_image.

(** ** The same calls on both evaluators *)

Section same_calls.
Context {E : Env}.
Variable fs : FileSystem.

Lemma ingestion_sequence_app (who : Who) (t1 t2 : list Event) :
  ingestion_sequence who (t1 ++ t2)
  = ingestion_sequence who t1 ++ ingestion_sequence who t2.
Proof. unfold ingestion_sequence. apply omap_app. Qed.

Lemma ingestion_sequence_cons (who : Who) (e : Event) (t : list Event) :
  ingestion_sequence who (e :: t)
  = match ingestion_of who e with
    | Some c => c :: ingestion_sequence who t
    | None => ingestion_sequence who t
    end.
Proof. reflexivity. Qed.

Lemma ingestion_sequence_none (who : Who) (t : list Event) :
  Forall (fun e => is_groundtruth_call e = false /\ is_detection_call e = false) t ->
  ingestion_sequence who t = [].
Proof.
  intros Hf. unfold ingestion_sequence. apply omap_none.
  eapply Forall_impl; [exact Hf|]. intros e [H1 H2].
  destruct e; try reflexivity; discriminate.
Qed.

Lemma ingestion_sequence_full a gt_ids det_ids rels rm pm s ep (who : Who) :
  ingestion_sequence who (full_trace a gt_ids det_ids rels rm pm s ep)
  = ingest_calls Groundtruth 0 gt_ids ++ ingest_calls Detections (length gt_ids) det_ids.
Proof.
  unfold full_trace, work_events. rewrite !ingestion_sequence_app.
  rewrite ingestion_sequence_groundtruth, ingestion_sequence_detections.
  rewrite !(ingestion_sequence_none who (log_events _))
    by (apply Forall_log_events; intros; split; reflexivity).
  simpl. rewrite app_nil_r. reflexivity.
Qed.

Lemma balanced_none (t : list Event) :
  Forall (fun e => is_groundtruth_call e = false /\ is_detection_call e = false) t ->
  balanced t.
Proof. intros Hf. left. rewrite !ingestion_sequence_none by exact Hf. reflexivity. Qed.

Lemma balanced_app (t1 t2 : list Event) :
  ingestion_sequence Relation t1 = ingestion_sequence Phrase t1 ->
  balanced t2 -> balanced (t1 ++ t2).
Proof.
  intros H1 [H2|(e & c & Hlast & He & H2)].
  - left. rewrite !ingestion_sequence_app, H1, H2. reflexivity.
  - right. exists e, c. split; [rewrite last_app, Hlast; reflexivity|].
    split; [exact He|]. rewrite !ingestion_sequence_app, H1, H2, app_assoc.
    reflexivity.
Qed.

Lemma Forall_prefix {A : Type} (P : A -> Prop) (s l : list A) :
  s `prefix_of` l -> Forall P l -> Forall P s.
Proof. intros [k ->] Hf. apply Forall_app in Hf as [Hf _]. exact Hf. Qed.

Lemma balanced_prefix_ingest (call : Who -> string -> nat -> Event)
    (method : Ingestion) (base : nat) (ids : list string) (t : list Event) :
  (forall who who' image_id d,
      ingestion_of who (call who' image_id d)
      = if decide (who' = who) then Some (method, image_id, d) else None) ->
  t `prefix_of` ingest_events call base ids -> balanced t.
Proof.
  intros Hcall. revert base t. induction ids as [|image_id ids IH]; intros base t Hpre.
  - simpl in Hpre. apply prefix_nil_inv in Hpre as ->. left. reflexivity.
  - simpl in Hpre. destruct t as [|e1 t]; [left; reflexivity|].
    apply prefix_cons_inv_1 in Hpre as He1. apply prefix_cons_inv_2 in Hpre. subst e1.
    destruct t as [|e2 t].
    + right. exists (call Relation image_id base), (method, image_id, base).
      split; [reflexivity|]. split; [apply Hcall|].
      rewrite !ingestion_sequence_cons, !Hcall. reflexivity.
    + apply prefix_cons_inv_1 in Hpre as He2. apply prefix_cons_inv_2 in Hpre. subst e2.
      apply IH in Hpre as [Heq|(e & c & Hlast & He & Heq)].
      * left. rewrite !ingestion_sequence_cons, !Hcall. simpl. rewrite Heq. reflexivity.
      * right. exists e, c. split; [|split; [exact He|]].
        -- destruct t as [|e3 t]; [discriminate | exact Hlast].
        -- rewrite !ingestion_sequence_cons, !Hcall. simpl. rewrite Heq. reflexivity.
Qed.

Lemma balanced_prefix_full a gt_ids det_ids rels rm pm s ep (t : list Event) :
  t `prefix_of` full_trace a gt_ids det_ids rels rm pm s ep -> balanced t.
Proof.
  unfold full_trace, work_events. intros Hpre.
  apply prefix_app_cases in Hpre as [Hpre|(t1 & -> & Hpre)].
  { apply balanced_none. eapply Forall_prefix; [exact Hpre|].
    unfold setup_events. repeat constructor. }
  apply balanced_app;
    [rewrite !ingestion_sequence_none by (unfold setup_events; repeat constructor);
     reflexivity|].
  apply prefix_app_cases in Hpre as [Hpre|(t2 & -> & Hpre)].
  { eapply balanced_prefix_ingest; [|exact Hpre]. intros. reflexivity. }
  apply balanced_app; [rewrite !ingestion_sequence_groundtruth; reflexivity|].
  apply prefix_app_cases in Hpre as [Hpre|(t3 & -> & Hpre)].
  { apply balanced_none. eapply Forall_prefix; [exact Hpre|]. repeat constructor. }
  apply balanced_app; [reflexivity|].
  apply prefix_app_cases in Hpre as [Hpre|(t4 & -> & Hpre)].
  { eapply balanced_prefix_ingest; [|exact Hpre]. intros. reflexivity. }
  apply balanced_app; [rewrite !ingestion_sequence_detections; reflexivity|].
  apply balanced_none. eapply Forall_prefix; [exact Hpre|].
  unfold evaluation_events, closing_events.
  repeat first [ apply Forall_app; split
               | apply Forall_log_events; intros; split; reflexivity
               | apply Forall_cons; split; [split; reflexivity|]
               | apply Forall_nil_2 ].
Qed.

(** C4: the two evaluators receive the same ingestion calls: the same
    method with the same image id and the same dictionary object, in the
    same order.  They are equal in every run, but for a run that an
    ingestion call on the relation evaluator ends with an exception: that
    call, the last of the trace, is the one call the phrase evaluator has
    not received.  In a run that reaches its end the calls are those of
    the data read: the groundtruth calls name each ImageID of the
    concatenated annotations once, the detection calls that follow name
    each ImageID of the predictions once; the object a call refers to is
    the dictionary built from the rows of its image and the two
    labelmaps, and it is what the store holds at the call's reference
    when the evaluators leave the store as it is. *)
Theorem main_feeds_both_evaluators_alike
    (a : Args) (lg : option LogValues) (r : result unit) (w : World E) :
  run_main fs a lg = (r, w) ->
  (ingestion_sequence Relation (trace w) = ingestion_sequence Phrase (trace w)
   \/ exists e c,
        r <> Return tt /\ last (trace w) = Some e /\ ingestion_of Relation e = Some c
        /\ ingestion_sequence Relation (trace w)
           = ingestion_sequence Phrase (trace w) ++ [c])
  /\ (r = Return tt ->
      ingestion_sequence Relation (trace w) = ingestion_sequence Phrase (trace w)
      /\ exists boxes labels class_items relationship_items predictions gt_ids det_ids,
           reads_csv E fs (input_annotations_boxes a) boxes
           /\ reads_csv E fs (input_annotations_labels a) labels
           /\ reads_labelmap E fs (input_class_labelmap a) class_items
           /\ reads_labelmap E fs (input_relationship_labelmap a) relationship_items
           /\ reads_csv E fs (input_predictions a) predictions
           /\ NoDup gt_ids
           /\ (forall image_id,
                  image_id ∈ gt_ids
                  <-> image_id ∈ column_values "ImageID" (concat boxes labels))
           /\ NoDup det_ids
           /\ (forall image_id,
                  image_id ∈ det_ids <-> image_id ∈ column_values "ImageID" predictions)
           /\ ingestion_sequence Phrase (trace w)
              = ingest_calls Groundtruth 0 gt_ids
                ++ ingest_calls Detections (length gt_ids) det_ids
           /\ (forall i image_id,
                  gt_ids !! i = Some image_id ->
                  exists d,
                    build_groundtruth_vrd_dictionary E
                      (rows_of_key "ImageID" image_id (concat boxes labels))
                      (labelmap_dict_of class_items)
                      (labelmap_dict_of relationship_items) = Return d
                    /\ (keeps_store (VRDRelationDetectionEvaluator E) ->
                        keeps_store (VRDPhraseDetectionEvaluator E) ->
                        heap w !! i = Some d))
           /\ (forall j image_id,
                  det_ids !! j = Some image_id ->
                  exists d,
                    build_predictions_vrd_dictionary E
                      (rows_of_key "ImageID" image_id predictions)
                      (labelmap_dict_of class_items)
                      (labelmap_dict_of relationship_items) = Return d
                    /\ (keeps_store (VRDRelationDetectionEvaluator E) ->
                        keeps_store (VRDPhraseDetectionEvaluator E) ->
                        heap w !! (length gt_ids + j) = Some d))).
Proof.
  intros H. pose proof H as Hrun.
  apply main_trace_prefix in H
    as (gt_ids & det_ids & rels & rm & pm & s & ep & _ & _ & Hpre & Hdone).
  split.
  - destruct r as [[]|e0].
    + left. rewrite (Hdone eq_refl), !ingestion_sequence_full. reflexivity.
    + destruct (balanced_prefix_full a gt_ids det_ids rels rm pm s ep _ Hpre)
        as [Heq|(e & c & Hlast & He & Heq)]; [left; exact Heq|].
      right. exists e, c. split; [discriminate|]. auto.
  - intros ->. clear gt_ids det_ids rels rm pm s ep Hpre Hdone.
    pose proof Hrun as Hstore. apply main_store in Hstore
      as (boxes & labels & citems & ritems & preds & gt_ds & det_ds
          & Hb & Hl & Hc & Hr & Hp & Hgt & Hdet & Hheap).
    apply main_run in Hrun as [_ [[[e [=]] _]|Hwork]].
    destruct Hwork as (boxes' & labels' & citems' & ritems' & det_ids & rm & pm & s & ep
                       & Hb' & Hl' & _ & _ & _ & _ & Hdone).
    destruct (Hdone eq_refl) as (preds' & x & y & z & Hp' & -> & Ht & _).
    rewrite (reads_csv_inj _ _ _ _ Hb' Hb), (reads_csv_inj _ _ _ _ Hl' Hl),
      (reads_csv_inj _ _ _ _ Hp' Hp) in Ht.
    split; [rewrite Ht, !ingestion_sequence_full; reflexivity|].
    exists boxes, labels, citems, ritems, preds,
      (group_keys "ImageID" (concat boxes labels)), (group_keys "ImageID" preds).
    repeat (split; [assumption|]).
    split; [apply group_keys_NoDup|]. split; [intros; apply group_keys_elem|].
    split; [apply group_keys_NoDup|]. split; [intros; apply group_keys_elem|].
    split; [rewrite Ht; apply ingestion_sequence_full|].
    split.
    + intros i image_id Hi.
      destruct (Forall2_lookup_l _ _ _ _ _ Hgt Hi) as (d & Hd & Hbuild).
      exists d. split; [exact Hbuild|]. intros Hkr Hkp.
      rewrite (Hheap Hkr Hkp), store_all_before
        by (apply lookup_lt_Some in Hd; lia).
      apply (store_all_lookup gt_ds 0 i ∅ d Hd).
    + intros j image_id Hj.
      destruct (Forall2_lookup_l _ _ _ _ _ Hdet Hj) as (d & Hd & Hbuild).
      exists d. split; [exact Hbuild|]. intros Hkr Hkp.
      rewrite (Hheap Hkr Hkp), (Forall2_length _ _ _ Hgt).
      apply store_all_lookup. exact Hd.
Qed.
End same_calls.

(** ** The metrics and the score *)

Ltac elem_cases H :=
  repeat (apply elem_of_cons in H as [H|H]; [try discriminate|]);
  try (apply elem_of_nil in H as []).

Section metrics.
Context {E : Env}.
Variable fs : FileSystem.

Lemma logger_after_Some (v : LogValues) (t : list Event) :
  exists v', logger_after E (Some v) t = Some v'
             /\ forall name, default [] (dict_get v' name)
                             = default [] (dict_get v name) ++ logged name t.
Proof.
  unfold logger_after. revert v. induction t as [|e t IH]; intros v; simpl.
  - exists v. split; [reflexivity|]. intros name. rewrite app_nil_r. reflexivity.
  - destruct e; try (destruct (IH v) as (v' & Hv' & Hget); exists v'; split;
                     [exact Hv' | exact Hget]).
    simpl.
    destruct (IH (dict_set v name (default [] (dict_get v name) ++ [value])))
      as (v' & Hv' & Hget).
    exists v'. split; [exact Hv'|]. intros name'. rewrite Hget, dict_get_set.
    unfold logged at 2. simpl. fold (logged name' t).
    destruct (decide (name = name')) as [->|Hne]; simpl.
    + rewrite <- app_assoc. reflexivity.
    + reflexivity.
Qed.

Lemma logged_full a gt_ids det_ids rels rm pm s ep (name : string) :
  logged name (full_trace a gt_ids det_ids rels rm pm s ep)
  = logged name (log_events rm) ++ logged name (log_events pm)
    ++ logged name (closing_events s ep).
Proof.
  unfold full_trace, work_events. rewrite !logged_app.
  unfold logged at 2 4. rewrite !(omap_none _ (ingest_events _ _ _)) by solve_Forall.
  reflexivity.
Qed.

Lemma elem_of_full_trace a gt_ids det_ids rels rm pm s ep (e : Event) :
  e ∈ full_trace a gt_ids det_ids rels rm pm s ep ->
  e ∈ setup_events a
  \/ (exists who image_id d, e = Add_single_ground_truth_image_info who image_id d)
  \/ e = Read_csv (input_predictions a)
  \/ (exists who image_id d, e = Add_single_detected_image_info who image_id d)
  \/ e ∈ evaluation_events rels rm pm
  \/ e ∈ log_events rm \/ e ∈ log_events pm
  \/ e ∈ closing_events s ep.
Proof.
  unfold full_trace, work_events. rewrite !elem_of_app.
  intros [H|[H|[H|[H|[H|[H|[H|H]]]]]]]; auto 10.
  - apply elem_of_ingest_events in H. auto.
  - apply list_elem_of_singleton in H. auto.
  - apply elem_of_ingest_events in H. auto 10.
Qed.

Lemma evaluate_in_full_trace a gt_ids det_ids rels rm pm s ep who rels' :
  Evaluate who rels' ∈ full_trace a gt_ids det_ids rels rm pm s ep -> rels' = rels.
Proof.
  intros H. apply elem_of_full_trace in H as [H|[H|[H|[H|[H|[H|[H|H]]]]]]].
  - unfold setup_events in H. elem_cases H.
  - destruct H as (? & ? & ? & [=]).
  - discriminate.
  - destruct H as (? & ? & ? & [=]).
  - unfold evaluation_events in H. elem_cases H; injection H as _ ->; reflexivity.
  - apply elem_of_log_events in H as (? & ? & _ & [=]).
  - apply elem_of_log_events in H as (? & ? & _ & [=]).
  - unfold closing_events in H. elem_cases H.
Qed.

Lemma returned_in_full_trace a gt_ids det_ids rels rm pm s ep who m :
  Evaluate_returned who m ∈ full_trace a gt_ids det_ids rels rm pm s ep ->
  m = match who with Relation => rm | Phrase => pm end.
Proof.
  intros H. apply elem_of_full_trace in H as [H|[H|[H|[H|[H|[H|[H|H]]]]]]].
  - unfold setup_events in H. elem_cases H.
  - destruct H as (? & ? & ? & [=]).
  - discriminate.
  - destruct H as (? & ? & ? & [=]).
  - unfold evaluation_events in H. elem_cases H; injection H as -> ->; reflexivity.
  - apply elem_of_log_events in H as (? & ? & _ & [=]).
  - apply elem_of_log_events in H as (? & ? & _ & [=]).
  - unfold closing_events in H. elem_cases H.
Qed.

(** What a run that reaches its end has done. *)
Lemma main_completed (a : Args) (lg : option LogValues) (w : World E) :
  run_main fs a lg = (Return tt, w) ->
  exists boxes labels class_items relationship_items predictions
         relation_metrics phrase_metrics relation_mAP relation_recall phrase_mAP epoch_id,
    reads_csv E fs (input_annotations_boxes a) boxes
    /\ reads_csv E fs (input_annotations_labels a) labels
    /\ reads_labelmap E fs (input_class_labelmap a) class_items
    /\ reads_labelmap E fs (input_relationship_labelmap a) relationship_items
    /\ reads_csv E fs (input_predictions a) predictions
    /\ dict_get relation_metrics relation_mAP_key = Some relation_mAP
    /\ dict_get relation_metrics relation_recall_key = Some relation_recall
    /\ dict_get phrase_metrics phrase_mAP_key = Some phrase_mAP
    /\ trace w = full_trace a (group_keys "ImageID" (concat boxes labels))
                   (group_keys "ImageID" predictions)
                   (_swap_labelmap_dict (labelmap_dict_of relationship_items))
                   relation_metrics phrase_metrics
                   (composite_score relation_mAP relation_recall phrase_mAP) epoch_id
    /\ logger w = logger_after E lg (trace w).
Proof.
  intros H. apply main_run in H as [Hl [[[e [=]] _]|Hwork]].
  destruct Hwork as (boxes & labels & citems & ritems & det_ids & rm & pm & s & ep
                     & Hb & Hlab & Hc & Hr & _ & _ & Hdone).
  destruct (Hdone eq_refl) as (preds & x & y & z & Hp & -> & Ht & Hx & Hy & Hz & ->).
  exists boxes, labels, citems, ritems, preds, rm, pm, x, y, z, ep.
  repeat (split; [assumption|]). assumption.
Qed.

Lemma returned_iff a gt_ids det_ids rels rm pm s ep (tr : list Event) who m :
  tr = full_trace a gt_ids det_ids rels rm pm s ep ->
  Evaluate_returned who m ∈ tr <->
  m = match who with Relation => rm | Phrase => pm end.
Proof.
  intros ->. split; [apply returned_in_full_trace|].
  intros ->. unfold full_trace, work_events, evaluation_events.
  rewrite !elem_of_app. right. right. right. right. left.
  destruct who; [apply list_elem_of_further, list_elem_of_here|].
  do 3 apply list_elem_of_further. apply list_elem_of_here.
Qed.

Lemma find_last_is_Some {V : Type} (d : PyDict string V) (k : string) :
  is_Some (dict_get d k) ->
  is_Some (find_last (fun kv : string * V => bool_decide (fst kv = k)) d).
Proof.
  induction d as [|[k0 v0] d IH]; simpl; [intros [? [=]]|].
  destruct (decide (k0 = k)) as [->|Hne].
  - intros _. destruct (find_last _ d); [eauto|].
    rewrite bool_decide_eq_true_2 by reflexivity. eauto.
  - intros Hs. destruct (IH Hs) as [kv ->]. eauto.
Qed.

Lemma assign_all_is_Some {V : Type} (d kvs : PyDict string V) (k : string) :
  is_Some (dict_get d k) \/ is_Some (dict_get kvs k) ->
  is_Some (dict_get (assign_all d kvs) k).
Proof.
  rewrite assign_all_get. intros [Hd|Hk].
  - destruct (find_last _ kvs); [eauto | exact Hd].
  - destruct (find_last_is_Some kvs k Hk) as [kv ->]. eauto.
Qed.

(** C1: in a run that reaches its end, the value logged last under
    [eval_epoch.score], which is also the last value the logger holds under
    that name, is the composite of the metrics the two evaluators returned:
    0.4 times the relation mAP plus 0.2 times the relation Recall@50 plus
    0.4 times the phrase mAP.  The weights are constants of [main]: the
    statement holds for every environment, file system, argument namespace
    and logger state. *)
Theorem main_logs_composite_score (a : Args) (lg : option LogValues) (w : World E) :
  run_main fs a lg = (Return tt, w) ->
  exists relation_metrics phrase_metrics relation_mAP relation_recall phrase_mAP,
    (forall who m,
        Evaluate_returned who m ∈ trace w <->
        m = match who with Relation => relation_metrics | Phrase => phrase_metrics end)
    /\ dict_get relation_metrics "VRDMetric_Relationships_mAP@0.5IOU" = Some relation_mAP
    /\ dict_get relation_metrics "VRDMetric_Relationships_Recall@50@0.5IOU"
       = Some relation_recall
    /\ dict_get phrase_metrics "VRDMetric_Phrases_mAP@0.5IOU" = Some phrase_mAP
    /\ last (logged "eval_epoch.score" (trace w))
       = Some (VFloat (composite_score relation_mAP relation_recall phrase_mAP))
    /\ exists values,
         logger w = Some values
         /\ last (default [] (dict_get values "eval_epoch.score"))
            = Some (VFloat (composite_score relation_mAP relation_recall phrase_mAP)).
Proof.
  intros H. apply main_completed in H
    as (boxes & labels & citems & ritems & preds & rm & pm & x & y & z & ep
        & _ & _ & _ & _ & _ & Hx & Hy & Hz & Ht & Hl).
  exists rm, pm, x, y, z.
  assert (Hlast : last (logged "eval_epoch.score" (trace w))
                  = Some (VFloat (composite_score x y z))).
  { rewrite Ht, logged_full.
    change (logged "eval_epoch.score" (closing_events (composite_score x y z) ep))
      with [VFloat (composite_score x y z)].
    rewrite !app_assoc. apply last_snoc. }
  split; [|repeat (split; [assumption|])].
  - intros who m. eapply returned_iff, Ht.
  - rewrite Hl.
    assert (Hnew : exists rest, trace w = Logger_new (dirname (output_metrics a))
                     (split_head ".json" (basename (output_metrics a))) :: rest).
    { rewrite Ht. unfold full_trace, setup_events. simpl. eauto. }
    destruct Hnew as (rest & Hrest). rewrite Hrest in Hlast |- *.
    unfold logger_after. simpl. fold (logger_after E).
    destruct (logger_after_Some (initial_values E a lg) rest) as (v' & Hv' & Hget).
    exists v'. split.
    + rewrite <- Hv'. unfold initial_values. reflexivity.
    + rewrite Hget. change (logged "eval_epoch.score" (Logger_new _ _ :: rest))
        with (logged "eval_epoch.score" rest) in Hlast.
      rewrite last_app, Hlast. reflexivity.
Qed.

(** C3: in a run that reaches its end, the metric mapping (what the two
    evaluators returned, joined, with the composite under [score]) holds
    the relation mAP, the relation Recall@50, the phrase mAP and the score,
    each with a binary64 value; every metric returned and the score are
    handed to the logger under [eval_epoch.<name>]. *)
Theorem main_produces_the_required_metrics
    (a : Args) (lg : option LogValues) (w : World E) :
  run_main fs a lg = (Return tt, w) ->
  exists relation_metrics phrase_metrics score,
    (forall who m,
        Evaluate_returned who m ∈ trace w <->
        m = match who with Relation => relation_metrics | Phrase => phrase_metrics end)
    /\ is_Some (dict_get relation_metrics "VRDMetric_Relationships_mAP@0.5IOU")
    /\ is_Some (dict_get relation_metrics "VRDMetric_Relationships_Recall@50@0.5IOU")
    /\ is_Some (dict_get phrase_metrics "VRDMetric_Phrases_mAP@0.5IOU")
    /\ (forall k,
           k ∈ ["VRDMetric_Relationships_mAP@0.5IOU";
                "VRDMetric_Relationships_Recall@50@0.5IOU";
                "VRDMetric_Phrases_mAP@0.5IOU"; "score"] ->
           exists v : float,
             dict_get (metric_mapping relation_metrics phrase_metrics score) k = Some v)
    /\ dict_get (metric_mapping relation_metrics phrase_metrics score) "score" = Some score
    /\ (forall k v,
           (k, v) ∈ relation_metrics \/ (k, v) ∈ phrase_metrics ->
           Logger_log_value ("eval_epoch." ++ k)%string (VFloat v) ∈ trace w)
    /\ Logger_log_value "eval_epoch.score" (VFloat score) ∈ trace w.
Proof.
  intros H. apply main_completed in H
    as (boxes & labels & citems & ritems & preds & rm & pm & x & y & z & ep
        & _ & _ & _ & _ & _ & Hx & Hy & Hz & Ht & _).
  exists rm, pm, (composite_score x y z).
  unfold relation_mAP_key, relation_recall_key, phrase_mAP_key in *.
  split; [intros who m; eapply returned_iff, Ht|].
  split; [eauto|]. split; [eauto|]. split; [eauto|].
  split; [|split; [|split]].
  - intros k Hk.
    change (is_Some (dict_get (metric_mapping rm pm (composite_score x y z)) k)).
    unfold metric_mapping. rewrite dict_get_set.
    destruct (decide ("score" = k)); [eauto|].
    apply assign_all_is_Some. elem_cases Hk; subst k; eauto. congruence.
  - unfold metric_mapping. rewrite dict_get_set. rewrite decide_True; reflexivity.
  - intros k v Hkv. rewrite Ht. unfold full_trace, work_events. rewrite !elem_of_app.
    do 5 right. destruct Hkv as [Hkv|Hkv]; [left | right; left];
      apply elem_of_log_events; eauto.
  - rewrite Ht. unfold full_trace, work_events, closing_events. rewrite !elem_of_app.
    do 7 right. apply list_elem_of_here.
Qed.
End metrics.

(** ** The label maps in [main] *)

Section labelmaps.
Context {E : Env}.
Variable fs : FileSystem.

Lemma elem_of_prefix {A : Type} (x : A) (s l : list A) :
  s `prefix_of` l -> x ∈ s -> x ∈ l.
Proof. intros [k ->] Hx. apply elem_of_app. left. exact Hx. Qed.

(** C6, in the form that holds: [_load_labelmap] returns a dictionary from
    name to id with one entry per distinct item name, holding the id of the
    last item of that name; when the names are pairwise distinct this is
    one entry per item, keyed by [item.name] with value [item.id], in the
    order of the items.  [main] loads the class map and the relationship
    map from their own files, and every call of [evaluate] receives
    [_swap_labelmap_dict] of the relationship map, each entry of which is
    an entry of the relationship map turned round, and which is the inverse
    of the map when its ids are pairwise distinct. *)
Theorem main_loads_labelmaps_and_passes_the_swapped_one :
  (forall path (w : World E) d w',
      _load_labelmap fs path w = (Return d, w') ->
      exists items,
        reads_labelmap E fs path items
        /\ d = labelmap_dict_of items
        /\ dict_wf d
        /\ (forall n, dict_get d n
                      = item_id <$> find_last (fun item => bool_decide (item_name item = n))
                                              items)
        /\ (NoDup (map item_name items) -> d = map item_pair items))
  /\ (forall a lg r (w : World E),
         run_main fs a lg = (r, w) ->
         (forall who rels,
             Evaluate who rels ∈ trace w ->
             exists relationship_items,
               reads_labelmap E fs (input_relationship_labelmap a) relationship_items
               /\ rels = _swap_labelmap_dict (labelmap_dict_of relationship_items)
               /\ (forall i n, dict_get rels i = Some n ->
                               dict_get (labelmap_dict_of relationship_items) n = Some i)
               /\ (NoDup (dict_values (labelmap_dict_of relationship_items)) ->
                   forall n i, dict_get (labelmap_dict_of relationship_items) n = Some i ->
                               dict_get rels i = Some n))
         /\ (r = Return tt ->
             exists class_items relationship_items,
               reads_labelmap E fs (input_class_labelmap a) class_items
               /\ reads_labelmap E fs (input_relationship_labelmap a) relationship_items
               /\ forall who,
                    Evaluate who (_swap_labelmap_dict (labelmap_dict_of relationship_items))
                    ∈ trace w)).
Proof.
  split.
  - intros path w d w' H. apply load_labelmap_run in H as (_ & _ & Hd).
    destruct (Hd d eq_refl) as (items & Hitems & ->). exists items.
    split; [exact Hitems|]. split; [reflexivity|].
    split; [apply labelmap_dict_of_wf|].
    split; [apply labelmap_dict_of_get | apply labelmap_dict_of_distinct].
  - intros a lg r w H. split.
    + intros who rels Hin. apply main_run in H as [_ [[_ Hpre]|Hwork]].
      * apply (elem_of_prefix _ _ _ Hpre) in Hin. unfold setup_events in Hin.
        elem_cases Hin.
      * destruct Hwork as (boxes & labels & citems & ritems & det_ids & rm & pm & s & ep
                           & _ & _ & _ & Hr & _ & Hpre & _).
        apply (elem_of_prefix _ _ _ Hpre) in Hin.
        apply evaluate_in_full_trace in Hin as ->.
        exists ritems. split; [exact Hr|]. split; [reflexivity|]. split.
        -- intros i n. apply swap_labelmap_dict_sound, labelmap_dict_of_wf.
        -- intros Hnd n i. apply swap_labelmap_dict_complete, Hnd.
    + intros ->. apply main_completed in H
        as (boxes & labels & citems & ritems & preds & rm & pm & x & y & z & ep
            & _ & _ & Hc & Hr & _ & _ & _ & _ & Ht & _).
      exists citems, ritems. split; [exact Hc|]. split; [exact Hr|].
      intros who. rewrite Ht. unfold full_trace, work_events, evaluation_events.
      rewrite !elem_of_app. do 4 right. left.
      destruct who; [apply list_elem_of_here|].
      do 2 apply list_elem_of_further. apply list_elem_of_here.
Qed.
End labelmaps.

(** C6, counterexample to one entry per item: a label map that names class
    [A] twice is loaded into a dictionary with one entry for its two items,
    and the entry does not hold the id of the first item. *)
Lemma load_labelmap_merges_repeated_names :
  let items := [mkItem "A" 1; mkItem "A" 2] in
  let d := [("A", 2%Z)] in
  reads_labelmap Scenario.env Scenario.files "twice.pbtxt" items
  /\ fst (_load_labelmap (E := Scenario.env) Scenario.files "twice.pbtxt"
            (init_world Scenario.env None)) = Return d
  /\ length d <> length items
  /\ dict_get d (item_name (mkItem "A" 1)) <> Some (item_id (mkItem "A" 1)).
Proof.
  split; [exists "twice"; split; reflexivity|].
  split; [reflexivity|]. split; [discriminate|]. discriminate.
Qed.

(** ** The output path *)

Section output_path.
Context {E : Env}.
Variable fs : FileSystem.

Lemma allowed_full_trace a gt_ids det_ids rels rm pm s ep :
  Forall (allowed_event a) (full_trace a gt_ids det_ids rels rm pm s ep).
Proof.
  unfold full_trace, work_events, setup_events, evaluation_events, closing_events.
  repeat first
    [ apply Forall_nil_2
    | apply Forall_app; split
    | apply Forall_cons; split
    | apply Forall_ingest_events; intros
    | apply Forall_log_events; intros
    | exact I ]; simpl; auto.
Qed.

Lemma split_head_nil (sep : string) : split_head sep "" = "".
Proof. destruct sep; reflexivity. Qed.

Lemma split_head_cons (sep : string) (c : ascii) (s : string) :
  split_head sep (String c s)
  = if String.prefix sep (String c s) then "" else String c (split_head sep s).
Proof. reflexivity. Qed.

Lemma split_head_decompose (sep s : string) :
  exists rest, s = (split_head sep s ++ rest)%string
               /\ (rest = "" \/ String.prefix sep rest = true).
Proof.
  induction s as [|c s IH].
  - exists "". rewrite split_head_nil. split; auto.
  - rewrite split_head_cons. destruct (String.prefix sep (String c s)) eqn:Hp.
    + exists (String c s). split; [reflexivity | right; exact Hp].
    + destruct IH as (rest & Hs & Hrest). exists rest. split; [|exact Hrest].
      change (String c s = String c (split_head sep s ++ rest)%string).
      f_equal. exact Hs.
Qed.

Lemma split_head_first (sep s t1 t2 rest : string) :
  s = (split_head sep s ++ rest)%string ->
  split_head sep s = (t1 ++ t2)%string -> t2 <> "" ->
  String.prefix sep (t2 ++ rest) = false.
Proof.
  revert t1 rest. induction s as [|c s IH]; intros t1 rest Hs Ht Hne.
  - rewrite split_head_nil in Ht. destruct t1, t2; try discriminate; contradiction.
  - rewrite split_head_cons in Ht, Hs.
    destruct (String.prefix sep (String c s)) eqn:Hp.
    + destruct t1, t2; try discriminate. contradiction.
    + change (String c s = String c (split_head sep s ++ rest)%string) in Hs.
      injection Hs as Hs. destruct t1 as [|c1 t1].
      * change (String c (split_head sep s) = t2) in Ht. subst t2.
        change (String.prefix sep (String c (split_head sep s ++ rest)%string) = false).
        rewrite <- Hs. exact Hp.
      * change (String c (split_head sep s) = String c1 (t1 ++ t2)%string) in Ht.
        injection Ht as -> Ht. apply (IH t1 rest Hs Ht Hne).
Qed.

Lemma append_nil_r (s : string) : (s ++ "")%string = s.
Proof.
  induction s as [|c s IH]; [reflexivity|].
  change (String c (s ++ "")%string = String c s). rewrite IH. reflexivity.
Qed.

(** When [.json] stands in [s] at its end only, what is before it is
    [s] without this extension. *)
Lemma split_head_extension (s stem : string) :
  s = (stem ++ ".json")%string ->
  (forall t1 t2, s = (t1 ++ t2)%string -> String.prefix ".json" t2 = true -> t1 = stem) ->
  split_head ".json" s = stem.
Proof.
  intros Hs Honly. destruct (split_head_decompose ".json" s) as (rest & Hd & [->|Hp]).
  - rewrite append_nil_r in Hd.
    pose proof (split_head_first ".json" s stem ".json" "") as Hf.
    rewrite append_nil_r in Hf. specialize (Hf Hd).
    rewrite <- Hd in Hf. specialize (Hf Hs ltac:(discriminate)). discriminate.
  - apply (Honly _ rest Hd Hp).
Qed.

(** The files a run may write are those of the logger: of the singleton
    there is already, or of the one made for the output path's directory
    and stem. *)
Lemma files_written_allowed (a : Args) (tr : list Event) :
  Forall (allowed_event a) tr ->
  forall files p,
    p ∈ files_written E files tr ->
    p ∈ default [] files
    \/ p ∈ logger_files E (dirname (output_metrics a))
                       (split_head ".json" (basename (output_metrics a))).
Proof.
  induction 1 as [|e tr He _ IH]; intros files p Hp; [inversion Hp|].
  destruct e; simpl in Hp; try (apply IH; exact Hp).
  - destruct He as [-> ->]. destruct files as [fl|].
    + apply IH. exact Hp.
    + apply elem_of_app in Hp as [Hp|Hp]; [right; exact Hp|].
      apply IH in Hp as [Hp|Hp]; right; exact Hp.
  - apply elem_of_app in Hp as [Hp|Hp]; [left; exact Hp | apply IH; exact Hp].
  - destruct He as [-> _]. apply IH. exact Hp.
Qed.

(** C10, in the form that holds: [main] uses the output path only for the
    logger: the directory it passes is the path's [dirname] and the run
    name is what stands in the path's [basename] before the first [.json]
    (the basename less its extension when [.json] stands at its end only).
    A run depends on the output path through these two strings only; it
    opens no file but the two label maps, for reading, and reads no CSV
    file but the three inputs, so [main] itself writes no metrics file,
    and the metrics go to the logger.  On disk a run writes the logger's
    files and no other: those of the singleton there was, or those the
    logger keeps for this directory and stem; a run of a fresh process
    that reaches its end has written each of the latter.  Whether the
    output path is one of them is the logger's matter. *)
Theorem main_uses_output_path_for_the_logger_only :
  (forall a1 a2 lg,
      inputs_of a1 = inputs_of a2 ->
      dirname (output_metrics a1) = dirname (output_metrics a2) ->
      split_head ".json" (basename (output_metrics a1))
      = split_head ".json" (basename (output_metrics a2)) ->
      run_main (E := E) fs a1 lg = run_main fs a2 lg)
  /\ (forall a lg r (w : World E),
         run_main fs a lg = (r, w) -> Forall (allowed_event a) (trace w))
  /\ (forall a lg r (w : World E) files p,
         run_main fs a lg = (r, w) ->
         p ∈ files_written E files (trace w) ->
         p ∈ default [] files
         \/ p ∈ logger_files E (dirname (output_metrics a))
                            (split_head ".json" (basename (output_metrics a))))
  /\ (forall a (w : World E) p,
         run_main fs a None = (Return tt, w) ->
         p ∈ logger_files E (dirname (output_metrics a))
                          (split_head ".json" (basename (output_metrics a))) ->
         p ∈ files_written E None (trace w))
  /\ (forall a lg (w : World E),
         run_main fs a lg = (Return tt, w) ->
         (forall who m, Evaluate_returned who m ∈ trace w ->
                        forall name x, (name, x) ∈ m ->
                          Logger_log_value ("eval_epoch." ++ name)%string (VFloat x)
                          ∈ trace w))
  /\ (forall p,
         exists rest,
           basename p = (split_head ".json" (basename p) ++ rest)%string
           /\ (rest = "" \/ String.prefix ".json" rest = true)
           /\ forall t1 t2,
                split_head ".json" (basename p) = (t1 ++ t2)%string -> t2 <> "" ->
                String.prefix ".json" (t2 ++ rest) = false)
  /\ (forall p stem,
         basename p = (stem ++ ".json")%string ->
         (forall t1 t2, basename p = (t1 ++ t2)%string ->
                        String.prefix ".json" t2 = true -> t1 = stem) ->
         split_head ".json" (basename p) = stem).
Proof.
  assert (Hallowed : forall a lg r (w : World E),
             run_main fs a lg = (r, w) -> Forall (allowed_event a) (trace w)).
  { intros a lg r w H.
    apply main_trace_prefix in H
      as (gt_ids & det_ids & rels & rm & pm & s & ep & _ & _ & [k Hk] & _).
    pose proof (allowed_full_trace a gt_ids det_ids rels rm pm s ep) as Hall.
    rewrite Hk in Hall. apply Forall_app in Hall as [Hall _]. exact Hall. }
  split; [|split; [|split; [|split; [|split; [|split]]]]].
  - intros [b1 l1 p1 c1 r1 o1] [b2 l2 p2 c2 r2 o2] lg. unfold inputs_of. simpl.
    intros [= -> -> -> -> ->] Hd Hn. unfold run_main, main. simpl.
    rewrite Hd, Hn. reflexivity.
  - exact Hallowed.
  - intros a lg r w files p H. apply files_written_allowed. eapply Hallowed, H.
  - intros a w p H Hp. apply main_completed in H
      as (boxes & labels & citems & ritems & preds & rm & pm & x' & y & z & ep
          & _ & _ & _ & _ & _ & _ & _ & _ & Ht & _).
    rewrite Ht. unfold full_trace, setup_events. simpl.
    apply elem_of_app. left. exact Hp.
  - intros a lg w H who m Hin name x Hx. apply main_completed in H
      as (boxes & labels & citems & ritems & preds & rm & pm & x' & y & z & ep
          & _ & _ & _ & _ & _ & _ & _ & _ & Ht & _).
    rewrite Ht in Hin |- *. apply returned_in_full_trace in Hin.
    unfold full_trace, work_events. rewrite !elem_of_app. do 5 right.
    destruct who; subst m; [left | right; left]; apply elem_of_log_events; eauto.
  - intros p. destruct (split_head_decompose ".json" (basename p)) as (rest & Hs & Hr).
    exists rest. split; [exact Hs|]. split; [exact Hr|].
    intros t1 t2. apply split_head_first. exact Hs.
  - intros p stem. apply split_head_extension.
Qed.
End output_path.

(** C10, counterexample to the run name being the basename stripped of
    [.json]: for the output path [out/run.json.bak] the run name handed to
    the logger is [run], which is the basename neither without a [.json]
    suffix nor without its [.json]. *)
Lemma run_name_is_cut_at_first_json :
  let a := mkArgs "gt/boxes.csv" "gt/labels.csv" "pred.csv" "class.pbtxt" "rel.pbtxt"
                  "out/run.json.bak" in
  hd_error (trace (snd (run_main (E := Scenario.env) Scenario.files a None)))
  = Some (Logger_new "out" "run")
  /\ basename (output_metrics a) = "run.json.bak"
  /\ remove_suffix ".json" (basename (output_metrics a)) = "run.json.bak"
  /\ remove_all ".json" (basename (output_metrics a)) = "run.bak"
  /\ "run" <> remove_suffix ".json" (basename (output_metrics a))
  /\ "run" <> remove_all ".json" (basename (output_metrics a)).
Proof.
  vm_compute. repeat split; discriminate.
Qed.

(** The logger of these runs keeps its values in [<dir_logs>/<name>.json],
    as the help of [--output_metrics] has it (an output file with json
    metrics): for the output path [out/metrics.json] the run writes this very
    path, through the logger. *)
Example logger_writes_the_output_path :
  logger_files Scenario.env (dirname (output_metrics Scenario.args))
               (split_head ".json" (basename (output_metrics Scenario.args)))
  = [output_metrics Scenario.args]
  /\ output_metrics Scenario.args
     ∈ files_written Scenario.env None (trace (snd Scenario.outcome)).
Proof.
  split; [reflexivity|]. vm_compute. apply list_elem_of_here.
Qed.

(** ** The command line *)

Section command_line.
Context {E : Env}.
Variable fs : FileSystem.

Lemma finish_status (ns : Namespace) (extras : bool) (s : Z) :
  finish ns extras = Exit s -> s = 2%Z.
Proof.
  unfold finish. destruct (existsb _ _); [intros [= <-]; reflexivity|].
  destruct extras; [intros [= <-]; reflexivity|].
  destruct (ns dest_input_annotations_boxes), (ns dest_input_annotations_labels),
    (ns dest_input_predictions), (ns dest_input_class_labelmap),
    (ns dest_input_relationship_labelmap), (ns dest_output_metrics);
    intros [= <-]; reflexivity.
Qed.

Lemma finish_Namespace (ns : Namespace) (extras : bool) (a : Args) :
  finish ns extras = Namespace_of a -> forall d, is_Some (ns d).
Proof.
  unfold finish. destruct (existsb _ _); [discriminate|].
  destruct extras; [discriminate|].
  destruct (ns dest_input_annotations_boxes) eqn:H1; [|discriminate].
  destruct (ns dest_input_annotations_labels) eqn:H2; [|discriminate].
  destruct (ns dest_input_predictions) eqn:H3; [|discriminate].
  destruct (ns dest_input_class_labelmap) eqn:H4; [|discriminate].
  destruct (ns dest_input_relationship_labelmap) eqn:H5; [|discriminate].
  destruct (ns dest_output_metrics) eqn:H6; [|discriminate].
  intros _ d. destruct d; eauto.
Qed.

Lemma supplied_cons (d : Dest) (x : string) (argv : list string) :
  supplied d argv -> supplied d (x :: argv).
Proof.
  intros (tok & e & Hin & Hp). exists tok, e. split; [|exact Hp].
  apply list_elem_of_further, Hin.
Qed.

Lemma help_requested_cons (x : string) (argv : list string) :
  help_requested argv -> help_requested (x :: argv).
Proof.
  intros (tok & e & Hin & Hp). exists tok, e. split; [|exact Hp].
  apply list_elem_of_further, Hin.
Qed.

Lemma help_explicit_status (arg_string e : string) :
  let p := match arg_string, e with
           | String "-" (String "h" _), String _ _ =>
               if all_h e then Exit 0 else Exit 2
           | _, _ => Exit 2
           end in
  p = Exit 2 \/ p = Exit 0.
Proof.
  destruct arg_string as [|[[] [] [] [] [] [] [] []] rest]; try (left; reflexivity).
  destruct rest as [|[[] [] [] [] [] [] [] []] rest]; try (left; reflexivity).
  destruct e as [|c e]; [left; reflexivity|].
  destruct (all_h (String c e)); auto.
Qed.

(** What [consume] can end with, by the argument strings left. *)
Lemma consume_spec (n : nat) :
  forall (ns : Namespace) (extras : bool) (argv : list string),
    length argv <= n ->
    match consume ns extras argv with
    | Exit s => s = 2%Z \/ (s = 0%Z /\ help_requested argv)
    | Namespace_of a => forall d, is_Some (ns d) \/ supplied d argv
    end.
Proof.
  induction n as [|n IH]; intros ns extras argv Hlen.
  - destruct argv; [|simpl in Hlen; lia]. simpl.
    destruct (finish ns extras) eqn:Hf.
    + intros d. left. eapply finish_Namespace, Hf.
    + left. eapply finish_status, Hf.
  - destruct argv as [|tok rest].
    { simpl. destruct (finish ns extras) eqn:Hf.
      + intros d. left. eapply finish_Namespace, Hf.
      + left. eapply finish_status, Hf. }
    simpl in Hlen. cbn [consume].
    destruct (String.eqb tok "--").
    { destruct (finish ns _) eqn:Hf.
      + intros d. left. eapply finish_Namespace, Hf.
      + left. eapply finish_status, Hf. }
    assert (Hrec : forall ns' extras',
               match consume ns' extras' rest with
               | Exit s => s = 2%Z \/ (s = 0%Z /\ help_requested (tok :: rest))
               | Namespace_of a => forall d, is_Some (ns' d) \/ supplied d (tok :: rest)
               end).
    { intros ns' extras'. specialize (IH ns' extras' rest ltac:(lia)).
      destruct (consume ns' extras' rest).
      - intros d. destruct (IH d); [left | right; apply supplied_cons]; assumption.
      - destruct IH as [?|[? ?]]; [left | right; split; [|apply help_requested_cons]];
          assumption. }
    destruct (parse_optional tok) as [|act e| |] eqn:Hp;
      [apply Hrec | | left; reflexivity | apply Hrec].
    assert (Hhelp : act = HelpAction -> help_requested (tok :: rest)).
    { intros ->. exists tok, e. split; [apply list_elem_of_here | exact Hp]. }
    destruct act as [|d0].
    + destruct e as [e|]; [|right; split; [reflexivity | apply Hhelp; reflexivity]].
      assert (Hgoal : forall p : Parsed,
                 p = Exit 2 \/ p = Exit 0 ->
                 match p with
                 | Exit s => s = 2%Z \/ (s = 0%Z /\ help_requested (tok :: rest))
                 | Namespace_of _ => forall d, is_Some (ns d) \/ supplied d (tok :: rest)
                 end).
      { intros p [->| ->]; [left; reflexivity|].
        right. split; [reflexivity | apply Hhelp; reflexivity]. }
      apply Hgoal. apply help_explicit_status.
    + assert (Hset : forall v rest' ,
                 (forall ns' extras',
                     match consume ns' extras' rest' with
                     | Exit s => s = 2%Z \/ (s = 0%Z /\ help_requested (tok :: rest))
                     | Namespace_of a =>
                         forall d, is_Some (ns' d) \/ supplied d (tok :: rest)
                     end) ->
                 match consume (ns_set ns d0 v) extras rest' with
                 | Exit s => s = 2%Z \/ (s = 0%Z /\ help_requested (tok :: rest))
                 | Namespace_of a => forall d, is_Some (ns d) \/ supplied d (tok :: rest)
                 end).
      { intros v rest' Hr. specialize (Hr (ns_set ns d0 v) extras).
        destruct (consume (ns_set ns d0 v) extras rest'); [|exact Hr].
        intros d. destruct (Hr d) as [Hs|Hs]; [|right; exact Hs].
        unfold ns_set in Hs. destruct (decide (d = d0)) as [->|Hne]; [|left; exact Hs].
        right. exists tok, e. split; [apply list_elem_of_here | exact Hp]. }
      destruct e as [v|]; [apply Hset, Hrec|].
      destruct rest as [|v rest']; [left; reflexivity|].
      destruct (is_value v); [|left; reflexivity].
      apply Hset. intros ns' extras'.
      specialize (IH ns' extras' rest' ltac:(simpl in Hlen; lia)).
      destruct (consume ns' extras' rest').
      * intros d. destruct (IH d); [left; assumption|].
        right. do 2 apply supplied_cons. assumption.
      * destruct IH as [?|[? ?]]; [left; assumption|].
        right. split; [assumption|]. do 2 apply help_requested_cons. assumption.
Qed.

Lemma parse_args_spec (argv : list string) :
  match parse_args argv with
  | Exit s => s = 2%Z \/ (s = 0%Z /\ help_requested argv)
  | Namespace_of a => forall d, supplied d argv
  end.
Proof.
  unfold parse_args. destruct (existsb _ _); [left; reflexivity|].
  pose proof (consume_spec (length argv) ns_empty false argv (le_n _)) as H.
  destruct (consume ns_empty false argv); [|exact H].
  intros d. destruct (H d) as [[? [=]]|Hs]. exact Hs.
Qed.

(** C8, in the form that holds: the script declares six options, all of
    them required; the parser accepts [-h] and [--help] besides, and ends
    the process with status 0 only when help is asked for.  When no help
    is asked for, the process ends with status 2 if one of the six is not
    given, and with status 1 if they are given and an input file is
    missing or does not parse; so status 0 without a request for help
    means that all six were given and every input file was there and
    parsed. *)
Theorem script_exit_status :
  (map option_string add_argument_calls
   = ["--input_annotations_boxes"; "--input_annotations_labels"; "--input_predictions";
      "--input_class_labelmap"; "--input_relationship_labelmap"; "--output_metrics"]
   /\ Forall (fun a => required a = true) add_argument_calls
   /\ map fst option_string_actions
      = "-h" :: "--help" :: map option_string add_argument_calls)
  /\ (forall argv, parse_args argv = Exit 0 -> help_requested argv)
  /\ (forall argv,
         ~ help_requested argv -> (exists d, ~ supplied d argv) ->
         script (E := E) fs argv = 2%Z)
  /\ (forall argv a,
         parse_args argv = Namespace_of a -> ~ inputs_load E fs a ->
         script (E := E) fs argv = 1%Z)
  /\ (forall argv,
         script (E := E) fs argv = 0%Z ->
         help_requested argv
         \/ exists a, parse_args argv = Namespace_of a
                      /\ (forall d, supplied d argv) /\ inputs_load E fs a).
Proof.
  assert (Hload : forall a w, run_main (E := E) fs a None = (Return tt, w) ->
                              inputs_load E fs a).
  { intros a w H. apply main_completed in H
      as (boxes & labels & citems & ritems & preds & rm & pm & x & y & z & ep
          & Hb & Hl & Hc & Hr & Hp & _).
    unfold inputs_load. eauto 10. }
  split; [|split; [|split; [|split]]].
  - split; [reflexivity|]. split; [repeat constructor | reflexivity].
  - intros argv H. pose proof (parse_args_spec argv) as Hs. rewrite H in Hs.
    destruct Hs as [[=]|[_ Hh]]. exact Hh.
  - intros argv Hnohelp [d Hd]. unfold script.
    pose proof (parse_args_spec argv) as Hs. destruct (parse_args argv) as [a|s].
    + destruct Hd. apply Hs.
    + destruct Hs as [->|[_ Hh]]; [reflexivity | contradiction].
  - intros argv a Hp Hno. unfold script. rewrite Hp.
    destruct (run_main fs a None) as [[[]|e] w] eqn:Hrun; [|reflexivity].
    destruct Hno. eapply Hload, Hrun.
  - intros argv. unfold script.
    pose proof (parse_args_spec argv) as Hs. destruct (parse_args argv) as [a|s] eqn:Hp.
    + destruct (run_main fs a None) as [[[]|e] w] eqn:Hrun; [|discriminate].
      intros _. right. exists a. split; [reflexivity|]. split; [exact Hs|].
      eapply Hload, Hrun.
    + intros ->. destruct Hs as [[=]|[_ Hh]]. left. exact Hh.
Qed.
End command_line.

(** C8, counterexample to six flags and a non-zero exit when a required
    flag is missing: the parser accepts a seventh option, [--help], which is
    not required, and with it the process ends with status 0 although none
    of the six required options is given. *)
Lemma help_exits_zero_without_required_flags :
  script (E := Scenario.env) Scenario.files ["--help"] = 0%Z
  /\ parse_optional "--help" = Known HelpAction None
  /\ dict_get option_string_actions "--help" = Some HelpAction
  /\ (forall d, ~ supplied d ["--help"]).
Proof.
  split; [reflexivity|]. split; [reflexivity|]. split; [reflexivity|].
  intros d (tok & e & Hin & Hp). apply list_elem_of_singleton in Hin as ->.
  vm_compute in Hp. discriminate.
Qed.

(** ** Two runs over the same inputs *)

Section two_runs.
Context {E : Env}.
Variable view : Event -> bool.
Hypothesis view_Logger_new : forall d n, view (Logger_new d n) = false.
Hypothesis view_epoch : forall v, view (Logger_log_value "eval_epoch.epoch" v) = false.

Lemma sim_ret {A : Type} (x : A) : sim (E := E) view (ret x) (ret x).
Proof. intros w1 w2 H. split; [reflexivity | exact H]. Qed.

Lemma sim_lift {A : Type} (x : result A) : sim (E := E) view (lift x) (lift x).
Proof. intros w1 w2 H. split; [reflexivity | exact H]. Qed.

Lemma sim_getitem {V : Type} (d : PyDict string V) (k : string) :
  sim (E := E) view (getitem d k) (getitem d k).
Proof.
  unfold getitem. destruct (dict_get d k); intros w1 w2 H; (split; [reflexivity | exact H]).
Qed.

Lemma sim_bind {A B : Type} (m1 m2 : M E A) (k1 k2 : A -> M E B) :
  sim view m1 m2 -> (forall x, sim view (k1 x) (k2 x)) ->
  sim view (bind m1 k1) (bind m2 k2).
Proof.
  intros Hm Hk w1 w2 H. unfold bind. destruct (Hm w1 w2 H) as [Hr Ha].
  destruct (m1 w1) as [[x1|e1] w1'], (m2 w2) as [[x2|e2] w2']; simpl in Hr, Ha;
    try discriminate.
  - injection Hr as <-. apply Hk, Ha.
  - injection Hr as <-. split; [reflexivity | exact Ha].
Qed.

Lemma sim_for_each {A : Type} (l : list A) (body1 body2 : A -> M E unit) :
  (forall x, sim view (body1 x) (body2 x)) ->
  sim view (for_each l body1) (for_each l body2).
Proof.
  intros Hb. induction l as [|x l IH]; simpl; [apply sim_ret|].
  apply sim_bind; [apply Hb | intros _; exact IH].
Qed.

Lemma sim_emit (e : Event) : sim (E := E) view (emit e) (emit e).
Proof.
  intros w1 w2 (Hh & Hn & Hr & Hp & Ht). split; [reflexivity|]. simpl.
  repeat (split; [assumption|]). cbn [trace]. rewrite !List.filter_app, Ht.
  reflexivity.
Qed.

Lemma sim_emit_hidden (e1 e2 : Event) :
  view e1 = false -> view e2 = false -> sim (E := E) view (emit e1) (emit e2).
Proof.
  intros H1 H2 w1 w2 (Hh & Hn & Hr & Hp & Ht). split; [reflexivity|]. simpl.
  repeat (split; [assumption|]). cbn [trace]. rewrite !List.filter_app. simpl.
  rewrite H1, H2, Ht. reflexivity.
Qed.

Lemma sim_set_logger (v1 v2 : LogValues) :
  sim (E := E) view (set_logger v1) (set_logger v2).
Proof. intros w1 w2 H. split; [reflexivity | exact H]. Qed.

Lemma sim_Logger (d1 n1 d2 n2 : string) : sim (E := E) view (Logger d1 n1) (Logger d2 n2).
Proof.
  unfold Logger. apply sim_bind; [apply sim_emit_hidden; apply view_Logger_new|].
  intros _ w1 w2 H. destruct (logger w1), (logger w2); split; try reflexivity;
    first [exact H | apply (sim_set_logger _ _ _ _ H)].
Qed.

Lemma sim_log_value (name : string) (v : LVal) :
  sim (E := E) view (log_value name v) (log_value name v).
Proof.
  unfold log_value. apply sim_bind; [apply sim_emit|]. intros _ w1 w2 H.
  unfold bind, get_logger. simpl. apply (sim_set_logger _ _ _ _ H).
Qed.

Lemma sim_read_csv (fs1 fs2 : FileSystem) (path : string) :
  fs1 path = fs2 path -> sim (E := E) view (read_csv fs1 path) (read_csv fs2 path).
Proof.
  intros Hfs. unfold read_csv. apply sim_bind; [apply sim_emit|]. intros _.
  rewrite Hfs. destruct (fs2 path) as [text|]; [destruct (csv_parser E text)|];
    intros w1 w2 H; (split; [reflexivity | exact H]).
Qed.

Lemma sim_load_labelmap (fs1 fs2 : FileSystem) (path : string) :
  fs1 path = fs2 path ->
  sim (E := E) view (_load_labelmap fs1 path) (_load_labelmap fs2 path).
Proof.
  intros Hfs. unfold _load_labelmap. apply sim_bind; [apply sim_emit|]. intros _.
  rewrite Hfs. destruct (fs2 path) as [text|]; [destruct (text_format_Merge E text)|];
    intros w1 w2 H; (split; [reflexivity | exact H]).
Qed.

Lemma sim_new_evaluator (who : Who) :
  sim (E := E) view (new_evaluator who) (new_evaluator who).
Proof.
  unfold new_evaluator. apply sim_bind; [apply sim_emit|].
  intros _ w1 w2 (Hh & Hn & Hr & Hp & Ht). split; [reflexivity|].
  destruct who; simpl; repeat (split; [first [assumption | reflexivity]|]); assumption.
Qed.

Lemma sim_alloc (d : VRDDict E) : sim (E := E) view (alloc d) (alloc d).
Proof.
  intros w1 w2 (Hh & Hn & Hr & Hp & Ht). unfold alloc. simpl. rewrite Hh, Hn.
  split; [reflexivity|]. repeat (split; [first [assumption | reflexivity]|]). assumption.
Qed.

Lemma sim_call_relation {A : Type} f :
  sim (E := E) (A := A) view (call_relation f) (call_relation f).
Proof.
  intros w1 w2 (Hh & Hn & Hr & Hp & Ht). unfold call_relation. rewrite Hh, Hr.
  destruct (f _ _) as [[[s h] x]|e]; simpl;
    (split; [reflexivity|]); repeat (split; [first [assumption | reflexivity]|]);
    assumption.
Qed.

Lemma sim_call_phrase {A : Type} f :
  sim (E := E) (A := A) view (call_phrase f) (call_phrase f).
Proof.
  intros w1 w2 (Hh & Hn & Hr & Hp & Ht). unfold call_phrase. rewrite Hh, Hp.
  destruct (f _ _) as [[[s h] x]|e]; simpl;
    (split; [reflexivity|]); repeat (split; [first [assumption | reflexivity]|]);
    assumption.
Qed.

Lemma sim_add_groundtruth (who : Who) (image_id : string) (d : nat) :
  sim (E := E) view (add_single_ground_truth_image_info who image_id d)
      (add_single_ground_truth_image_info who image_id d).
Proof.
  unfold add_single_ground_truth_image_info. apply sim_bind; [apply sim_emit|].
  intros _. destruct who; [apply sim_call_relation | apply sim_call_phrase].
Qed.

Lemma sim_add_detected (who : Who) (image_id : string) (d : nat) :
  sim (E := E) view (add_single_detected_image_info who image_id d)
      (add_single_detected_image_info who image_id d).
Proof.
  unfold add_single_detected_image_info. apply sim_bind; [apply sim_emit|].
  intros _. destruct who; [apply sim_call_relation | apply sim_call_phrase].
Qed.

Lemma sim_evaluate (who : Who) (rels : PyDict Z string) :
  sim (E := E) view (evaluate who rels) (evaluate who rels).
Proof.
  unfold evaluate. apply sim_bind; [apply sim_emit|]. intros _.
  apply sim_bind; [destruct who; [apply sim_call_relation | apply sim_call_phrase]|].
  intros m. apply sim_bind; [apply sim_emit | intros _; apply sim_ret].
Qed.

(** The end of [main], from the logging of the score: the epoch counter
    read back from the logger differs between the runs, and is not
    selected by [view]. *)
Lemma sim_closing (score : float) :
  sim (E := E) view
    (log_value "eval_epoch.score" (VFloat score) ;;
     scores <- Logger_values "eval_epoch.score" ;;
     log_value "eval_epoch.epoch" (VInt (Z.of_nat (length scores) - 1)) ;;
     flush ;; Logger_call "End evaluation")
    (log_value "eval_epoch.score" (VFloat score) ;;
     scores <- Logger_values "eval_epoch.score" ;;
     log_value "eval_epoch.epoch" (VInt (Z.of_nat (length scores) - 1)) ;;
     flush ;; Logger_call "End evaluation").
Proof.
  intros w1 w2 (Hh & Hn & Hr & Hp & Ht).
  unfold bind, log_value, Logger_values, flush, Logger_call, emit, get_logger,
    set_logger, getitem, bind, ret. simpl.
  rewrite !dict_get_set. rewrite !decide_True by reflexivity. simpl.
  split; [reflexivity|]. repeat (split; [assumption|]). cbn [trace].
  rewrite !List.filter_app, Ht. simpl. rewrite !view_epoch. reflexivity.
Qed.

Lemma sim_main (fs1 fs2 : FileSystem) (a1 a2 : Args) :
  inputs_of a1 = inputs_of a2 ->
  (forall path, path ∈ inputs_of a1 -> fs1 path = fs2 path) ->
  sim (E := E) view (main fs1 a1) (main fs2 a2).
Proof.
  destruct a1 as [b l p c r o1], a2 as [b2 l2 p2 c2 r2 o2]. unfold inputs_of. simpl.
  intros [= <- <- <- <- <-] Hfs. unfold main. simpl.
  assert (Hb : fs1 b = fs2 b) by (apply Hfs; set_solver).
  assert (Hl : fs1 l = fs2 l) by (apply Hfs; set_solver).
  assert (Hp : fs1 p = fs2 p) by (apply Hfs; set_solver).
  assert (Hc : fs1 c = fs2 c) by (apply Hfs; set_solver).
  assert (Hr : fs1 r = fs2 r) by (apply Hfs; set_solver).
  apply sim_bind; [apply sim_Logger | intros _].
  apply sim_bind; [apply sim_emit | intros _].
  apply sim_bind; [apply sim_read_csv, Hb | intros boxes].
  apply sim_bind; [apply sim_read_csv, Hl | intros labels].
  apply sim_bind; [apply sim_load_labelmap, Hc | intros class_label_map].
  apply sim_bind; [apply sim_load_labelmap, Hr | intros relationship_label_map].
  apply sim_bind; [apply sim_new_evaluator | intros _].
  apply sim_bind; [apply sim_new_evaluator | intros _].
  apply sim_bind; [apply sim_lift | intros groups].
  apply sim_bind.
  { apply sim_for_each. intros [image_id rows].
    apply sim_bind; [apply sim_bind; [apply sim_lift | intros d; apply sim_alloc]|].
    intros d. apply sim_bind; [apply sim_add_groundtruth|].
    intros _. apply sim_add_groundtruth. }
  intros _.
  apply sim_bind; [apply sim_read_csv, Hp | intros predictions].
  apply sim_bind; [apply sim_lift | intros groups'].
  apply sim_bind.
  { apply sim_for_each. intros [image_id rows].
    apply sim_bind; [apply sim_bind; [apply sim_lift | intros d; apply sim_alloc]|].
    intros d. apply sim_bind; [apply sim_add_detected|].
    intros _. apply sim_add_detected. }
  intros _.
  apply sim_bind; [apply sim_evaluate | intros relation_metrics].
  apply sim_bind; [apply sim_evaluate | intros phrase_metrics].
  apply sim_bind; [apply sim_for_each; intros kv; apply sim_log_value | intros _].
  apply sim_bind; [apply sim_for_each; intros kv; apply sim_log_value | intros _].
  apply sim_bind; [apply sim_getitem | intros x].
  apply sim_bind; [apply sim_getitem | intros y].
  apply sim_bind; [apply sim_getitem | intros z].
  apply sim_closing.
Qed.
End two_runs.

Lemma logged_cons (name : string) (e : Event) (tr : list Event) :
  logged name (e :: tr)
  = match e with
    | Logger_log_value n v =>
        if decide (n = name) then v :: logged name tr else logged name tr
    | _ => logged name tr
    end.
Proof. destruct e; try reflexivity. unfold logged. simpl. destruct (decide _); reflexivity. Qed.

Lemma logged_filter (name : string) (tr : list Event) :
  logged name tr = logged name (List.filter (logs_under name) tr).
Proof.
  induction tr as [|e tr IH]; [reflexivity|]. cbn [List.filter].
  destruct (logs_under name e) eqn:Hv.
  - rewrite !logged_cons, IH. reflexivity.
  - rewrite logged_cons. destruct e; try exact IH.
    simpl in Hv. apply bool_decide_eq_false_1 in Hv.
    rewrite decide_False by assumption. exact IH.
Qed.

(** C5: two runs of [main] over the same input files end alike, and
    produce the same metrics and the same score, bit for bit: the metrics the
    evaluators return and every value logged, the epoch counter apart, are
    the same in the two runs, whatever the output path, the logger's earlier
    state and the other files are. *)
Theorem main_is_deterministic (E : Env) (fs1 fs2 : FileSystem) (a1 a2 : Args)
    (lg1 lg2 : option LogValues) :
  inputs_of a1 = inputs_of a2 ->
  (forall path, path ∈ inputs_of a1 -> fs1 path = fs2 path) ->
  fst (run_main (E := E) fs1 a1 lg1) = fst (run_main (E := E) fs2 a2 lg2)
  /\ metrics_produced (trace (snd (run_main (E := E) fs1 a1 lg1)))
     = metrics_produced (trace (snd (run_main (E := E) fs2 a2 lg2)))
  /\ forall name, name <> "eval_epoch.epoch" ->
       logged name (trace (snd (run_main (E := E) fs1 a1 lg1)))
       = logged name (trace (snd (run_main (E := E) fs2 a2 lg2))).
Proof.
  intros Ha Hfs.
  assert (Hinit : forall view, agree view (init_world E lg1) (init_world E lg2)).
  { intros view. repeat split; reflexivity. }
  split; [|split].
  - apply (sim_main metric_event) with (fs1 := fs1) (fs2 := fs2) (a1 := a1) (a2 := a2);
      try assumption; try reflexivity. apply Hinit.
  - unfold metrics_produced.
    apply (sim_main metric_event) with (fs1 := fs1) (fs2 := fs2) (a1 := a1) (a2 := a2);
      try assumption; try reflexivity. apply Hinit.
  - intros name Hname. rewrite (logged_filter name (trace (snd (run_main fs1 a1 lg1)))).
    rewrite (logged_filter name (trace (snd (run_main fs2 a2 lg2)))). f_equal.
    apply (sim_main (logs_under name)) with (fs1 := fs1) (fs2 := fs2) (a1 := a1) (a2 := a2);
      try assumption; try reflexivity; [|apply Hinit].
    intros v. simpl. apply bool_decide_eq_false_2. congruence.
Qed.

(** ** The statements at the concrete run *)

Lemma scenario_completes :
  run_main (E := Scenario.env) Scenario.files Scenario.args None
  = (Return tt, snd Scenario.outcome).
Proof.
  unfold Scenario.outcome.
  rewrite (surjective_pairing (run_main Scenario.files Scenario.args None)) at 1.
  f_equal; vm_compute; reflexivity.
Qed.

Lemma main_logs_composite_score_witness :
  run_main (E := Scenario.env) Scenario.files Scenario.args None
  = (Return tt, snd Scenario.outcome)
  /\ exists relation_metrics phrase_metrics relation_mAP relation_recall phrase_mAP,
       (forall who m,
           Evaluate_returned who m ∈ trace (snd Scenario.outcome) <->
           m = match who with Relation => relation_metrics | Phrase => phrase_metrics end)
       /\ dict_get relation_metrics "VRDMetric_Relationships_mAP@0.5IOU" = Some relation_mAP
       /\ dict_get relation_metrics "VRDMetric_Relationships_Recall@50@0.5IOU"
          = Some relation_recall
       /\ dict_get phrase_metrics "VRDMetric_Phrases_mAP@0.5IOU" = Some phrase_mAP
       /\ last (logged "eval_epoch.score" (trace (snd Scenario.outcome)))
          = Some (VFloat (composite_score relation_mAP relation_recall phrase_mAP))
       /\ exists values,
            logger (snd Scenario.outcome) = Some values
            /\ last (default [] (dict_get values "eval_epoch.score"))
               = Some (VFloat (composite_score relation_mAP relation_recall phrase_mAP)).
Proof.
  split; [exact scenario_completes|].
  exact (main_logs_composite_score Scenario.files Scenario.args None
           (snd Scenario.outcome) scenario_completes).
Defined.

Lemma main_call_order_witness :
  run_main (E := Scenario.env) Scenario.files Scenario.args None
  = (Return tt, snd Scenario.outcome)
  /\ forall who, count_events (is_evaluate_of who) (trace (snd Scenario.outcome)) = 1.
Proof.
  split; [exact scenario_completes|].
  exact (proj2 (proj2 (proj2
           (main_ingests_groundtruth_then_detections_then_evaluates
              Scenario.files Scenario.args None (Return tt) (snd Scenario.outcome)
              scenario_completes))) eq_refl).
Defined.

Lemma main_produces_the_required_metrics_witness :
  run_main (E := Scenario.env) Scenario.files Scenario.args None
  = (Return tt, snd Scenario.outcome)
  /\ exists relation_metrics phrase_metrics score,
       Logger_log_value "eval_epoch.score" (VFloat score) ∈ trace (snd Scenario.outcome)
       /\ dict_get (metric_mapping relation_metrics phrase_metrics score) "score"
          = Some score.
Proof.
  split; [exact scenario_completes|].
  destruct (main_produces_the_required_metrics Scenario.files Scenario.args None
              (snd Scenario.outcome) scenario_completes)
    as (rm & pm & s & _ & _ & _ & _ & _ & Hs & _ & Hlog).
  exists rm, pm, s. split; [exact Hlog | exact Hs].
Defined.

Lemma scenario_keeps_store (prefix : string) : keeps_store (Scenario.evaluator prefix).
Proof.
  split; [|split]; simpl.
  - intros s h image_id d s' h'. unfold Scenario.add_groundtruth.
    destruct (dict_get (Scenario.groundtruths s) image_id); [discriminate|].
    intros [= _ ->]. reflexivity.
  - intros s h image_id d s' h' [= _ ->]. reflexivity.
  - intros s h relationships s' h' metrics [= _ -> _]. reflexivity.
Qed.

Lemma main_feeds_both_evaluators_alike_witness :
  run_main (E := Scenario.env) Scenario.files Scenario.args None
  = (Return tt, snd Scenario.outcome)
  /\ keeps_store (VRDRelationDetectionEvaluator Scenario.env)
  /\ keeps_store (VRDPhraseDetectionEvaluator Scenario.env)
  /\ ingestion_sequence Relation (trace (snd Scenario.outcome))
     = ingestion_sequence Phrase (trace (snd Scenario.outcome))
  /\ exists boxes labels class_items relationship_items predictions gt_ids det_ids,
       reads_csv Scenario.env Scenario.files "gt/boxes.csv" boxes
       /\ reads_csv Scenario.env Scenario.files "gt/labels.csv" labels
       /\ reads_labelmap Scenario.env Scenario.files "class.pbtxt" class_items
       /\ reads_labelmap Scenario.env Scenario.files "rel.pbtxt" relationship_items
       /\ reads_csv Scenario.env Scenario.files "pred.csv" predictions
       /\ NoDup gt_ids
       /\ (forall image_id,
              image_id ∈ gt_ids
              <-> image_id ∈ column_values "ImageID" (concat boxes labels))
       /\ NoDup det_ids
       /\ (forall image_id,
              image_id ∈ det_ids <-> image_id ∈ column_values "ImageID" predictions)
       /\ ingestion_sequence Phrase (trace (snd Scenario.outcome))
          = ingest_calls Groundtruth 0 gt_ids
            ++ ingest_calls Detections (length gt_ids) det_ids
       /\ (forall i image_id,
              gt_ids !! i = Some image_id ->
              exists d,
                Scenario.build (rows_of_key "ImageID" image_id (concat boxes labels))
                               (labelmap_dict_of class_items)
                               (labelmap_dict_of relationship_items) = Return d
                /\ heap (snd Scenario.outcome) !! i = Some d)
       /\ (forall j image_id,
              det_ids !! j = Some image_id ->
              exists d,
                Scenario.build (rows_of_key "ImageID" image_id predictions)
                               (labelmap_dict_of class_items)
                               (labelmap_dict_of relationship_items) = Return d
                /\ heap (snd Scenario.outcome) !! (length gt_ids + j) = Some d).
Proof.
  split; [exact scenario_completes|].
  split; [exact (scenario_keeps_store _)|]. split; [exact (scenario_keeps_store _)|].
  destruct (proj2 (main_feeds_both_evaluators_alike
                     Scenario.files Scenario.args None (Return tt)
                     (snd Scenario.outcome) scenario_completes) eq_refl)
    as (Heq & boxes & labels & citems & ritems & preds & gt_ids & det_ids
        & Hb & Hl & Hc & Hr & Hp & Hn1 & Hin1 & Hn2 & Hin2 & Hseq & Hgt & Hdet).
  split; [exact Heq|].
  exists boxes, labels, citems, ritems, preds, gt_ids, det_ids.
  repeat (split; [assumption|]). split.
  - intros i image_id Hi. destruct (Hgt i image_id Hi) as (d & Hd & Hh).
    exists d. split; [exact Hd|].
    exact (Hh (scenario_keeps_store _) (scenario_keeps_store _)).
  - intros j image_id Hj. destruct (Hdet j image_id Hj) as (d & Hd & Hh).
    exists d. split; [exact Hd|].
    exact (Hh (scenario_keeps_store _) (scenario_keeps_store _)).
Defined.

Lemma main_is_deterministic_witness :
  inputs_of Scenario.args = inputs_of Scenario.args'
  /\ (forall path, path ∈ inputs_of Scenario.args ->
                   Scenario.files path = Scenario.files' path)
  /\ fst (run_main (E := Scenario.env) Scenario.files Scenario.args None)
     = fst (run_main (E := Scenario.env) Scenario.files' Scenario.args' Scenario.logger')
  /\ metrics_produced
       (trace (snd (run_main (E := Scenario.env) Scenario.files Scenario.args None)))
     = metrics_produced
         (trace (snd (run_main (E := Scenario.env) Scenario.files' Scenario.args'
                        Scenario.logger'))).
Proof.
  assert (Ha : inputs_of Scenario.args = inputs_of Scenario.args') by reflexivity.
  assert (Hfs : forall path, path ∈ inputs_of Scenario.args ->
                             Scenario.files path = Scenario.files' path).
  { intros path Hin. unfold inputs_of in Hin. simpl in Hin.
    repeat (apply elem_of_cons in Hin as [->|Hin]; [reflexivity|]).
    apply elem_of_nil in Hin as []. }
  split; [exact Ha|]. split; [exact Hfs|].
  pose proof (main_is_deterministic Scenario.env Scenario.files Scenario.files'
                Scenario.args Scenario.args' None Scenario.logger' Ha Hfs)
    as (H1 & H2 & _).
  split; [exact H1 | exact H2].
Defined.

Lemma main_loads_labelmaps_witness :
  run_main (E := Scenario.env) Scenario.files Scenario.args None
  = (Return tt, snd Scenario.outcome)
  /\ exists class_items relationship_items,
       reads_labelmap Scenario.env Scenario.files "class.pbtxt" class_items
       /\ reads_labelmap Scenario.env Scenario.files "rel.pbtxt" relationship_items
       /\ forall who,
            Evaluate who (_swap_labelmap_dict (labelmap_dict_of relationship_items))
            ∈ trace (snd Scenario.outcome).
Proof.
  split; [exact scenario_completes|].
  exact (proj2 (proj2 (main_loads_labelmaps_and_passes_the_swapped_one Scenario.files)
                  Scenario.args None (Return tt) (snd Scenario.outcome)
                  scenario_completes) eq_refl).
Defined.

Lemma main_adds_groundtruth_once_per_image_witness :
  run_main (E := Scenario.env) Scenario.files Scenario.args None
  = (Return tt, snd Scenario.outcome)
  /\ NoDup (groundtruth_image_ids Relation (trace (snd Scenario.outcome)))
  /\ raises_DuplicateImageError Relation [] (trace (snd Scenario.outcome)) = false.
Proof.
  split; [exact scenario_completes|].
  destruct (main_adds_groundtruth_once_per_image Scenario.files Scenario.args None
              (Return tt) (snd Scenario.outcome) scenario_completes Relation)
    as (Hnd & Hno & _).
  split; [exact Hnd | exact Hno].
Defined.

Lemma script_exit_status_witness :
  ~ help_requested ["--input_predictions=pred.csv"]
  /\ (exists d, ~ supplied d ["--input_predictions=pred.csv"])
  /\ script (E := Scenario.env) Scenario.files ["--input_predictions=pred.csv"] = 2%Z.
Proof.
  assert (Hhelp : ~ help_requested ["--input_predictions=pred.csv"]).
  { intros (tok & e & Hin & Hp). apply list_elem_of_singleton in Hin as ->.
    vm_compute in Hp. discriminate. }
  assert (Hmiss : exists d, ~ supplied d ["--input_predictions=pred.csv"]).
  { exists dest_output_metrics. intros (tok & e & Hin & Hp).
    apply list_elem_of_singleton in Hin as ->. vm_compute in Hp. discriminate. }
  split; [exact Hhelp|]. split; [exact Hmiss|].
  exact (proj1 (proj2 (proj2 (script_exit_status (E := Scenario.env) Scenario.files)))
           _ Hhelp Hmiss).
Defined.

Lemma main_uses_output_path_witness :
  let a2 := mkArgs "gt/boxes.csv" "gt/labels.csv" "pred.csv" "class.pbtxt" "rel.pbtxt"
                   "out/metrics.json.old" in
  inputs_of Scenario.args = inputs_of a2
  /\ dirname (output_metrics Scenario.args) = dirname (output_metrics a2)
  /\ split_head ".json" (basename (output_metrics Scenario.args))
     = split_head ".json" (basename (output_metrics a2))
  /\ run_main (E := Scenario.env) Scenario.files Scenario.args None
     = run_main (E := Scenario.env) Scenario.files a2 None
  /\ (forall p,
         p ∈ files_written Scenario.env None (trace (snd Scenario.outcome)) ->
         p ∈ logger_files Scenario.env "out" "metrics")
  /\ (forall p,
         p ∈ logger_files Scenario.env "out" "metrics" ->
         p ∈ files_written Scenario.env None (trace (snd Scenario.outcome))).
Proof.
  intros a2.
  assert (H1 : inputs_of Scenario.args = inputs_of a2) by reflexivity.
  assert (H2 : dirname (output_metrics Scenario.args) = dirname (output_metrics a2))
    by reflexivity.
  assert (H3 : split_head ".json" (basename (output_metrics Scenario.args))
               = split_head ".json" (basename (output_metrics a2))) by reflexivity.
  pose proof (main_uses_output_path_for_the_logger_only (E := Scenario.env)
                Scenario.files) as (Hsame & _ & Hin & Hall & _).
  split; [exact H1|]. split; [exact H2|]. split; [exact H3|].
  split; [exact (Hsame Scenario.args a2 None H1 H2 H3)|]. split.
  - intros p Hp.
    destruct (Hin Scenario.args None (Return tt) (snd Scenario.outcome) None p
                scenario_completes Hp) as [Hnone|Hlog]; [inversion Hnone | exact Hlog].
  - intros p Hp. exact (Hall Scenario.args (snd Scenario.outcome) p scenario_completes Hp).
Defined.

(** The scenario of the specification: one groundtruth relation and one
    prediction with the same boxes give a composite score of
    0.4 * 1 + 0.2 * 1 + 0.4 * 1 = 1. *)
Example scenario_score :
  composite_score 1 1 1 = 1%float
  /\ last (logged "eval_epoch.score" (trace (snd Scenario.outcome))) = Some (VFloat 1)
  /\ script (E := Scenario.env) Scenario.files Scenario.argv = 0%Z.
Proof. vm_compute. repeat split; reflexivity. Qed.

(** The parser on some command lines: the full one, abbreviated options, a
    request for help, and errors. *)
Example parse_args_examples :
  parse_args Scenario.argv = Namespace_of Scenario.args
  /\ parse_args ("--input_p=other.csv" :: Scenario.argv) = Namespace_of Scenario.args
  /\ parse_args ["-h"] = Exit 0
  /\ parse_args ("stray" :: Scenario.argv ++ ["--he"]) = Exit 0
  /\ parse_args ("stray" :: Scenario.argv) = Exit 2
  /\ parse_args ("--input_=x" :: Scenario.argv ++ ["--help"]) = Exit 2
  /\ parse_args (Scenario.argv ++ ["--"]) = Exit 2
  /\ parse_args ["--input_predictions"; "--help"] = Exit 2
  /\ parse_args ["--input_predictions=pred.csv"] = Exit 2.
Proof. vm_compute. repeat split; reflexivity. Qed.
(** ** How a run ends *)

Section ends.
Context {E : Env}.
Variable fs : FileSystem.
Implicit Types (w : World E).

Lemma read_csv_Raise (path : string) w (e : exn) w' :
  read_csv fs path w = (Raise e, w') -> csv_error E fs path e.
Proof.
  unfold read_csv, bind, emit. simpl.
  destruct (fs path) as [text|] eqn:Hf; [destruct (csv_parser E text) as [df|] eqn:Hp|];
    unfold ret, raise; intros [= <- <-].
  - right. exists text. auto.
  - left. auto.
Qed.

Lemma load_labelmap_Raise (path : string) w (e : exn) w' :
  _load_labelmap fs path w = (Raise e, w') -> labelmap_error E fs path e.
Proof.
  unfold _load_labelmap, bind, emit. simpl.
  destruct (fs path) as [text|] eqn:Hf;
    [destruct (text_format_Merge E text) as [items|] eqn:Hp|];
    unfold ret, raise; intros [= <- <-].
  - right. exists text. auto.
  - left. auto.
Qed.

Lemma groupby_Raise (col : string) (df : DataFrame) (e : exn) :
  groupby col df = Raise e -> e = KeyError col /\ col ∉ df_columns df.
Proof.
  unfold groupby. destruct (decide _) as [|Hn]; [discriminate|].
  intros [= <-]. split; [reflexivity | exact Hn].
Qed.

Lemma groupby_columns (col : string) (df : DataFrame) (groups : list (string * DataFrame)) :
  groupby col df = Return groups -> col ∈ df_columns df.
Proof. unfold groupby. destruct (decide _) as [Hi|]; [intros _; exact Hi | discriminate]. Qed.

Lemma getitem_Raise {V : Type} (d : PyDict string V) (k : string) w (e : exn) w' :
  getitem d k w = (Raise e, w') -> e = KeyError k /\ dict_get d k = None.
Proof.
  unfold getitem. destruct (dict_get d k) as [v|]; unfold ret, raise; intros [= <- <-].
  split; reflexivity.
Qed.

Lemma Logger_values_Raise (name : string) w (e : exn) w' :
  Logger_values name w = (Raise e, w') -> dict_get (default [] (logger w)) name = None.
Proof.
  unfold Logger_values, bind, get_logger, getitem.
  destruct (dict_get _ name) as [l|] eqn:Hl; unfold ret, raise; intros [= <- <-].
  reflexivity.
Qed.

Lemma logged_none (name : string) (t : list Event) :
  Forall (fun e => match e with Logger_log_value _ _ => False | _ => True end) t ->
  logged name t = [].
Proof.
  intros H. unfold logged. apply omap_none. eapply Forall_impl; [exact H|].
  intros [] Hx; try reflexivity. destruct Hx.
Qed.

(** The logger's table from the creation of the logger on. *)
Lemma logger_after_setup (a : Args) (lg : option LogValues) (t : list Event) :
  exists values,
    logger_after E lg (setup_events a ++ t) = Some values
    /\ forall name,
         default [] (dict_get values name)
         = default [] (dict_get (initial_values E a lg) name)
           ++ logged name t.
Proof.
  destruct (logger_after_Some (E := E) (initial_values E a lg)
              (tl (setup_events a) ++ t)) as (values & Hv & Hget).
  exists values. split; [exact Hv|]. intros name. rewrite Hget. reflexivity.
Qed.

Lemma ends_eq (a : Args) (lg : option LogValues) (r : result unit) (t t' : list Event) :
  ends E fs a lg r t -> t = t' -> ends E fs a lg r t'.
Proof. intros H <-. exact H. Qed.

Ltac acc Hacc Hf :=
  apply (run_facts_trans _ _ _ _ _ Hacc) in Hf; clear Hacc; rename Hf into Hacc.

Ltac same_events :=
  unfold setup_events, work_events, ingestion_events, groundtruth_events,
    evaluation_events, closing_events;
  cbn [firstn]; rewrite <- ?app_assoc; cbn [app]; reflexivity.

Ltac finish Hacc :=
  let Ht := fresh "Ht" in
  let Hl := fresh "Hl" in
  apply run_facts_init in Hacc as [Ht Hl];
  split; [|rewrite Hl, Ht; reflexivity];
  rewrite Ht.

Ltac at_setup c := eapply ends_eq; [eapply c; eassumption | same_events].

Ltac at_work c :=
  eapply ends_eq; [eapply ends_at_work; [eassumption | eapply c; eassumption]
                  | same_events].

(** Every run of [main] ends in one of the ways of [ends]. *)
Lemma main_ends (a : Args) (lg : option LogValues) (r : result unit) w :
  run_main fs a lg = (r, w) ->
  ends E fs a lg r (trace w) /\ logger w = logger_after E lg (trace w).
Proof.
  unfold run_main, main. intros H.
  apply bind_inv in H as [(e & Hm & ->)|([] & w1 & Hacc & H)];
    [apply Logger_run in Hm as (? & _); discriminate|].
  apply Logger_run in Hacc as (_ & Hn & Hacc). simpl in Hn.
  apply bind_inv in H as [(e & Hm & ->)|([] & w2 & Hf & H)];
    [apply Logger_call_run in Hm as (? & _); discriminate|].
  apply Logger_call_run in Hf as (_ & Hn2 & Hf). rewrite Hn in Hn2. clear Hn.
  acc Hacc Hf.
  (* the annotations *)
  apply bind_inv in H as [(e & Hf & ->)|(boxes & w3 & Hf & H)].
  { pose proof (read_csv_Raise _ _ _ _ Hf) as He.
    apply read_csv_run in Hf as (_ & Hf & _). acc Hacc Hf. finish Hacc.
    at_setup ends_at_boxes. }
  apply read_csv_run in Hf as (Hn3 & Hf & Hboxes). acc Hacc Hf.
  rewrite Hn2 in Hn3. clear Hn2. specialize (Hboxes _ eq_refl).
  apply bind_inv in H as [(e & Hf & ->)|(labels & w4 & Hf & H)].
  { pose proof (read_csv_Raise _ _ _ _ Hf) as He.
    apply read_csv_run in Hf as (_ & Hf & _). acc Hacc Hf. finish Hacc.
    at_setup ends_at_labels. }
  apply read_csv_run in Hf as (Hn4 & Hf & Hlabels). acc Hacc Hf.
  rewrite Hn3 in Hn4. clear Hn3. specialize (Hlabels _ eq_refl).
  (* the label maps *)
  apply bind_inv in H as [(e & Hf & ->)|(class_label_map & w5 & Hf & H)].
  { pose proof (load_labelmap_Raise _ _ _ _ Hf) as He.
    apply load_labelmap_run in Hf as (_ & Hf & _). acc Hacc Hf. finish Hacc.
    at_setup ends_at_class_labelmap. }
  apply load_labelmap_run in Hf as (Hn5 & Hf & Hclass). acc Hacc Hf.
  rewrite Hn4 in Hn5. clear Hn4.
  destruct (Hclass _ eq_refl) as (citems & Hcitems & ->). clear Hclass.
  apply bind_inv in H as [(e & Hf & ->)|(relationship_label_map & w6 & Hf & H)].
  { pose proof (load_labelmap_Raise _ _ _ _ Hf) as He.
    apply load_labelmap_run in Hf as (_ & Hf & _). acc Hacc Hf. finish Hacc.
    at_setup ends_at_relationship_labelmap. }
  apply load_labelmap_run in Hf as (Hn6 & Hf & Hrel). acc Hacc Hf.
  rewrite Hn5 in Hn6. clear Hn5.
  destruct (Hrel _ eq_refl) as (ritems & Hritems & ->). clear Hrel.
  assert (Hin : groundtruth_inputs E fs a boxes labels citems ritems).
  { repeat split; assumption. }
  (* the evaluators *)
  apply bind_inv in H as [(e & Hm & ->)|([] & w7 & Hf & H)];
    [apply new_evaluator_run in Hm as (? & _); discriminate|].
  apply new_evaluator_run in Hf as (_ & Hn7 & Hf). rewrite Hn6 in Hn7. clear Hn6.
  acc Hacc Hf.
  apply bind_inv in H as [(e & Hm & ->)|([] & w8 & Hf & H)];
    [apply new_evaluator_run in Hm as (? & _); discriminate|].
  apply new_evaluator_run in Hf as (_ & Hn8 & Hf). rewrite Hn7 in Hn8. clear Hn7.
  acc Hacc Hf.
  (* the groundtruth loop *)
  apply bind_inv in H as [(e & Hf & ->)|(groups & w9 & Hf & H)];
    apply lift_run in Hf as [-> Hg].
  { symmetry in Hg. apply groupby_Raise in Hg as [-> Hcol].
    finish Hacc. at_work ends_at_groupby. }
  symmetry in Hg. pose proof (groupby_columns _ _ _ Hg) as Hcol.
  apply groupby_Return in Hg as [Hkeys Hlen].
  apply bind_inv in H as [(e & Hf & ->)|([] & w10 & Hf & H)];
    apply (ingest_loop_run _ _ Add_single_ground_truth_image_info
             add_groundtruth_run) in Hf as (t1 & Hf & Hpre1 & Hret1);
    rewrite Hn8, Hkeys in Hpre1, Hret1; acc Hacc Hf.
  { finish Hacc. at_work ends_in_groundtruth_loop. }
  destruct (Hret1 eq_refl) as [-> Hn10]. clear Hret1 Hpre1.
  rewrite Hlen in Hn10. simpl in Hn10.
  (* the predictions *)
  apply bind_inv in H as [(e & Hf & ->)|(predictions & w11 & Hf & H)].
  { pose proof (read_csv_Raise _ _ _ _ Hf) as He.
    apply read_csv_run in Hf as (_ & Hf & _). acc Hacc Hf. finish Hacc.
    at_work ends_at_predictions. }
  apply read_csv_run in Hf as (Hn11 & Hf & Hpreds). acc Hacc Hf.
  rewrite Hn10 in Hn11. clear Hn10. specialize (Hpreds _ eq_refl).
  apply bind_inv in H as [(e & Hf & ->)|(groups' & w12 & Hf & H)];
    apply lift_run in Hf as [-> Hg].
  { symmetry in Hg. apply groupby_Raise in Hg as [-> Hcol'].
    finish Hacc. at_work ends_at_predictions_groupby. }
  symmetry in Hg. pose proof (groupby_columns _ _ _ Hg) as Hcol'.
  apply groupby_Return in Hg as [Hkeys' Hlen'].
  apply bind_inv in H as [(e & Hf & ->)|([] & w13 & Hf & H)];
    apply (ingest_loop_run _ _ Add_single_detected_image_info
             add_detected_run) in Hf as (t2 & Hf & Hpre2 & Hret2);
    rewrite Hn11, Hkeys' in Hpre2, Hret2; acc Hacc Hf.
  { finish Hacc. at_work ends_in_detection_loop. }
  destruct (Hret2 eq_refl) as [-> _]. clear Hret2 Hpre2.
  (* the evaluation *)
  apply bind_inv in H as [(e & Hf & ->)|(relation_metrics & w14 & Hf & H)];
    apply evaluate_run in Hf as (_ & Hf); acc Hacc Hf.
  { finish Hacc. at_work ends_in_relation_evaluate. }
  apply bind_inv in H as [(e & Hf & ->)|(phrase_metrics & w15 & Hf & H)];
    apply evaluate_run in Hf as (_ & Hf); acc Hacc Hf.
  { finish Hacc. at_work ends_in_phrase_evaluate. }
  (* the logging of the metrics *)
  apply bind_inv in H as [(e & Hm & ->)|([] & w16 & Hf & H)];
    [apply log_loop_run in Hm as (? & _); discriminate|].
  apply log_loop_run in Hf as (_ & _ & Hf). acc Hacc Hf.
  apply bind_inv in H as [(e & Hm & ->)|([] & w17 & Hf & H)];
    [apply log_loop_run in Hm as (? & _); discriminate|].
  apply log_loop_run in Hf as (_ & _ & Hf). acc Hacc Hf.
  (* the score *)
  apply bind_inv in H as [(e & Hf & ->)|(x & w18 & Hf & H)].
  { pose proof (getitem_Raise _ _ _ _ _ Hf) as [-> Hx].
    apply getitem_run in Hf as (-> & _).
    assert (Hk : missing_key relation_metrics phrase_metrics
                 = Some "VRDMetric_Relationships_mAP@0.5IOU").
    { unfold missing_key, relation_mAP_key. rewrite Hx. reflexivity. }
    finish Hacc. at_work ends_at_missing_key. }
  apply getitem_run in Hf as (-> & Hx). specialize (Hx _ eq_refl).
  apply bind_inv in H as [(e & Hf & ->)|(y & w19 & Hf & H)].
  { pose proof (getitem_Raise _ _ _ _ _ Hf) as [-> Hy].
    apply getitem_run in Hf as (-> & _).
    assert (Hk : missing_key relation_metrics phrase_metrics
                 = Some "VRDMetric_Relationships_Recall@50@0.5IOU").
    { unfold missing_key, relation_mAP_key, relation_recall_key.
      rewrite Hx, Hy. reflexivity. }
    finish Hacc. at_work ends_at_missing_key. }
  apply getitem_run in Hf as (-> & Hy). specialize (Hy _ eq_refl).
  apply bind_inv in H as [(e & Hf & ->)|(z & w20 & Hf & H)].
  { pose proof (getitem_Raise _ _ _ _ _ Hf) as [-> Hz].
    apply getitem_run in Hf as (-> & _).
    assert (Hk : missing_key relation_metrics phrase_metrics
                 = Some "VRDMetric_Phrases_mAP@0.5IOU").
    { unfold missing_key, relation_mAP_key, relation_recall_key, phrase_mAP_key.
      rewrite Hx, Hy, Hz. reflexivity. }
    finish Hacc. at_work ends_at_missing_key. }
  apply getitem_run in Hf as (-> & Hz). specialize (Hz _ eq_refl).
  apply bind_inv in H as [(e & Hm & ->)|([] & w21 & Hf & H)];
    [apply log_value_run in Hm as (? & _); discriminate|].
  apply log_value_run in Hf as (_ & _ & Hf). acc Hacc Hf.
  (* the epoch: the scores the logger holds now *)
  assert (Hscores : default [] (dict_get (default [] (logger w21)) "eval_epoch.score")
                    = earlier_scores E a lg relation_metrics phrase_metrics
                      ++ [VFloat (composite_score x y z)]).
  { destruct Hacc as [_ Hl]. rewrite Hl.
    change (logger (init_world E lg)) with lg.
    match goal with
    | |- context [logger_after E lg ?t] =>
        replace t
          with (setup_events a
                ++ (ingestion_events a (group_keys "ImageID" (concat boxes labels))
                                     (group_keys "ImageID" predictions)
                    ++ evaluation_events (_swap_labelmap_dict (labelmap_dict_of ritems))
                                         relation_metrics phrase_metrics)
                ++ (log_events relation_metrics ++ log_events phrase_metrics)
                ++ [Logger_log_value "eval_epoch.score"
                                     (VFloat (composite_score x y z))])
          by same_events
    end.
    match goal with
    | |- context [logger_after E lg (setup_events a ++ ?t)] =>
        destruct (logger_after_setup a lg t) as (values & -> & Hget)
    end.
    change (default [] (Some values)) with values. rewrite Hget.
    unfold ingestion_events, groundtruth_events, evaluation_events.
    unfold earlier_scores. rewrite !logged_app.
    rewrite !(logged_none _ (ingest_events _ _ _))
      by (apply Forall_ingest_events; intros; exact I).
    rewrite <- !app_assoc. reflexivity. }
  apply bind_inv in H as [(e & Hf & ->)|(scores & w22 & Hf & H)].
  { pose proof (Logger_values_run _ _ _ _ Hf) as (-> & _).
    apply Logger_values_Raise in Hf. rewrite Hf in Hscores.
    symmetry in Hscores. apply app_nil in Hscores as [_ [=]]. }
  apply Logger_values_run in Hf as (-> & Hs). specialize (Hs _ eq_refl).
  rewrite Hs in Hscores. simpl in Hscores. subst scores.
  apply bind_inv in H as [(e & Hm & ->)|([] & w23 & Hf & H)];
    [apply log_value_run in Hm as (? & _); discriminate|].
  apply log_value_run in Hf as (_ & _ & Hf). acc Hacc Hf.
  apply bind_inv in H as [(e & Hm & ->)|([] & w24 & Hf & H)];
    [apply flush_run in Hm as (? & _); discriminate|].
  apply flush_run in Hf as (_ & _ & Hf). acc Hacc Hf.
  apply Logger_call_run in H as (-> & _ & Hf). acc Hacc Hf.
  finish Hacc.
  replace (Z.of_nat (length (earlier_scores E a lg relation_metrics phrase_metrics
                             ++ [VFloat (composite_score x y z)])) - 1)%Z
    with (Z.of_nat (length (earlier_scores E a lg relation_metrics phrase_metrics)))
    by (rewrite length_app; simpl; lia).
  at_work ends_at_the_end.
Qed.
End ends.
(** ** What the ways a run ends show *)

Section endings.
Context {E : Env}.
Variable fs : FileSystem.
Implicit Types (w : World E).

(** The events of a run that raises are events of the stages before the
    composite score is logged. *)
Lemma ends_Raise_events (P : Event -> Prop) (a : Args) (lg : option LogValues)
    (e : exn) (t : list Event) :
  ends E fs a lg (Raise e) t ->
  Forall P (setup_events a) ->
  (forall who image_id d, P (Add_single_ground_truth_image_info who image_id d)) ->
  (forall who image_id d, P (Add_single_detected_image_info who image_id d)) ->
  P (Read_csv (input_predictions a)) ->
  (forall who rels, P (Evaluate who rels)) ->
  (forall who m, P (Evaluate_returned who m)) ->
  (forall k x, P (Logger_log_value ("eval_epoch." ++ k)%string (VFloat x))) ->
  Forall P t.
Proof.
  intros Hends Hsetup Hgt Hdet Hread Hev Hret Hlog.
  assert (Hgts : forall base ids,
             Forall P (ingest_events Add_single_ground_truth_image_info base ids)).
  { intros. apply Forall_ingest_events, Hgt. }
  assert (Hdets : forall base ids,
             Forall P (ingest_events Add_single_detected_image_info base ids)).
  { intros. apply Forall_ingest_events, Hdet. }
  assert (Hlogs : forall m, Forall P (log_events m)).
  { intros m. apply Forall_forall. intros x Hx.
    apply elem_of_log_events in Hx as (k & v & _ & ->). apply Hlog. }
  remember (Raise e) as r eqn:Hr.
  destruct Hends as [| | | |boxes labels citems ritems r t _ Hwork];
    try (apply Forall_take; exact Hsetup).
  apply Forall_app. split; [exact Hsetup|].
  destruct Hwork; try discriminate Hr;
    unfold ingestion_events, groundtruth_events, evaluation_events;
    repeat first
      [ apply Forall_nil_2
      | apply Forall_app; split
      | apply Forall_cons; split
      | apply Hgts | apply Hdets | apply Hlogs | apply Hev | apply Hret | exact Hread
      | (eapply Forall_prefix; [eassumption|]) ].
Qed.

(** The events of a run that reaches its end. *)
Lemma ends_Return (a : Args) (lg : option LogValues) (t : list Event) :
  ends E fs a lg (Return tt) t ->
  exists boxes labels citems ritems predictions rm pm x y z,
    groundtruth_inputs E fs a boxes labels citems ritems
    /\ reads_csv E fs (input_predictions a) predictions
    /\ dict_get rm relation_mAP_key = Some x
    /\ dict_get rm relation_recall_key = Some y
    /\ dict_get pm phrase_mAP_key = Some z
    /\ t = full_trace a (group_keys "ImageID" (concat boxes labels))
             (group_keys "ImageID" predictions)
             (_swap_labelmap_dict (labelmap_dict_of ritems)) rm pm
             (composite_score x y z)
             (Z.of_nat (length (earlier_scores E a lg rm pm))).
Proof.
  intros Hends. remember (Return tt) as r eqn:Hr.
  destruct Hends as [| | | |boxes labels citems ritems r t Hin Hwork];
    try discriminate Hr.
  destruct Hwork; try discriminate Hr.
  exists boxes, labels, citems, ritems, predictions, relation_metrics, phrase_metrics,
    relation_mAP, relation_recall, phrase_mAP.
  repeat (split; [assumption|]). reflexivity.
Qed.

(** A run that raises has not come to the composite score. *)
Lemma main_Raise_events (a : Args) (lg : option LogValues) (e : exn) w :
  run_main fs a lg = (Raise e, w) -> Forall before_the_score (trace w).
Proof.
  intros H. apply main_ends in H as [Hends _].
  eapply ends_Raise_events; [exact Hends| |try (intros; exact I)..].
  - unfold setup_events. repeat constructor.
  - intros k x. exists k, x. split; reflexivity.
Qed.

(** X1: [main] flushes the logger in the runs that reach its end and in no
    other: there [Logger().flush()] is called once, after every value is
    logged, and the message [End evaluation] follows; a run that raises
    never flushes, so what it has logged by then stays unflushed. *)
Theorem main_flushes_when_it_reaches_its_end
    (a : Args) (lg : option LogValues) (r : result unit) w :
  run_main fs a lg = (r, w) ->
  (Logger_flush ∈ trace w <-> r = Return tt)
  /\ (Logger_message "End evaluation" ∈ trace w <-> r = Return tt)
  /\ count_events is_flush (trace w) = (if r is Return _ then 1 else 0)
  /\ (forall i j e,
         trace w !! i = Some e -> trace w !! j = Some Logger_flush ->
         is_log_value e = true -> i < j).
Proof.
  intros H.
  destruct r as [[]|e].
  - apply main_ends in H as [Hends _]. apply ends_Return in Hends
      as (boxes & labels & citems & ritems & preds & rm & pm & x & y & z
          & _ & _ & _ & _ & _ & ->).
    assert (Hflush : forall t s ep,
               Logger_flush ∈ t ++ closing_events s ep
               /\ Logger_message "End evaluation" ∈ t ++ closing_events s ep).
    { intros t s ep. rewrite !elem_of_app. unfold closing_events.
      split; right; [do 2 apply list_elem_of_further; apply list_elem_of_here|].
      do 3 apply list_elem_of_further. apply list_elem_of_here. }
    unfold full_trace, work_events. rewrite !app_assoc.
    split; [split; [reflexivity | intros _; apply Hflush]|].
    split; [split; [reflexivity | intros _; apply Hflush]|].
    split.
    + rewrite <- !app_assoc. rewrite !count_events_app.
      rewrite !(count_events_none _ (ingest_events _ _ _)) by solve_Forall.
      rewrite !(count_events_none _ (log_events _)) by solve_Forall.
      reflexivity.
    + intros i j e Hi Hj He.
      change (closing_events (composite_score x y z)
                (Z.of_nat (length (earlier_scores E a lg rm pm))))
        with ([Logger_log_value "eval_epoch.score" (VFloat (composite_score x y z));
               Logger_log_value "eval_epoch.epoch"
                 (VInt (Z.of_nat (length (earlier_scores E a lg rm pm))))]
              ++ [Logger_flush; Logger_message "End evaluation"]) in Hi, Hj.
      rewrite app_assoc in Hi, Hj.
      refine (order_split is_log_value is_flush _ _ i j e Logger_flush _ _ Hi He Hj eq_refl);
        unfold setup_events, evaluation_events; solve_Forall.
  - apply main_Raise_events in H as Hall.
    rewrite Forall_forall in Hall.
    split; [split; [intros Hin; destruct (Hall _ Hin) | discriminate]|].
    split; [split; [intros Hin; discriminate (Hall _ Hin) | discriminate]|].
    split.
    + apply count_events_none. apply Forall_forall. intros x Hx.
      specialize (Hall _ Hx). destruct x; try reflexivity. destruct Hall.
    + intros i j x _ Hj _. apply list_elem_of_lookup_2 in Hj. destruct (Hall _ Hj).
Qed.

Lemma missing_key_None (rm pm : Metrics) (x y z : float) :
  dict_get rm relation_mAP_key = Some x -> dict_get rm relation_recall_key = Some y ->
  dict_get pm phrase_mAP_key = Some z -> missing_key rm pm = None.
Proof. intros Hx Hy Hz. unfold missing_key. rewrite Hx, Hy, Hz. reflexivity. Qed.

(** X2: the metrics are logged before the score reads them.  Once both
    evaluations have returned, every metric of both results is logged,
    whatever the results hold; [main] then reads the relation mAP, the
    relation Recall@50 and the phrase mAP, in this order, and the first of
    them that is missing ends the run with its [KeyError], after the
    metrics were logged and before anything is flushed.  With the three
    present the run reaches its end. *)
Theorem main_logs_the_metrics_before_it_reads_them
    (a : Args) (lg : option LogValues) (r : result unit) w (phrase_metrics : Metrics) :
  run_main fs a lg = (r, w) ->
  Evaluate_returned Phrase phrase_metrics ∈ trace w ->
  exists relation_metrics,
    Evaluate_returned Relation relation_metrics ∈ trace w
    /\ (forall k v,
           (k, v) ∈ relation_metrics \/ (k, v) ∈ phrase_metrics ->
           Logger_log_value ("eval_epoch." ++ k)%string (VFloat v) ∈ trace w)
    /\ match missing_key relation_metrics phrase_metrics with
       | Some k =>
           r = Raise (KeyError k)
           /\ (Logger_flush ∉ trace w)
           /\ (forall n, Logger_log_value "eval_epoch.epoch" (VInt n) ∉ trace w)
       | None => r = Return tt
       end.
Proof.
  intros H Hin.
  assert (Hraise : forall e, r = Raise e -> Forall before_the_score (trace w)).
  { intros e ->. eapply main_Raise_events, H. }
  apply main_ends in H as [Hends _].
  revert Hin Hraise.
  destruct Hends as [| | | |boxes labels citems ritems r t _ Hwork];
    intros Hin Hraise;
    try (unfold setup_events in Hin; cbn [take] in Hin; elem_cases Hin).
  assert (Hgt : forall base ids t',
             t' `prefix_of` ingest_events Add_single_ground_truth_image_info base ids ->
             Evaluate_returned Phrase phrase_metrics ∉ t').
  { intros base ids t' Hpre Hx. apply (elem_of_prefix _ _ _ Hpre) in Hx.
    apply elem_of_ingest_events in Hx as (? & ? & ? & [=]). }
  assert (Hdet : forall base ids t',
             t' `prefix_of` ingest_events Add_single_detected_image_info base ids ->
             Evaluate_returned Phrase phrase_metrics ∉ t').
  { intros base ids t' Hpre Hx. apply (elem_of_prefix _ _ _ Hpre) in Hx.
    apply elem_of_ingest_events in Hx as (? & ? & ? & [=]). }
  assert (Hlog : forall m, Evaluate_returned Phrase phrase_metrics ∉ log_events m).
  { intros m Hx. apply elem_of_log_events in Hx as (? & ? & _ & [=]). }
  revert Hin Hraise.
  destruct Hwork; intros Hin Hraise;
    unfold ingestion_events, groundtruth_events, work_events, evaluation_events,
      closing_events in *;
    repeat match type of Hin with
           | _ ∈ _ ++ _ => apply elem_of_app in Hin as [Hin|Hin]
           | _ ∈ _ :: _ => apply elem_of_cons in Hin as [Hin|Hin]; [try discriminate Hin|]
           | _ ∈ [] => apply elem_of_nil in Hin; destruct Hin
           end;
    try (exfalso; first [ eapply Hgt; [|exact Hin]; solve [reflexivity | eassumption]
                        | eapply Hdet; [|exact Hin]; solve [reflexivity | eassumption]
                        | eapply Hlog; exact Hin ]).
  - (* a metric of the score is missing *)
    injection Hin as <-. exists relation_metrics.
    split; [rewrite !elem_of_app, !elem_of_cons; auto 20|].
    split.
    + intros k' v Hkv. rewrite !elem_of_app, !elem_of_cons, !elem_of_log_events.
      destruct Hkv; eauto 20.
    + match goal with Hk : missing_key _ _ = Some _ |- _ => rewrite Hk end.
      specialize (Hraise _ eq_refl). rewrite Forall_forall in Hraise.
      split; [reflexivity|]. split.
      * intros Hx. destruct (Hraise _ Hx).
      * intros n Hx. destruct (Hraise _ Hx) as (? & ? & _ & [=]).
  - (* the run reaches its end *)
    injection Hin as <-. exists relation_metrics.
    split; [rewrite !elem_of_app, !elem_of_cons; auto 20|].
    split.
    + intros k v Hkv. rewrite !elem_of_app, !elem_of_cons, !elem_of_log_events.
      destruct Hkv; eauto 20.
    + erewrite missing_key_None by eassumption. reflexivity.
Qed.

Lemma logged_log_events_None (m : Metrics) (k : string) :
  dict_get m k = None -> logged ("eval_epoch." ++ k)%string (log_events m) = [].
Proof.
  induction m as [|[k0 v0] m IH]; [reflexivity|]. cbn [dict_get].
  destruct (decide (k0 = k)) as [|Hne]; [discriminate|]. intros Hm.
  unfold log_events. cbn [map fst snd]. rewrite logged_cons.
  destruct (decide _) as [Heq|_]; [|apply IH, Hm].
  simpl in Heq. injection Heq as Heq. contradiction.
Qed.

Lemma logged_setup_events (a : Args) (name : string) : logged name (setup_events a) = [].
Proof. reflexivity. Qed.

(** X3: the epoch [main] logs is the index of the composite score in the
    list the logger keeps under [eval_epoch.score], counted from 0: in a
    run that reaches its end, the list holds what the logger held when it
    was created, followed by what this run logged under that name, and the
    epoch logged last is its length less one.  When the evaluators return
    no metric called [score], that is the number of scores the logger
    held before the run, 0 for a logger that starts empty. *)
Theorem main_logs_the_index_of_the_score (a : Args) (lg : option LogValues) w :
  run_main fs a lg = (Return tt, w) ->
  exists (values : LogValues) (epoch_id : Z),
    logger w = Some values
    /\ last (logged "eval_epoch.epoch" (trace w)) = Some (VInt epoch_id)
    /\ default [] (dict_get values "eval_epoch.score")
       = default [] (dict_get (initial_values E a lg) "eval_epoch.score")
         ++ logged "eval_epoch.score" (trace w)
    /\ Z.of_nat (length (default [] (dict_get values "eval_epoch.score")))
       = (epoch_id + 1)%Z
    /\ ((forall who m, Evaluate_returned who m ∈ trace w -> dict_get m "score" = None) ->
        epoch_id
        = Z.of_nat (length (default [] (dict_get (initial_values E a lg)
                                                 "eval_epoch.score")))).
Proof.
  intros H. apply main_ends in H as [Hends Hl].
  apply ends_Return in Hends
    as (boxes & labels & citems & ritems & preds & rm & pm & x & y & z
        & _ & _ & _ & _ & _ & Ht).
  rewrite Ht in Hl |- *. clear Ht.
  set (ep := Z.of_nat (length (earlier_scores E a lg rm pm))) in *.
  unfold full_trace in Hl.
  destruct (logger_after_setup (E := E) a lg
              (work_events a (group_keys "ImageID" (concat boxes labels))
                 (group_keys "ImageID" preds)
                 (_swap_labelmap_dict (labelmap_dict_of ritems)) rm pm
                 (composite_score x y z) ep)) as (values & Hv & Hget).
  rewrite Hv in Hl. exists values, ep. split; [exact Hl|].
  assert (Hlogged : forall name,
             logged name (full_trace a (group_keys "ImageID" (concat boxes labels))
                            (group_keys "ImageID" preds)
                            (_swap_labelmap_dict (labelmap_dict_of ritems)) rm pm
                            (composite_score x y z) ep)
             = logged name (log_events rm ++ log_events pm)
               ++ logged name (closing_events (composite_score x y z) ep)).
  { intros name. rewrite logged_full, logged_app, app_assoc. reflexivity. }
  assert (Hscore : logged "eval_epoch.score"
                     (full_trace a (group_keys "ImageID" (concat boxes labels))
                        (group_keys "ImageID" preds)
                        (_swap_labelmap_dict (labelmap_dict_of ritems)) rm pm
                        (composite_score x y z) ep)
                   = logged "eval_epoch.score" (log_events rm ++ log_events pm)
                     ++ [VFloat (composite_score x y z)]).
  { rewrite Hlogged. reflexivity. }
  split; [rewrite Hlogged; apply last_snoc|].
  assert (Hvalues : default [] (dict_get values "eval_epoch.score")
                    = default [] (dict_get (initial_values E a lg) "eval_epoch.score")
                      ++ logged "eval_epoch.score"
                           (full_trace a (group_keys "ImageID" (concat boxes labels))
                              (group_keys "ImageID" preds)
                              (_swap_labelmap_dict (labelmap_dict_of ritems)) rm pm
                              (composite_score x y z) ep)).
  { rewrite Hget. unfold full_trace. rewrite (logged_app _ (setup_events a)).
    rewrite logged_setup_events. reflexivity. }
  split; [exact Hvalues|]. split.
  - rewrite Hvalues, Hscore, app_assoc, length_app.
    fold (earlier_scores E a lg rm pm). subst ep. simpl. lia.
  - intros Hnone. subst ep. unfold earlier_scores.
    rewrite logged_app.
    change "eval_epoch.score" with ("eval_epoch." ++ "score")%string at 2 3.
    rewrite (logged_log_events_None rm "score"), (logged_log_events_None pm "score").
    + rewrite app_nil_r. reflexivity.
    + apply (Hnone Phrase). eapply returned_iff; reflexivity.
    + apply (Hnone Relation). eapply returned_iff; reflexivity.
Qed.

(** *** Inputs that do not load *)

Lemma csv_error_reads (path : string) (e : exn) (df : DataFrame) :
  csv_error E fs path e -> reads_csv E fs path df -> False.
Proof.
  intros [[Hf _]|(text & Hf & Hp & _)] (text' & Hf' & Hp'); congruence.
Qed.

Lemma csv_error_inj (path : string) (e e' : exn) :
  csv_error E fs path e -> csv_error E fs path e' -> e = e'.
Proof.
  intros [[Hf ->]|(text & Hf & Hp & ->)] [[Hf' ->]|(text' & Hf' & Hp' & ->)];
    congruence.
Qed.

Lemma labelmap_error_reads (path : string) (e : exn) (items : list Item) :
  labelmap_error E fs path e -> reads_labelmap E fs path items -> False.
Proof.
  intros [[Hf _]|(text & Hf & Hp & _)] (text' & Hf' & Hp'); congruence.
Qed.

Lemma labelmap_error_inj (path : string) (e e' : exn) :
  labelmap_error E fs path e -> labelmap_error E fs path e' -> e = e'.
Proof.
  intros [[Hf ->]|(text & Hf & Hp & ->)] [[Hf' ->]|(text' & Hf' & Hp' & ->)];
    congruence.
Qed.

Ltac absurd_input :=
  solve [ exfalso; eauto using csv_error_reads, labelmap_error_reads
        | match goal with
          | H : groundtruth_inputs _ _ _ _ _ _ _ |- _ =>
              destruct H as (? & ? & ? & ?); exfalso;
              eauto using csv_error_reads, labelmap_error_reads
          end ].

(** X4: [main] loads the two annotation files and the two label maps, in
    this order, before it constructs an evaluator.  The first of the four
    that is missing or does not parse ends the run with its error, with
    the logger created and nothing else done: no evaluator is constructed
    unless the four have loaded, and once they have, both evaluators are
    constructed. *)
Theorem main_loads_four_inputs_before_the_evaluators
    (a : Args) (lg : option LogValues) (r : result unit) w :
  run_main fs a lg = (r, w) ->
  (forall who,
      New_evaluator who ∈ trace w ->
      exists boxes labels class_items relationship_items,
        groundtruth_inputs E fs a boxes labels class_items relationship_items)
  /\ (forall boxes labels class_items relationship_items,
         groundtruth_inputs E fs a boxes labels class_items relationship_items ->
         setup_events a `prefix_of` trace w)
  /\ (forall e,
         csv_error E fs (input_annotations_boxes a) e ->
         r = Raise e /\ trace w = take 3 (setup_events a))
  /\ (forall boxes e,
         reads_csv E fs (input_annotations_boxes a) boxes ->
         csv_error E fs (input_annotations_labels a) e ->
         r = Raise e /\ trace w = take 4 (setup_events a))
  /\ (forall boxes labels e,
         reads_csv E fs (input_annotations_boxes a) boxes ->
         reads_csv E fs (input_annotations_labels a) labels ->
         labelmap_error E fs (input_class_labelmap a) e ->
         r = Raise e /\ trace w = take 5 (setup_events a))
  /\ (forall boxes labels class_items e,
         reads_csv E fs (input_annotations_boxes a) boxes ->
         reads_csv E fs (input_annotations_labels a) labels ->
         reads_labelmap E fs (input_class_labelmap a) class_items ->
         labelmap_error E fs (input_relationship_labelmap a) e ->
         r = Raise e /\ trace w = take 6 (setup_events a)).
Proof.
  intros H. apply main_ends in H as [Hends _].
  destruct Hends as [e0 He0|boxes0 e0 Hb0 He0|boxes0 labels0 e0 Hb0 Hl0 He0
                    |boxes0 labels0 citems0 e0 Hb0 Hl0 Hc0 He0
                    |boxes0 labels0 citems0 ritems0 r t Hin0 Hwork].
  all: split; [intros who Hin; try (unfold setup_events in Hin; cbn [take] in Hin;
                                    elem_cases Hin); eauto 6|].
  all: split; [intros boxes labels citems ritems Hin; try absurd_input;
               apply prefix_app_r; reflexivity|].
  all: split; [intros e He; try absurd_input;
               rewrite (csv_error_inj _ _ _ He He0); split; reflexivity|].
  all: split; [intros boxes e Hb He; try absurd_input;
               rewrite (csv_error_inj _ _ _ He He0); split; reflexivity|].
  all: split; [intros boxes labels e Hb Hl He; try absurd_input;
               rewrite (labelmap_error_inj _ _ _ He He0); split; reflexivity|].
  all: intros boxes labels citems e Hb Hl Hc He; try absurd_input;
    rewrite (labelmap_error_inj _ _ _ He He0); split; reflexivity.
Qed.

Lemma concat_columns (col : string) (df1 df2 : DataFrame) :
  col ∈ df_columns (concat df1 df2) <-> col ∈ df_columns df1 \/ col ∈ df_columns df2.
Proof.
  unfold concat. cbn [df_columns].
  rewrite merge_sort_Permutation, elem_of_remove_dups, elem_of_app. reflexivity.
Qed.

(** X5: the images are grouped by the column [ImageID].  When the two
    annotation files and the two label maps load and neither annotation
    file has that column, the run ends with [KeyError: 'ImageID'] once
    both evaluators are constructed, before any image is ingested.  When
    the predictions file has no such column, no detection is ingested and
    nothing is evaluated. *)
Theorem main_groups_by_the_ImageID_column
    (a : Args) (lg : option LogValues) (r : result unit) w :
  run_main fs a lg = (r, w) ->
  (forall boxes labels class_items relationship_items,
      groundtruth_inputs E fs a boxes labels class_items relationship_items ->
      "ImageID" ∉ df_columns boxes -> "ImageID" ∉ df_columns labels ->
      r = Raise (KeyError "ImageID") /\ trace w = setup_events a)
  /\ (forall predictions,
         reads_csv E fs (input_predictions a) predictions ->
         "ImageID" ∉ df_columns predictions ->
         r <> Return tt
         /\ forall e, e ∈ trace w -> is_detection_call e = false /\ is_evaluate e = false).
Proof.
  intros H. apply main_ends in H as [Hends _]. split.
  - intros boxes labels citems ritems Hin Hb Hl.
    destruct Hends as [| | | |boxes0 labels0 citems0 ritems0 r t Hin0 Hwork];
      try absurd_input.
    assert (Hcol : "ImageID" ∉ df_columns (concat boxes0 labels0)).
    { destruct Hin as (Hrb & Hrl & _), Hin0 as (Hrb0 & Hrl0 & _).
      rewrite (reads_csv_inj _ _ _ _ Hrb0 Hrb), (reads_csv_inj _ _ _ _ Hrl0 Hrl).
      rewrite concat_columns. tauto. }
    destruct Hwork; try contradiction.
    split; [reflexivity | apply app_nil_r].
  - intros predictions Hp Hcol.
    assert (Hsetup : forall n e, e ∈ take n (setup_events a) ->
                                 is_detection_call e = false /\ is_evaluate e = false).
    { intros n e He. apply (elem_of_prefix _ _ _ (prefix_take _ n)) in He.
      unfold setup_events in He. elem_cases He; subst e; split; reflexivity. }
    destruct Hends as [| | | |boxes0 labels0 citems0 ritems0 r t Hin0 Hwork];
      try (split; [discriminate | apply Hsetup]).
    assert (Hgt : forall gt_ids e,
               e ∈ groundtruth_events a gt_ids ->
               is_detection_call e = false /\ is_evaluate e = false).
    { intros gt_ids e He. unfold groundtruth_events in He.
      apply elem_of_app in He as [He|He].
      - apply elem_of_ingest_events in He as (? & ? & ? & ->). split; reflexivity.
      - apply list_elem_of_singleton in He as ->. split; reflexivity. }
    assert (Hnot : forall predictions0,
               reads_csv E fs (input_predictions a) predictions0 ->
               "ImageID" ∈ df_columns predictions0 -> False).
    { intros predictions0 Hp0. rewrite (reads_csv_inj _ _ _ _ Hp0 Hp). exact Hcol. }
    destruct Hwork;
      try match goal with
          | H1 : reads_csv E fs (input_predictions a) ?p, H2 : "ImageID" ∈ df_columns ?p
            |- _ => exfalso; exact (Hnot p H1 H2)
          end;
      (split; [discriminate|]); intros e0 He0.
    + apply elem_of_app in He0 as [He0|He0]; [apply (Hsetup 8), He0|].
      apply elem_of_nil in He0 as [].
    + apply elem_of_app in He0 as [He0|He0]; [apply (Hsetup 8), He0|].
      match goal with Hpre : _ `prefix_of` _ |- _ =>
        apply (elem_of_prefix _ _ _ Hpre) in He0 end.
      apply elem_of_ingest_events in He0 as (? & ? & ? & ->). split; reflexivity.
    + apply elem_of_app in He0 as [He0|He0]; [apply (Hsetup 8), He0 | eapply Hgt, He0].
    + apply elem_of_app in He0 as [He0|He0]; [apply (Hsetup 8), He0 | eapply Hgt, He0].
Qed.

(** *** The place of the predictions *)

Lemma lookup_middle {A : Type} (l1 l2 : list A) (x y : A) (i : nat) :
  (l1 ++ x :: l2) !! i = Some y ->
  (i < length l1 /\ l1 !! i = Some y)
  \/ (i = length l1 /\ y = x)
  \/ (length l1 < i /\ y ∈ l2).
Proof.
  intros H. apply lookup_app_Some in H as [H|[Hle H]].
  - left. split; [eapply lookup_lt_Some, H | exact H].
  - destruct (i - length l1) as [|n] eqn:Hn; simpl in H.
    + right. left. injection H as <-. split; [lia | reflexivity].
    + right. right. split; [lia|]. eapply list_elem_of_lookup_2, H.
Qed.

Lemma full_trace_split a gt_ids det_ids rels rm pm s ep :
  full_trace a gt_ids det_ids rels rm pm s ep
  = (setup_events a ++ ingest_events Add_single_ground_truth_image_info 0 gt_ids)
    ++ Read_csv (input_predictions a)
       :: (ingest_events Add_single_detected_image_info (length gt_ids) det_ids
           ++ evaluation_events rels rm pm ++ log_events rm ++ log_events pm
           ++ closing_events s ep).
Proof. unfold full_trace, work_events. rewrite <- !app_assoc. reflexivity. Qed.

(** X6: the predictions file is read between the two loops.  A run reads
    the boxes file and the labels file as its third and fourth call; any
    other [read_csv] is of the predictions file, and it comes after every
    groundtruth call and before every detection call and every
    evaluation.  So a predictions file that is missing or does not parse
    is found out only when all the groundtruth has been ingested. *)
Theorem main_reads_the_predictions_between_the_loops
    (a : Args) (lg : option LogValues) (r : result unit) w :
  run_main fs a lg = (r, w) ->
  forall i path,
    trace w !! i = Some (Read_csv path) ->
    (i = 2 /\ path = input_annotations_boxes a)
    \/ (i = 3 /\ path = input_annotations_labels a)
    \/ (path = input_predictions a
        /\ forall j e,
             trace w !! j = Some e ->
             (is_groundtruth_call e = true -> j < i)
             /\ (is_detection_call e || is_evaluate e = true -> i < j)).
Proof.
  intros H i path Hi.
  apply main_trace_prefix in H
    as (gt_ids & det_ids & rels & rm & pm & s & ep & _ & _ & Hpre & _).
  apply (prefix_lookup_Some _ _ _ _ Hi) in Hpre as Hi'.
  rewrite full_trace_split in Hi'.
  assert (Hrest : forall e,
             e ∈ ingest_events Add_single_detected_image_info (length gt_ids) det_ids
                 ++ evaluation_events rels rm pm ++ log_events rm ++ log_events pm
                 ++ closing_events s ep ->
             is_groundtruth_call e = false /\ forall p, e <> Read_csv p).
  { apply Forall_forall. unfold evaluation_events, closing_events.
    solve_Forall; split; (reflexivity || discriminate). }
  assert (Hfirst : forall e,
             e ∈ setup_events a
                 ++ ingest_events Add_single_ground_truth_image_info 0 gt_ids ->
             is_detection_call e || is_evaluate e = false).
  { apply Forall_forall. unfold setup_events. solve_Forall. }
  apply lookup_middle in Hi' as [[_ Hi']|[[Hlen [= ->]]|[_ Hin]]].
  - (* among the first events *)
    apply lookup_app_Some in Hi' as [Hi'|[_ Hi']].
    + unfold setup_events in Hi'.
      do 8 (destruct i as [|i]; [simpl in Hi'; try discriminate Hi'; injection Hi' as <-;
                                 auto|]).
      discriminate Hi'.
    + apply list_elem_of_lookup_2, elem_of_ingest_events in Hi'
        as (? & ? & ? & [=]).
  - (* the predictions *)
    right. right. split; [reflexivity|]. intros j e Hj.
    apply (prefix_lookup_Some _ _ _ _ Hj) in Hpre as Hj'.
    rewrite full_trace_split in Hj'.
    apply lookup_middle in Hj' as [[Hlt Hj']|[[Hj' ->]|[Hlt Hin]]].
    + split; [intros _; lia|]. intros He.
      apply list_elem_of_lookup_2, Hfirst in Hj'. congruence.
    + split; discriminate.
    + split; [|intros _; lia]. intros He. apply Hrest in Hin as [Hin _]. congruence.
  - apply Hrest in Hin as [_ Hin]. destruct (Hin path). reflexivity.
Qed.
End endings.
(** ** Not-a-number metrics *)

Section nan.
Context {E : Env}.
Variable fs : FileSystem.

Lemma is_nan_Prim2SF (x : float) : is_nan x = true <-> Prim2SF x = S754_nan.
Proof.
  unfold is_nan. rewrite FloatAxioms.eqb_spec. unfold SFeqb. split.
  - destruct (Prim2SF x) as [s|s| |s m e]; simpl; try discriminate; [|reflexivity|].
    + destruct s; discriminate.
    + rewrite Z.compare_refl, Pos.compare_cont_refl. destruct s; discriminate.
  - intros ->. reflexivity.
Qed.

Lemma mul_nan_l (x y : float) : is_nan x = true -> is_nan (x * y) = true.
Proof.
  rewrite !is_nan_Prim2SF, mul_spec. intros ->. reflexivity.
Qed.

Lemma add_nan_l (x y : float) : is_nan x = true -> is_nan (x + y) = true.
Proof.
  rewrite !is_nan_Prim2SF, add_spec. intros ->. reflexivity.
Qed.

Lemma add_nan_r (x y : float) : is_nan y = true -> is_nan (x + y) = true.
Proof.
  rewrite !is_nan_Prim2SF, add_spec. intros ->. destruct (Prim2SF x); reflexivity.
Qed.

(** X7: [main] does not check the metrics it combines: in a run that
    reaches its end, when one of the relation mAP, the relation Recall@50
    and the phrase mAP is not a number, the composite score that is logged
    is not a number either. *)
Theorem main_logs_nan_when_a_metric_is_nan (a : Args) (lg : option LogValues) (w : World E) :
  run_main fs a lg = (Return tt, w) ->
  exists relation_metrics phrase_metrics relation_mAP relation_recall phrase_mAP score,
    Evaluate_returned Relation relation_metrics ∈ trace w
    /\ Evaluate_returned Phrase phrase_metrics ∈ trace w
    /\ dict_get relation_metrics "VRDMetric_Relationships_mAP@0.5IOU" = Some relation_mAP
    /\ dict_get relation_metrics "VRDMetric_Relationships_Recall@50@0.5IOU"
       = Some relation_recall
    /\ dict_get phrase_metrics "VRDMetric_Phrases_mAP@0.5IOU" = Some phrase_mAP
    /\ last (logged "eval_epoch.score" (trace w)) = Some (VFloat score)
    /\ (is_nan relation_mAP = true \/ is_nan relation_recall = true
        \/ is_nan phrase_mAP = true ->
        is_nan score = true).
Proof.
  intros H. apply main_completed in H
    as (boxes & labels & citems & ritems & preds & rm & pm & x & y & z & ep
        & _ & _ & _ & _ & _ & Hx & Hy & Hz & Ht & _).
  exists rm, pm, x, y, z, (composite_score x y z).
  split; [eapply returned_iff; [exact Ht | reflexivity]|].
  split; [eapply returned_iff; [exact Ht | reflexivity]|].
  repeat (split; [assumption|]). split.
  - rewrite Ht, logged_full.
    change (logged "eval_epoch.score" (closing_events (composite_score x y z) ep))
      with [VFloat (composite_score x y z)].
    rewrite !app_assoc. apply last_snoc.
  - unfold composite_score. intros [Hn|[Hn|Hn]].
    + apply add_nan_l, add_nan_l, mul_nan_l, Hn.
    + apply add_nan_l, add_nan_r, mul_nan_l, Hn.
    + apply add_nan_r, mul_nan_l, Hn.
Qed.
End nan.
(** ** The directory and the name of the logger *)

Section logger_name.
Context {E : Env}.
Variable fs : FileSystem.

Lemma append_cons (c : ascii) (s t : string) :
  (String c s ++ t = String c (s ++ t))%string.
Proof. reflexivity. Qed.

Lemma append_nil_l (s : string) : ("" ++ s = s)%string.
Proof. reflexivity. Qed.

Lemma rpartition_sep_spec (p : string) :
  p = (fst (rpartition_sep p) ++ snd (rpartition_sep p))%string
  /\ has_slash (snd (rpartition_sep p)) = false
  /\ (has_slash p = false -> fst (rpartition_sep p) = "").
Proof.
  induction p as [|c p IH]; [repeat split|].
  cbn [rpartition_sep has_slash]. revert IH.
  destruct (rpartition_sep p) as [h t]. cbn [fst snd]. intros (IH1 & IH2 & IH3).
  destruct h as [|c' h].
  - rewrite append_nil_l in IH1. subst t.
    destruct (Ascii.eqb c slash) eqn:Hc; cbn [fst snd].
    + split; [reflexivity|]. split; [exact IH2 | discriminate].
    + split; [reflexivity|]. split; [|reflexivity].
      cbn [has_slash]. rewrite Hc, IH2. reflexivity.
  - cbn [fst snd]. split; [rewrite append_cons; f_equal; exact IH1|].
    split; [exact IH2|].
    intros Hs. apply orb_false_iff in Hs as [_ Hs]. discriminate (IH3 Hs).
Qed.

Lemma rstrip_sep_prefix (s : string) : exists rest, s = (rstrip_sep s ++ rest)%string.
Proof.
  induction s as [|c s [rest IH]]; [exists ""; reflexivity|].
  cbn [rstrip_sep]. destruct (rstrip_sep s) as [|c' r].
  - destruct (Ascii.eqb c slash).
    + exists (String c s). reflexivity.
    + exists s. reflexivity.
  - exists rest. rewrite append_cons. f_equal. exact IH.
Qed.

Lemma append_assoc (s1 s2 s3 : string) :
  ((s1 ++ s2) ++ s3 = s1 ++ (s2 ++ s3))%string.
Proof.
  induction s1 as [|c s1 IH]; [reflexivity|]. rewrite !append_cons. f_equal. exact IH.
Qed.

Lemma dirname_prefix (p : string) : exists rest, p = (dirname p ++ rest)%string.
Proof.
  destruct (rpartition_sep_spec p) as (Hp & _ & _). unfold dirname.
  destruct (all_sep (fst (rpartition_sep p))).
  - eexists. exact Hp.
  - destruct (rstrip_sep_prefix (fst (rpartition_sep p))) as [rest Hr].
    exists (rest ++ snd (rpartition_sep p))%string.
    rewrite <- append_assoc, <- Hr. exact Hp.
Qed.

Lemma split_head_no_slash (sep s : string) :
  has_slash s = false -> has_slash (split_head sep s) = false.
Proof.
  induction s as [|c s IH]; intros Hs.
  - rewrite split_head_nil. reflexivity.
  - rewrite split_head_cons. destruct (String.prefix sep (String c s)); [reflexivity|].
    cbn [has_slash] in *. apply orb_false_iff in Hs as [-> Hs]. apply IH, Hs.
Qed.

Lemma rpartition_sep_trailing (q : string) :
  rpartition_sep (q ++ "/") = ((q ++ "/")%string, "").
Proof.
  induction q as [|c q IH]; [reflexivity|].
  rewrite append_cons. cbn [rpartition_sep]. rewrite IH. destruct q; reflexivity.
Qed.

(** X8: the logger is what [main] creates first, once, and the message
    [Begin evaluation] follows, in every run.  Its run name never holds a
    ['/'], and its directory is a beginning of the output path.  An output
    path without a ['/'] gives the empty directory, and the run name is
    cut from the whole path; an output path that ends in ['/'] gives the
    empty run name. *)
Theorem main_creates_the_logger_first
    (a : Args) (lg : option LogValues) (r : result unit) (w : World E) :
  run_main fs a lg = (r, w) ->
  let dir_exp := dirname (output_metrics a) in
  let name := split_head ".json" (basename (output_metrics a)) in
  trace w !! 0 = Some (Logger_new dir_exp name)
  /\ trace w !! 1 = Some (Logger_message "Begin evaluation")
  /\ (forall i dir_logs name', trace w !! i = Some (Logger_new dir_logs name') -> i = 0)
  /\ has_slash name = false
  /\ (exists rest, output_metrics a = (dir_exp ++ rest)%string)
  /\ (has_slash (output_metrics a) = false ->
      dir_exp = "" /\ name = split_head ".json" (output_metrics a))
  /\ (forall q, output_metrics a = (q ++ "/")%string -> name = "").
Proof.
  intros H dir_exp name.
  assert (Hfirst : trace w !! 0 = Some (Logger_new dir_exp name)
                   /\ trace w !! 1 = Some (Logger_message "Begin evaluation")).
  { pose proof H as H'. apply main_ends in H' as [Hends _].
    destruct Hends; split; reflexivity. }
  destruct Hfirst as [H0 H1]. split; [exact H0|]. split; [exact H1|].
  destruct (rpartition_sep_spec (output_metrics a)) as (Hp & Ht & Hh).
  split; [|split; [|split; [|split]]].
  - intros i d n Hi.
    apply main_trace_prefix in H
      as (gt_ids & det_ids & rels & rm & pm & s & ep & _ & _ & Hpre & _).
    apply (prefix_lookup_Some _ _ _ _ Hi) in Hpre.
    destruct i as [|i]; [reflexivity|]. exfalso.
    unfold full_trace, setup_events in Hpre. cbn [app lookup list_lookup] in Hpre.
    apply list_elem_of_lookup_2 in Hpre. revert Hpre.
    change (Logger_new d n ∉ Logger_message "Begin evaluation"
              :: Read_csv (input_annotations_boxes a)
              :: Read_csv (input_annotations_labels a)
              :: Open (input_class_labelmap a) "r"
              :: Open (input_relationship_labelmap a) "r"
              :: New_evaluator Relation :: New_evaluator Phrase
              :: work_events a gt_ids det_ids rels rm pm s ep).
    assert (Hall : Forall (fun e => forall d n, e <> Logger_new d n)
                     (Logger_message "Begin evaluation"
                      :: Read_csv (input_annotations_boxes a)
                      :: Read_csv (input_annotations_labels a)
                      :: Open (input_class_labelmap a) "r"
                      :: Open (input_relationship_labelmap a) "r"
                      :: New_evaluator Relation :: New_evaluator Phrase
                      :: work_events a gt_ids det_ids rels rm pm s ep)).
    { unfold work_events, evaluation_events, closing_events.
      solve_Forall; intros; discriminate. }
    rewrite Forall_forall in Hall. intros Hin. eapply Hall; [exact Hin | reflexivity].
  - apply split_head_no_slash. exact Ht.
  - apply dirname_prefix.
  - intros Hs. unfold dir_exp, name, dirname, basename.
    specialize (Hh Hs). rewrite Hh in Hp |- *. rewrite append_nil_l in Hp. rewrite <- Hp.
    split; reflexivity.
  - intros q Hq. unfold name, basename. rewrite Hq, rpartition_sep_trailing. reflexivity.
Qed.
End logger_name.
(** ** More on the label maps *)

Section dict_size.
Context {K V : Type} `{EqDecision K}.
Implicit Types (d : PyDict K V) (k : K) (v : V).

Lemma dict_keys_set_fresh d k v :
  k ∉ dict_keys d -> dict_keys (dict_set d k v) = dict_keys d ++ [k].
Proof.
  intros Hk. rewrite dict_set_fresh by exact Hk. unfold dict_keys.
  rewrite map_app. reflexivity.
Qed.

Lemma dict_keys_assign_all d (kvs : list (K * V)) k :
  k ∈ dict_keys (assign_all d kvs) <-> k ∈ dict_keys d \/ k ∈ map fst kvs.
Proof.
  unfold assign_all. revert d. induction kvs as [|[k0 v0] kvs IH]; intros d; simpl.
  - rewrite elem_of_nil. tauto.
  - rewrite IH, elem_of_cons. destruct (decide (k0 ∈ dict_keys d)) as [Hin|Hnin].
    + rewrite dict_keys_set_in by exact Hin. split; [tauto|].
      intros [?|[->|?]]; auto.
    + rewrite dict_keys_set_fresh by exact Hnin. rewrite elem_of_app, list_elem_of_singleton.
      tauto.
Qed.

(** Assignments add an entry for each key that is new. *)
Lemma length_assign_all d (kvs : list (K * V)) :
  length (assign_all d kvs) <= length d + length kvs
  /\ (length (assign_all d kvs) = length d + length kvs
      <-> NoDup (map fst kvs) /\ forall k, k ∈ map fst kvs -> k ∉ dict_keys d).
Proof.
  unfold assign_all. revert d. induction kvs as [|[k0 v0] kvs IH]; intros d; simpl.
  - split; [lia|]. split; [|lia]. intros _. split; [apply NoDup_nil_2|].
    intros k Hk. apply elem_of_nil in Hk as [].
  - destruct (IH (dict_set d k0 v0)) as [Hle Heq].
    destruct (decide (k0 ∈ dict_keys d)) as [Hin|Hnin].
    + assert (Hlen : length (dict_set d k0 v0) = length d).
      { rewrite <- !(length_map fst). fold (dict_keys (dict_set d k0 v0)).
        fold (dict_keys d). rewrite dict_keys_set_in by exact Hin. reflexivity. }
      rewrite Hlen in Hle, Heq. split; [lia|]. split; [lia|].
      intros [_ Hfresh]. destruct (Hfresh k0); [apply list_elem_of_here | exact Hin].
    + assert (Hlen : length (dict_set d k0 v0) = S (length d)).
      { rewrite dict_set_fresh by exact Hnin. rewrite length_app. simpl. lia. }
      rewrite Hlen in Hle, Heq. split; [lia|].
      rewrite NoDup_cons.
      replace (length d + S (length kvs)) with (S (length d) + length kvs) by lia.
      rewrite Heq, dict_keys_set_fresh by exact Hnin. split.
      * intros [Hnd Hfresh]. split; [split; [|exact Hnd]|].
        -- intros Hk. apply (Hfresh k0 Hk). apply elem_of_app. right.
           apply list_elem_of_here.
        -- intros k Hk Hd. apply elem_of_cons in Hk as [->|Hk]; [contradiction|].
           apply (Hfresh k Hk). apply elem_of_app. left. exact Hd.
      * intros [[Hk0 Hnd] Hfresh]. split; [exact Hnd|].
        intros k Hk Hd. apply elem_of_app in Hd as [Hd|Hd].
        -- apply (Hfresh k); [apply list_elem_of_further, Hk | exact Hd].
        -- apply list_elem_of_singleton in Hd as ->. contradiction.
Qed.
End dict_size.

Section labelmap_size.
Context {E : Env}.
Variable fs : FileSystem.

Lemma NoDup_snd {A B : Type} (l : list (A * B)) :
  NoDup (map fst l) ->
  (forall a a' b, (a, b) ∈ l -> (a', b) ∈ l -> a = a') ->
  NoDup (map snd l).
Proof.
  induction l as [|[a b] l IH]; simpl; intros Hnd Hinj; [apply NoDup_nil_2|].
  apply NoDup_cons in Hnd as [Ha Hnd]. apply NoDup_cons. split.
  - intros Hb. apply list_elem_of_fmap in Hb as ([a' b'] & Hb & Hin). simpl in Hb. subst b'.
    apply Ha. replace a with a'.
    + apply list_elem_of_fmap. exists (a', b). split; [reflexivity | exact Hin].
    + apply (Hinj a' a b); [apply list_elem_of_further, Hin | apply list_elem_of_here].
  - apply IH; [exact Hnd|]. intros a1 a2 b0 H1 H2.
    apply (Hinj a1 a2 b0); apply list_elem_of_further; assumption.
Qed.

Lemma swap_swap_distinct {K V : Type} `{EqDecision K} `{EqDecision V} (d : PyDict K V) :
  NoDup (dict_keys d) -> NoDup (dict_values d) ->
  _swap_labelmap_dict (_swap_labelmap_dict d) = d.
Proof.
  intros Hk Hv. rewrite (swap_labelmap_dict_distinct d) by exact Hv.
  rewrite (swap_labelmap_dict_distinct (map swap_pair d)).
  - rewrite map_map. unfold swap_pair. simpl.
    induction d as [|[k v] d IH]; simpl; [reflexivity|]. f_equal.
    apply IH; [apply NoDup_cons in Hk as [_ ?] | apply NoDup_cons in Hv as [_ ?]];
      assumption.
  - unfold dict_values. rewrite map_map. simpl. exact Hk.
Qed.

(** X9: what [_swap_labelmap_dict] returns is a one-to-one dictionary,
    whatever dictionary it is given: its keys are pairwise distinct, and
    so are its values.  Its keys are the values of the dictionary given,
    each once, so it has no more entries than that one, and as many
    exactly when the values given are pairwise distinct.  Swapping it
    twice gives it back: the round trip loses entries at the first swap
    only. *)
Theorem swap_labelmap_dict_is_one_to_one
    (K V : Type) (HK : EqDecision K) (HV : EqDecision V) (d : PyDict K V) :
  dict_wf d ->
  NoDup (dict_keys (_swap_labelmap_dict d))
  /\ NoDup (dict_values (_swap_labelmap_dict d))
  /\ (forall v, v ∈ dict_keys (_swap_labelmap_dict d) <-> v ∈ dict_values d)
  /\ length (_swap_labelmap_dict d) <= length d
  /\ (length (_swap_labelmap_dict d) = length d <-> NoDup (dict_values d))
  /\ _swap_labelmap_dict (_swap_labelmap_dict (_swap_labelmap_dict d))
     = _swap_labelmap_dict d.
Proof.
  intros Hwf.
  assert (Hkeys : NoDup (dict_keys (_swap_labelmap_dict d))).
  { apply swap_labelmap_dict_wf. }
  assert (Hvals : NoDup (dict_values (_swap_labelmap_dict d))).
  { apply NoDup_snd; [exact Hkeys|]. intros v v' k Hin Hin'.
    apply (dict_elem_get _ _ _ Hkeys) in Hin, Hin'.
    apply (swap_labelmap_dict_sound d _ _ Hwf) in Hin, Hin'. congruence. }
  split; [exact Hkeys|]. split; [exact Hvals|].
  pose proof (length_assign_all (@nil (V * K)) (map swap_pair d)) as [Hle Heq].
  rewrite <- swap_labelmap_dict_assign in Hle, Heq.
  rewrite length_map in Hle, Heq. simpl in Hle, Heq.
  assert (Hfst : map fst (map swap_pair d) = dict_values d).
  { rewrite map_map. reflexivity. }
  rewrite Hfst in Heq.
  split; [|split; [exact Hle|split]].
  - intros v. rewrite swap_labelmap_dict_assign, dict_keys_assign_all, Hfst.
    unfold dict_keys at 1. simpl. rewrite elem_of_nil. tauto.
  - rewrite Heq. split; [tauto|]. intros Hnd. split; [exact Hnd|].
    intros k _ Hk. apply elem_of_nil in Hk as [].
  - apply swap_swap_distinct; assumption.
Qed.

(** X10: [_load_labelmap] never fails on the items of a label map that
    parses, whatever names they repeat: the dictionary it returns has the
    names of the items as its keys, each once, so it has no more entries
    than the label map has items, as many exactly when the names are
    pairwise distinct, and none for a label map without items.  The call
    opens the file for reading and changes nothing else: the objects, the
    evaluators and the logger are as before. *)
Theorem load_labelmap_keeps_one_entry_per_name
    (path : string) (w : World E) (d : PyDict string Z) (w' : World E) :
  _load_labelmap fs path w = (Return d, w') ->
  exists items,
    reads_labelmap E fs path items
    /\ (forall n, n ∈ dict_keys d <-> n ∈ map item_name items)
    /\ length d <= length items
    /\ (length d = length items <-> NoDup (map item_name items))
    /\ (items = [] -> d = [])
    /\ trace w' = trace w ++ [Open path "r"]
    /\ heap w' = heap w /\ next_ref w' = next_ref w
    /\ relation_evaluator w' = relation_evaluator w
    /\ phrase_evaluator w' = phrase_evaluator w
    /\ logger w' = logger w.
Proof.
  unfold _load_labelmap, bind, emit. simpl.
  destruct (fs path) as [text|] eqn:Hf; [|discriminate].
  destruct (text_format_Merge E text) as [items|] eqn:Hp; [|discriminate].
  unfold ret. intros [= <- <-]. exists items.
  split; [exists text; split; assumption|].
  pose proof (length_assign_all (@nil (string * Z)) (map item_pair items)) as [Hle Heq].
  rewrite <- labelmap_dict_of_assign in Hle, Heq.
  rewrite length_map in Hle, Heq. simpl in Hle, Heq.
  assert (Hfst : map fst (map item_pair items) = map item_name items).
  { rewrite map_map. reflexivity. }
  rewrite Hfst in Heq.
  split; [|split; [exact Hle|split; [|split]]].
  - intros n. rewrite labelmap_dict_of_assign, dict_keys_assign_all, Hfst.
    unfold dict_keys at 1. simpl. rewrite elem_of_nil. tauto.
  - rewrite Heq. split; [tauto|]. intros Hnd. split; [exact Hnd|].
    intros k _ Hk. apply elem_of_nil in Hk as [].
  - intros ->. reflexivity.
  - simpl. repeat split; reflexivity.
Qed.
End labelmap_size.
(** ** More on the command line *)

Section options.
Context {E : Env}.
Variable fs : FileSystem.

Lemma parse_optional_joined (d : Dest) (v : string) :
  parse_optional (option_of d ++ "=" ++ v) = Known (StoreAction d) (Some v).
Proof. destruct d; reflexivity. Qed.

Lemma parse_optional_exact (d : Dest) :
  parse_optional (option_of d) = Known (StoreAction d) None.
Proof. destruct d; reflexivity. Qed.

Lemma option_of_not_dashes (d : Dest) : String.eqb (option_of d) "--" = false.
Proof. destruct d; reflexivity. Qed.

Lemma joined_not_dashes (d : Dest) (v : string) :
  String.eqb (option_of d ++ "=" ++ v) "--" = false.
Proof. destruct d; reflexivity. Qed.

Lemma no_dash_Positional (v : string) :
  String.prefix "-" v = false ->
  parse_optional v = Positional /\ String.eqb v "--" = false.
Proof.
  destruct v as [|c v]; [split; reflexivity|].
  cbn [String.prefix]. intros Hc.
  assert (Hne : Ascii.eqb c "-" = false).
  { destruct (Ascii.eqb_spec c "-") as [->|]; [|reflexivity].
    destruct v; discriminate. }
  split.
  - cbn [parse_optional]. rewrite Hne. reflexivity.
  - cbn [String.eqb]. rewrite Hne. reflexivity.
Qed.

Lemma no_dash_is_value (v : string) : String.prefix "-" v = false -> is_value v = true.
Proof.
  intros Hv. apply no_dash_Positional in Hv as [Hp He].
  unfold is_value. rewrite Hp, He. reflexivity.
Qed.

(** The namespace after the options of [l]. *)
Lemma consume_spelt (l : list (Dest * string * Form)) :
  Forall spelt l ->
  forall (ns : Namespace) (extras : bool),
    consume ns extras (flat_map spell l)
    = finish (fold_left (fun ns g => ns_set ns (fst (fst g)) (snd (fst g))) l ns) extras.
Proof.
  induction 1 as [|[[d v] f] l Hg _ IH]; intros ns extras; [reflexivity|].
  cbn [flat_map fold_left fst snd]. destruct f; cbn [spell app consume].
  - rewrite joined_not_dashes, parse_optional_joined. apply IH.
  - rewrite option_of_not_dashes, parse_optional_exact.
    rewrite (no_dash_is_value v Hg). apply IH.
Qed.

Lemma before_dashes_spelt (l : list (Dest * string * Form)) :
  Forall spelt l -> existsb is_ambiguous (before_dashes (flat_map spell l)) = false.
Proof.
  induction 1 as [|[[d v] f] l Hg _ IH]; [reflexivity|].
  cbn [flat_map]. destruct f; cbn [spell app before_dashes].
  - rewrite joined_not_dashes. cbn [existsb]. rewrite IH.
    unfold is_ambiguous. rewrite parse_optional_joined. reflexivity.
  - rewrite option_of_not_dashes. cbn [before_dashes].
    destruct (no_dash_Positional v Hg) as [Hp He]. rewrite He. cbn [existsb].
    rewrite IH. unfold is_ambiguous. rewrite parse_optional_exact, Hp. reflexivity.
Qed.

Lemma fold_ns_set (l : list (Dest * string * Form)) (ns : Namespace) (d : Dest) :
  fold_left (fun ns g => ns_set ns (fst (fst g)) (snd (fst g))) l ns d
  = match last_value l d with Some v => Some v | None => ns d end.
Proof.
  revert ns. induction l as [|[[d0 v0] f0] l IH]; intros ns; [reflexivity|].
  cbn [fold_left fst snd]. rewrite IH. unfold last_value. cbn [find_last fst snd].
  destruct (find_last _ l) as [g|]; [reflexivity|]. cbn [fmap option_fmap option_map].
  unfold ns_set. destruct (decide (d = d0)) as [->|Hne].
  - rewrite bool_decide_eq_true_2 by reflexivity. reflexivity.
  - rewrite bool_decide_eq_false_2 by congruence. reflexivity.
Qed.

(** X11: the six options may be given in any order, each as
    [--option=value] or as [--option value], and more than once: the
    namespace holds for each option the value given last, and the parser
    leaves with status 2 when one of the six is not given at all. *)
Theorem parse_args_takes_the_options_in_any_order (l : list (Dest * string * Form)) :
  Forall spelt l ->
  parse_args (flat_map spell l)
  = match last_value l dest_input_annotations_boxes,
          last_value l dest_input_annotations_labels,
          last_value l dest_input_predictions,
          last_value l dest_input_class_labelmap,
          last_value l dest_input_relationship_labelmap,
          last_value l dest_output_metrics with
    | Some b, Some la, Some p, Some c, Some r, Some o =>
        Namespace_of (mkArgs b la p c r o)
    | _, _, _, _, _, _ => Exit 2
    end.
Proof.
  intros Hl. unfold parse_args.
  rewrite (before_dashes_spelt l Hl), (consume_spelt l Hl).
  unfold finish. cbn [existsb add_argument_calls required dest].
  rewrite !fold_ns_set. cbn [ns_empty].
  destruct (last_value l dest_input_annotations_boxes),
    (last_value l dest_input_annotations_labels),
    (last_value l dest_input_predictions),
    (last_value l dest_input_class_labelmap),
    (last_value l dest_input_relationship_labelmap),
    (last_value l dest_output_metrics); reflexivity.
Qed.

(** *** Abbreviated options *)

(** The strings an option string begins with, one by one. *)
Ltac walk H :=
  cbv beta iota in H;
  lazymatch type of H with
  | true = true => idtac
  | false = true => discriminate H
  | (match ?x with _ => _ end) = true =>
      lazymatch type of x with
      | string => destruct x as [|? ?]; walk H
      | _ => destruct x as [->|?]; walk H
      end
  end.

Ltac beginnings H :=
  lazymatch type of H with
  | String.prefix ?p _ = true => destruct p as [|? ?]; cbn [String.prefix] in H; walk H
  end.

Lemma filter_existsb {A : Type} (f : A -> bool) (l : list A) :
  existsb f l = false -> List.filter f l = [].
Proof.
  induction l as [|x l IH]; [reflexivity|]. cbn [existsb List.filter].
  intros Hex. apply orb_false_iff in Hex as [-> Hl]. apply IH, Hl.
Qed.

Lemma completions_cons (p : string) :
  completions p <> [] ->
  existsb (String.prefix p) (map fst option_string_actions) = true.
Proof.
  unfold completions. intros Hne.
  destruct (existsb _ _) eqn:Hex; [reflexivity|].
  destruct Hne. apply filter_existsb, Hex.
Qed.

Lemma abbreviation_Known (p : string) (d : Dest) :
  abbreviates p d = true ->
  parse_optional p = Known (StoreAction d) None
  /\ String.eqb p "--" = false
  /\ forall v, parse_optional (p ++ "=" ++ v) = Known (StoreAction d) (Some v)
               /\ String.eqb (p ++ "=" ++ v) "--" = false.
Proof.
  unfold abbreviates. intros H. apply andb_prop in H as [Hd Hc].
  apply bool_decide_eq_true_1 in Hc.
  assert (Hex : existsb (String.prefix p) (map fst option_string_actions) = true).
  { apply completions_cons. rewrite Hc. discriminate. }
  cbn [existsb map fst option_string_actions add_argument_calls app option_string dest]
    in Hex.
  repeat (apply orb_prop in Hex as [Hex|Hex]); try discriminate Hex;
    beginnings Hex; try discriminate Hd;
    vm_compute in Hc; try discriminate Hc;
    destruct d; try discriminate Hc;
    (split; [reflexivity|]); (split; [reflexivity|]); intros v; split; reflexivity.
Qed.

(** Two spellings of an option are consumed alike, wherever they stand. *)
Lemma consume_same_option (t1 t2 : string) (d : Dest) (e : option string) :
  parse_optional t1 = Known (StoreAction d) e ->
  parse_optional t2 = Known (StoreAction d) e ->
  String.eqb t1 "--" = false -> String.eqb t2 "--" = false ->
  forall (n : nat) (before after : list string) (ns : Namespace) (extras : bool),
    length before <= n ->
    consume ns extras (before ++ t1 :: after) = consume ns extras (before ++ t2 :: after).
Proof.
  intros H1 H2 He1 He2. induction n as [|n IH]; intros before after ns extras Hlen.
  - destruct before; [|simpl in Hlen; lia].
    cbn [app consume]. rewrite He1, He2, H1, H2. reflexivity.
  - destruct before as [|x before].
    { cbn [app consume]. rewrite He1, He2, H1, H2. reflexivity. }
    simpl in Hlen. cbn [app consume].
    destruct (String.eqb x "--"); [reflexivity|].
    destruct (parse_optional x) as [|[|d0] [v|]| |]; try reflexivity;
      try (apply IH; lia).
    destruct before as [|y before]; cbn [app].
    + unfold is_value. rewrite H1, H2. reflexivity.
    + destruct (is_value y); [|reflexivity]. apply IH. simpl in Hlen. lia.
Qed.

Lemma before_dashes_same_option (t1 t2 : string) (d : Dest) (e : option string) :
  parse_optional t1 = Known (StoreAction d) e ->
  parse_optional t2 = Known (StoreAction d) e ->
  String.eqb t1 "--" = false -> String.eqb t2 "--" = false ->
  forall before after : list string,
    existsb is_ambiguous (before_dashes (before ++ t1 :: after))
    = existsb is_ambiguous (before_dashes (before ++ t2 :: after)).
Proof.
  intros H1 H2 He1 He2 before after. induction before as [|x before IH]; cbn [app before_dashes].
  - rewrite He1, He2. cbn [existsb]. unfold is_ambiguous. rewrite H1, H2. reflexivity.
  - destruct (String.eqb x "--"); [reflexivity|]. cbn [existsb]. rewrite IH. reflexivity.
Qed.

Lemma parse_args_same_option (t1 t2 : string) (d : Dest) (e : option string)
    (before after : list string) :
  parse_optional t1 = Known (StoreAction d) e ->
  parse_optional t2 = Known (StoreAction d) e ->
  String.eqb t1 "--" = false -> String.eqb t2 "--" = false ->
  parse_args (before ++ t1 :: after) = parse_args (before ++ t2 :: after).
Proof.
  intros H1 H2 He1 He2. unfold parse_args.
  rewrite (before_dashes_same_option t1 t2 d e H1 H2 He1 He2 before after).
  rewrite (consume_same_option t1 t2 d e H1 H2 He1 He2 (length before) before after)
    by reflexivity.
  reflexivity.
Qed.

Lemma ambiguous_is_ambiguous (p : string) :
  ambiguous p = true ->
  is_ambiguous p = true /\ String.eqb p "--" = false
  /\ forall v, is_ambiguous (p ++ "=" ++ v) = true
               /\ String.eqb (p ++ "=" ++ v) "--" = false.
Proof.
  unfold ambiguous. intros H. apply andb_prop in H as [H Hc].
  apply andb_prop in H as [Hd Hne].
  assert (Hex : existsb (String.prefix p) (map fst option_string_actions) = true).
  { apply completions_cons. intros Hnil. rewrite Hnil in Hc. discriminate. }
  cbn [existsb map fst option_string_actions add_argument_calls app option_string dest]
    in Hex.
  repeat (apply orb_prop in Hex as [Hex|Hex]); try discriminate Hex;
    beginnings Hex; try discriminate Hd; try discriminate Hne;
    vm_compute in Hc; try discriminate Hc;
    (split; [reflexivity|]); (split; [reflexivity|]); intros v; split; reflexivity.
Qed.

Lemma existsb_before_dashes (t : string) (before after : list string) :
  "--" ∉ before -> is_ambiguous t = true -> String.eqb t "--" = false ->
  existsb is_ambiguous (before_dashes (before ++ t :: after)) = true.
Proof.
  intros Hno Ht Hne. induction before as [|x before IH]; cbn [app before_dashes].
  - rewrite Hne. cbn [existsb]. rewrite Ht. reflexivity.
  - destruct (String.eqb_spec x "--") as [->|_].
    + destruct Hno. apply list_elem_of_here.
    + cbn [existsb]. rewrite IH; [apply orb_true_r|].
      intros Hin. apply Hno. apply list_elem_of_further, Hin.
Qed.

(** X12: the options may be abbreviated.  Two dashes and a beginning of
    an option string that fits no other option string of the parser stand
    for the option, with the value joined by ['='] or in the next argument
    string, wherever they stand on the command line.  A beginning that
    fits more than one option string is an error (status 2) wherever it
    stands before a [--], whatever else is given, a request for help
    too. *)
Theorem parse_args_accepts_abbreviations :
  (forall (p : string) (d : Dest) (before after : list string),
      abbreviates p d = true ->
      parse_args (before ++ p :: after) = parse_args (before ++ option_of d :: after)
      /\ forall v,
           parse_args (before ++ (p ++ "=" ++ v)%string :: after)
           = parse_args (before ++ (option_of d ++ "=" ++ v)%string :: after))
  /\ (forall (p : string) (before after : list string),
         ambiguous p = true -> "--" ∉ before ->
         parse_args (before ++ p :: after) = Exit 2
         /\ forall v, parse_args (before ++ (p ++ "=" ++ v)%string :: after) = Exit 2).
Proof.
  split.
  - intros p d before after Hp.
    apply abbreviation_Known in Hp as (Hk & He & Hv). split.
    + apply (parse_args_same_option p (option_of d) d None);
        [exact Hk | apply parse_optional_exact | exact He | apply option_of_not_dashes].
    + intros v. destruct (Hv v) as [Hkv Hev].
      apply (parse_args_same_option _ _ d (Some v));
        [exact Hkv | apply parse_optional_joined | exact Hev | apply joined_not_dashes].
  - intros p before after Hp Hno.
    apply ambiguous_is_ambiguous in Hp as (Ha & Hne & Hv). split.
    + unfold parse_args. rewrite existsb_before_dashes by assumption. reflexivity.
    + intros v. destruct (Hv v) as [Hav Hnev].
      unfold parse_args. rewrite existsb_before_dashes by assumption. reflexivity.
Qed.
End options.
(** ** The further statements at concrete runs *)

Lemma run_computes {E : Env} (fs : FileSystem) (a : Args) (lg : option LogValues)
    (r : result unit) :
  fst (run_main (E := E) fs a lg) = r ->
  run_main (E := E) fs a lg = (r, snd (run_main (E := E) fs a lg)).
Proof. intros <-. apply surjective_pairing. Qed.

Lemma main_flushes_when_it_reaches_its_end_witness :
  Logger_flush ∈ trace (snd Scenario.outcome)
  /\ Logger_flush
     ∉ trace (snd (run_main (E := Scenario.env) Scenario.files Edge.absent_args None)).
Proof.
  split.
  - apply (proj1 (main_flushes_when_it_reaches_its_end
                    Scenario.files Scenario.args None (Return tt) (snd Scenario.outcome)
                    scenario_completes)).
    reflexivity.
  - intros Hin.
    apply (proj1 (main_flushes_when_it_reaches_its_end
                    Scenario.files Edge.absent_args None
                    (Raise (FileNotFoundError "gt/absent.csv")) _
                    (run_computes (E := Scenario.env) Scenario.files Edge.absent_args None _ eq_refl))) in Hin.
    discriminate Hin.
Defined.

Lemma elem_of_computed {A : Type} (x : A) (l l' : list A) : l = l' -> x ∈ l' -> x ∈ l.
Proof. intros ->. exact id. Qed.

Lemma main_logs_the_metrics_before_it_reads_them_witness :
  exists relation_metrics,
    Evaluate_returned Relation relation_metrics
    ∈ trace (snd (run_main (E := Edge.env Edge.without_recall Edge.phrases)
                    Scenario.files Scenario.args None))
    /\ (forall k v,
           (k, v) ∈ relation_metrics \/ (k, v) ∈ Edge.phrases ->
           Logger_log_value ("eval_epoch." ++ k)%string (VFloat v)
           ∈ trace (snd (run_main (E := Edge.env Edge.without_recall Edge.phrases)
                           Scenario.files Scenario.args None)))
    /\ match missing_key relation_metrics Edge.phrases with
       | Some k =>
           fst (run_main (E := Edge.env Edge.without_recall Edge.phrases)
                  Scenario.files Scenario.args None) = Raise (KeyError k)
           /\ (Logger_flush
               ∉ trace (snd (run_main (E := Edge.env Edge.without_recall Edge.phrases)
                               Scenario.files Scenario.args None)))
           /\ (forall n,
                  Logger_log_value "eval_epoch.epoch" (VInt n)
                  ∉ trace (snd (run_main (E := Edge.env Edge.without_recall Edge.phrases)
                                  Scenario.files Scenario.args None)))
       | None =>
           fst (run_main (E := Edge.env Edge.without_recall Edge.phrases)
                  Scenario.files Scenario.args None) = Return tt
       end.
Proof.
  apply (main_logs_the_metrics_before_it_reads_them
           (E := Edge.env Edge.without_recall Edge.phrases)
           Scenario.files Scenario.args None _ _ Edge.phrases
           (surjective_pairing _)).
  eapply elem_of_computed; [vm_compute; reflexivity|].
  do 16 apply list_elem_of_further. apply list_elem_of_here.
Defined.

Lemma main_logs_the_index_of_the_score_witness :
  exists (values : LogValues) (epoch_id : Z),
    logger (snd (run_main (E := Scenario.env) Scenario.files Scenario.args Scenario.logger'))
    = Some values
    /\ last (logged "eval_epoch.epoch"
               (trace (snd (run_main (E := Scenario.env) Scenario.files Scenario.args
                              Scenario.logger'))))
       = Some (VInt epoch_id)
    /\ Z.of_nat (length (default [] (dict_get values "eval_epoch.score")))
       = (epoch_id + 1)%Z.
Proof.
  destruct (main_logs_the_index_of_the_score
              (E := Scenario.env) Scenario.files Scenario.args Scenario.logger' _
              (run_computes (E := Scenario.env) Scenario.files Scenario.args
                 Scenario.logger' (Return tt) eq_refl))
    as (values & epoch_id & Hl & Hlast & _ & Hlen & _).
  exists values, epoch_id. split; [exact Hl|]. split; [exact Hlast | exact Hlen].
Defined.

Lemma main_loads_four_inputs_before_the_evaluators_witness :
  csv_error Scenario.env Scenario.files (input_annotations_boxes Edge.absent_args)
            (FileNotFoundError "gt/absent.csv")
  /\ fst (run_main (E := Scenario.env) Scenario.files Edge.absent_args None)
     = Raise (FileNotFoundError "gt/absent.csv")
  /\ trace (snd (run_main (E := Scenario.env) Scenario.files Edge.absent_args None))
     = take 3 (setup_events Edge.absent_args).
Proof.
  assert (He : csv_error Scenario.env Scenario.files
                 (input_annotations_boxes Edge.absent_args)
                 (FileNotFoundError "gt/absent.csv")).
  { left. split; reflexivity. }
  split; [exact He|].
  exact (proj1 (proj2 (proj2 (main_loads_four_inputs_before_the_evaluators
                                (E := Scenario.env) Scenario.files Edge.absent_args None
                                _ _ (surjective_pairing _)))) _ He).
Defined.

Lemma main_groups_by_the_ImageID_column_witness :
  groundtruth_inputs (Edge.env [] []) Edge.files Edge.headless_args
    Edge.headless Edge.headless [mkItem "A" 1; mkItem "B" 2] [mkItem "P" 1]
  /\ ("ImageID" ∉ df_columns Edge.headless)
  /\ fst (run_main (E := Edge.env [] []) Edge.files Edge.headless_args None)
     = Raise (KeyError "ImageID")
  /\ trace (snd (run_main (E := Edge.env [] []) Edge.files Edge.headless_args None))
     = setup_events Edge.headless_args.
Proof.
  assert (Hin : groundtruth_inputs (Edge.env [] []) Edge.files Edge.headless_args
                  Edge.headless Edge.headless [mkItem "A" 1; mkItem "B" 2]
                  [mkItem "P" 1]).
  { repeat split; eexists; split; reflexivity. }
  assert (Hcol : "ImageID" ∉ df_columns Edge.headless).
  { intros H. unfold Edge.headless in H. cbn [df_columns] in H. elem_cases H. }
  split; [exact Hin|]. split; [exact Hcol|].
  exact (proj1 (main_groups_by_the_ImageID_column
                  (E := Edge.env [] []) Edge.files Edge.headless_args None _ _
                  (surjective_pairing _)) _ _ _ _ Hin Hcol Hcol).
Defined.

Lemma main_reads_the_predictions_between_the_loops_witness :
  trace (snd Scenario.outcome) !! 10 = Some (Read_csv "pred.csv")
  /\ forall j e,
       trace (snd Scenario.outcome) !! j = Some e ->
       (is_groundtruth_call e = true -> j < 10)
       /\ (is_detection_call e || is_evaluate e = true -> 10 < j).
Proof.
  assert (H10 : trace (snd Scenario.outcome) !! 10 = Some (Read_csv "pred.csv")).
  { reflexivity. }
  split; [exact H10|].
  destruct (main_reads_the_predictions_between_the_loops
              Scenario.files Scenario.args None (Return tt) (snd Scenario.outcome)
              scenario_completes 10 "pred.csv" H10)
    as [[Hi _]|[[Hi _]|[_ H]]]; [discriminate Hi | discriminate Hi | exact H].
Defined.

Lemma computed_elem_of {A : Type} (x : A) (l l' : list A) : l = l' -> x ∈ l -> x ∈ l'.
Proof. intros ->. exact id. Qed.

Lemma nan_run_completes :
  run_main (E := Edge.env Edge.with_nan Edge.phrases) Scenario.files Scenario.args None
  = (Return tt,
     snd (run_main (E := Edge.env Edge.with_nan Edge.phrases)
            Scenario.files Scenario.args None)).
Proof. apply run_computes. vm_compute. reflexivity. Qed.

Lemma main_logs_nan_when_a_metric_is_nan_witness :
  run_main (E := Edge.env Edge.with_nan Edge.phrases) Scenario.files Scenario.args None
  = (Return tt,
     snd (run_main (E := Edge.env Edge.with_nan Edge.phrases)
            Scenario.files Scenario.args None))
  /\ exists relation_metrics relation_mAP score,
       Evaluate_returned Relation relation_metrics
       ∈ trace (snd (run_main (E := Edge.env Edge.with_nan Edge.phrases)
                       Scenario.files Scenario.args None))
       /\ dict_get relation_metrics "VRDMetric_Relationships_mAP@0.5IOU" = Some relation_mAP
       /\ is_nan relation_mAP = true
       /\ last (logged "eval_epoch.score"
                  (trace (snd (run_main (E := Edge.env Edge.with_nan Edge.phrases)
                                 Scenario.files Scenario.args None))))
          = Some (VFloat score)
       /\ is_nan score = true.
Proof.
  split; [exact nan_run_completes|].
  destruct (main_logs_nan_when_a_metric_is_nan
              (E := Edge.env Edge.with_nan Edge.phrases) Scenario.files Scenario.args None _
              nan_run_completes)
    as (rm & pm & x & y & z & score & Hrm & _ & Hx & _ & _ & Hlast & Hnan).
  assert (Hm : rm = Edge.with_nan).
  { pose proof Hrm as Hin. eapply computed_elem_of in Hin; [|vm_compute; reflexivity].
    repeat (apply elem_of_cons in Hin as [Hin|Hin]; [try discriminate Hin|]).
    - injection Hin as ->. reflexivity.
    - inversion Hin. }
  exists rm, x, score. split; [exact Hrm|]. split; [exact Hx|].
  assert (Hn : is_nan x = true).
  { subst rm. injection Hx as <-. reflexivity. }
  split; [exact Hn|]. split; [exact Hlast|]. apply Hnan. left. exact Hn.
Defined.

Lemma main_creates_the_logger_first_witness :
  trace (snd (run_main (E := Scenario.env) Scenario.files Edge.absent_args None)) !! 0
  = Some (Logger_new "" "metrics")
  /\ has_slash (output_metrics Edge.absent_args) = false.
Proof.
  split; [|reflexivity].
  exact (proj1 (main_creates_the_logger_first
                  (E := Scenario.env) Scenario.files Edge.absent_args None _ _
                  (surjective_pairing _))).
Defined.

Lemma swap_labelmap_dict_is_one_to_one_witness :
  dict_wf [("a", 1%Z); ("b", 1%Z); ("c", 2%Z)]
  /\ length (_swap_labelmap_dict [("a", 1%Z); ("b", 1%Z); ("c", 2%Z)]) <= 3
  /\ _swap_labelmap_dict
       (_swap_labelmap_dict (_swap_labelmap_dict [("a", 1%Z); ("b", 1%Z); ("c", 2%Z)]))
     = _swap_labelmap_dict [("a", 1%Z); ("b", 1%Z); ("c", 2%Z)].
Proof.
  assert (Hwf : dict_wf [("a", 1%Z); ("b", 1%Z); ("c", 2%Z)]).
  { apply (bool_decide_unpack _). vm_compute. exact I. }
  split; [exact Hwf|].
  destruct (swap_labelmap_dict_is_one_to_one string Z _ _ _ Hwf)
    as (_ & _ & _ & Hle & _ & Hswap).
  split; [exact Hle | exact Hswap].
Defined.

Lemma load_labelmap_keeps_one_entry_per_name_witness :
  exists items,
    reads_labelmap Scenario.env Scenario.files "twice.pbtxt" items
    /\ length [("A", 2%Z)] <= length items
    /\ (length [("A", 2%Z)] = length items <-> NoDup (map item_name items)).
Proof.
  destruct (load_labelmap_keeps_one_entry_per_name
              (E := Scenario.env) Scenario.files "twice.pbtxt"
              (init_world Scenario.env None) [("A", 2%Z)] _ (surjective_pairing _))
    as (items & Hr & _ & Hle & Heq & _).
  exists items. split; [exact Hr|]. split; [exact Hle | exact Heq].
Defined.

Lemma parse_args_takes_the_options_in_any_order_witness :
  parse_args ["--output_metrics=first.json"; "--input_relationship_labelmap"; "rel.pbtxt";
              "--input_class_labelmap=class.pbtxt"; "--input_predictions"; "pred.csv";
              "--input_annotations_labels=gt/labels.csv";
              "--input_annotations_boxes"; "gt/boxes.csv";
              "--output_metrics"; "out/metrics.json"]
  = Namespace_of Scenario.args.
Proof.
  apply (parse_args_takes_the_options_in_any_order
           [(dest_output_metrics, "first.json", Joined);
            (dest_input_relationship_labelmap, "rel.pbtxt", Separate);
            (dest_input_class_labelmap, "class.pbtxt", Joined);
            (dest_input_predictions, "pred.csv", Separate);
            (dest_input_annotations_labels, "gt/labels.csv", Joined);
            (dest_input_annotations_boxes, "gt/boxes.csv", Separate);
            (dest_output_metrics, "out/metrics.json", Separate)]).
  repeat constructor; discriminate.
Defined.

Lemma parse_args_accepts_abbreviations_witness :
  abbreviates "--o" dest_output_metrics = true
  /\ ambiguous "--input_annotations" = true
  /\ parse_args ["--o"; "out/metrics.json"] = parse_args ["--output_metrics"; "out/metrics.json"]
  /\ parse_args ["-h"; "--input_annotations=x"] = Exit 2.
Proof.
  split; [reflexivity|]. split; [reflexivity|]. split.
  - exact (proj1 (proj1 parse_args_accepts_abbreviations
                    "--o" dest_output_metrics [] ["out/metrics.json"] eq_refl)).
  - assert (Hno : "--" ∉ ["-h"]).
    { intros H. elem_cases H. }
    exact (proj2 (proj2 parse_args_accepts_abbreviations
                    "--input_annotations" ["-h"] [] eq_refl Hno) "x").
Defined.
